(** * tsf: a small, typesafe printf replacement -- model and verification

    A shallow embedding of the formatting engine of [tsf.h]: the argument
    cell [fmtarg], the growable output buffer [StackBuffer], the fast
    encoders [format_string], [format_integer], [format_int32] and
    [format_int64], the specifier rewriting of [fmt_settype] and
    [fmt_output_with_snprintf], and the scanner [fmt_core].

    Conventions of the embedding.
    - [size_t] and [ssize_t] are 64 bits wide, [int] is 32 bits wide (the
      build targets linux-clang on x64); every value is a [Z] and every
      conversion between the types is written out ([to_size_t],
      [to_ssize_t], [to_int], ...).
    - A [char*] into an array is the array (a [list ascii]) together with
      an offset; stores and loads are checked against the array's bounds,
      and one that falls outside stops the run with a [Fault].
    - A C string argument is the list of its characters; the character
      read at or past the end of the list is the terminating NUL.
    - Loops whose trip count the source does not bound take a [fuel]; a
      run that needs more iterations than it was given ends in [NoFuel]. *)

From Stdlib Require Import ZArith Ascii String List Bool Lia.
From Stdlib Require Import DecimalString DecimalPos.
Import ListNotations.
Local Open Scope Z_scope.

(** ** Machine integers *)

Definition PTRDIFF_MAX : Z := 2 ^ 63 - 1.

Definition to_size_t (x : Z) : Z := x mod 2 ^ 64.
Definition to_ssize_t (x : Z) : Z := (x + 2 ^ 63) mod 2 ^ 64 - 2 ^ 63.
Definition to_int (x : Z) : Z := (x + 2 ^ 31) mod 2 ^ 32 - 2 ^ 31.

(** The four instantiations of [TInt] in [format_integer]. *)
Inductive TInt : Type := int32_t | uint32_t | int64_t | uint64_t.

Definition cast (t : TInt) (x : Z) : Z :=
  match t with
  | int32_t => (x + 2 ^ 31) mod 2 ^ 32 - 2 ^ 31
  | uint32_t => x mod 2 ^ 32
  | int64_t => (x + 2 ^ 63) mod 2 ^ 64 - 2 ^ 63
  | uint64_t => x mod 2 ^ 64
  end.

(** ** Outcomes of a run *)

Inductive fault : Type :=
| StoreOutOfBounds   (* a store past the end of an array *)
| LoadOutOfBounds    (* a load past the end of an array *)
| NullCall           (* a call through a null function pointer *)
| AssertionFailed    (* assert(...) *)
| BadAlloc.          (* operator new[] could not provide the block *)

Inductive outcome (A : Type) : Type :=
| Ok (a : A)
| Fault (f : fault)
| NoFuel.

Arguments Ok {A} a.
Arguments Fault {A} f.
Arguments NoFuel {A}.

Definition bind {A B : Type} (m : outcome A) (k : A -> outcome B) : outcome B :=
  match m with
  | Ok a => k a
  | Fault f => Fault f
  | NoFuel => NoFuel
  end.

Declare Scope outcome_scope.
Delimit Scope outcome_scope with outcome.
Notation "x <- m ;; k" := (bind m (fun x => k))
  (at level 61, m at next level, right associativity) : outcome_scope.
Notation "' p <- m ;; k" := (bind m (fun x => let p := x in k))
  (at level 61, p pattern, m at next level, right associativity) : outcome_scope.
Local Open Scope outcome_scope.

(** ** Characters, C strings and arrays *)

Definition NUL : ascii := Ascii.zero.

Definition is_nul (c : ascii) : bool := Ascii.eqb c NUL.

Definition chars (s : string) : list ascii := list_ascii_of_string s.

(** [s[i]] for a C string: past the stored characters sits the terminator. *)
Definition char_at (s : list ascii) (i : Z) : ascii :=
  if i <? 0 then NUL else nth (Z.to_nat i) s NUL.

Fixpoint strlen_nat (s : list ascii) : nat :=
  match s with
  | [] => O
  | c :: s' => if is_nul c then O else S (strlen_nat s')
  end.

Definition strlen (s : list ascii) : Z := Z.of_nat (strlen_nat s).

(** The characters of a C string, up to its terminator. *)
Fixpoint c_str (s : list ascii) : list ascii :=
  match s with
  | [] => []
  | c :: s' => if is_nul c then [] else c :: c_str s'
  end.

Definition len {A : Type} (l : list A) : Z := Z.of_nat (List.length l).

(** [a[i]] as an rvalue, for an array [a]. *)
Definition load (a : list ascii) (i : Z) : outcome ascii :=
  if (0 <=? i) && (i <? len a) then Ok (nth (Z.to_nat i) a NUL)
  else Fault LoadOutOfBounds.

Fixpoint set_nth (n : nat) (c : ascii) (a : list ascii) : list ascii :=
  match a, n with
  | [], _ => []
  | _ :: a', O => c :: a'
  | x :: a', S n' => x :: set_nth n' c a'
  end.

(** [a[i] = c]. *)
Definition store (a : list ascii) (i : Z) (c : ascii) : outcome (list ascii) :=
  if (0 <=? i) && (i <? len a) then Ok (set_nth (Z.to_nat i) c a)
  else Fault StoreOutOfBounds.

(** [p[0] = c0; p[1] = c1; ...] for [p = a + i]. *)
Fixpoint store_all (a : list ascii) (i : Z) (cs : list ascii) : outcome (list ascii) :=
  match cs with
  | [] => Ok a
  | c :: cs' => a' <- store a i c ;; store_all a' (i + 1) cs'
  end.

(** [memcpy(dst, src, n)], both pointers at the start of their arrays. *)
Definition memcpy (dst src : list ascii) (n : Z) : outcome (list ascii) :=
  if n <? 0 then Fault StoreOutOfBounds
  else if len src <? n then Fault LoadOutOfBounds
  else if len dst <? n then Fault StoreOutOfBounds
  else Ok (firstn (Z.to_nat n) src ++ skipn (Z.to_nat n) dst).

(** ** Argument cells and the escape context *)

(** [fmtarg]: the tag [Type] and the union member it selects. Integer
    payloads are the values of the C type; [Dbl] carries the 64 bits of the
    double, [Ptr] the address, [WStr] the wide characters. *)
Inductive fmtarg : Type :=
| TNull
| TPtr (Ptr : Z)
| TCStr (CStr : list ascii)
| TWStr (WStr : list Z)
| TI32 (I32 : Z)
| TU32 (UI32 : Z)
| TI64 (I64 : Z)
| TU64 (UI64 : Z)
| TDbl (Dbl : Z).

(** [WriteSpecialFunc]: from [outBufSize] and the cell, the bytes the hook
    stores at [outBuf[0]], [outBuf[1]], ... and the [size_t] it returns. *)
Definition WriteSpecialFunc : Type := Z -> fmtarg -> list ascii * Z.

Record context : Type := {
  Escape_Q : option WriteSpecialFunc;
  Escape_q : option WriteSpecialFunc
}.

(** [context cx;] both hooks are [nullptr]. *)
Definition default_context : context := {| Escape_Q := None; Escape_q := None |}.

Definition argbuf_arraysize : Z := 16.

(** The branch of [#ifdef _WIN32] that the build takes. *)
Definition i64Prefix : list ascii := chars "ll".
Definition wcharPrefix : list ascii := chars "l".
Definition wcharType : ascii := "s"%char.

(** ** StackBuffer *)

Record StackBuffer : Type := {
  Buffer : list ascii;
  Pos : Z;
  Capacity : Z;
  OwnBuffer : bool
}.

Definition StackBuffer_new (staticbuf : list ascii) (staticbuf_size : Z) : StackBuffer :=
  {| OwnBuffer := false; Pos := 0; Buffer := staticbuf; Capacity := staticbuf_size |}.

Definition RemainingSpace (b : StackBuffer) : Z := to_size_t (Capacity b - Pos b).

Definition MoveCurrentPos (b : StackBuffer) (bytes : Z) : outcome StackBuffer :=
  let pos := to_size_t (Pos b + bytes) in
  if pos <=? Capacity b
  then Ok {| Buffer := Buffer b; Pos := pos; Capacity := Capacity b; OwnBuffer := OwnBuffer b |}
  else Fault AssertionFailed.

Section Engine.

(** What the cells of a block hold before anything is stored in them. *)
Variable junk : ascii.

(** The platform's formatter: the text [vsnprintf] produces for a format
    with one conversion and its argument when room is no concern, [None]
    when it reports an error. *)
Variable render : list ascii -> fmtarg -> option (list ascii).

(** [new char[n]]. *)
Definition new_char (n : Z) : outcome (list ascii) :=
  if n <=? PTRDIFF_MAX then Ok (repeat junk (Z.to_nat n)) else Fault BadAlloc.

Definition Reserve (b : StackBuffer) (bytes : Z) : outcome StackBuffer :=
  if to_size_t (Pos b + bytes) >? Capacity b then
    let ncap := to_size_t (Capacity b * 2) in
    let ncap := if ncap <? to_size_t (Pos b + bytes) then to_size_t (Pos b + bytes) else ncap in
    nbuf <- new_char ncap ;;
    nbuf <- memcpy nbuf (Buffer b) (Pos b) ;;
    Ok {| Buffer := nbuf; Pos := Pos b; Capacity := ncap; OwnBuffer := true |}
  else Ok b.

(** Returns the offset of [p] in [Buffer] next to the buffer. *)
Definition AddUninitialized (b : StackBuffer) (bytes : Z) : outcome (Z * StackBuffer) :=
  b <- Reserve b bytes ;;
  let p := Pos b in
  Ok (p, {| Buffer := Buffer b; Pos := to_size_t (Pos b + bytes);
            Capacity := Capacity b; OwnBuffer := OwnBuffer b |}).

Definition Add (b : StackBuffer) (c : ascii) : outcome StackBuffer :=
  '(p, b) <- AddUninitialized b 1 ;;
  m <- store (Buffer b) p c ;;
  Ok {| Buffer := m; Pos := Pos b; Capacity := Capacity b; OwnBuffer := OwnBuffer b |}.

(** ** The platform primitive and [fmt_snprintf] *)

Definition INT_MAX : Z := 2 ^ 31 - 1.

(** [vsnprintf(destination, count, format_str, va)] for one argument, as
    C99 has it: at most [count - 1] characters of the text and a NUL are
    stored when [count] is not zero; the result is the length of the whole
    text, or negative on an error. *)
Definition vsnprintf (mem : list ascii) (destination count : Z) (format_str : list ascii)
    (arg : fmtarg) : outcome (list ascii * Z) :=
  match render (c_str format_str) arg with
  | None => Ok (mem, -1)
  | Some text =>
      let r := if len text <=? INT_MAX then len text else -1 in
      if count =? 0 then Ok (mem, r)
      else
        mem <- store_all mem destination (firstn (Z.to_nat (count - 1)) text ++ [NUL]) ;;
        Ok (mem, r)
  end.

Definition fmt_translate_snprintf_return_value (r count : Z) : Z :=
  if (r <? 0) || (to_size_t r >=? count) then -1 else r.

Definition fmt_snprintf (mem : list ascii) (destination count : Z) (format_str : list ascii)
    (arg : fmtarg) : outcome (list ascii * Z) :=
  '(mem, r) <- vsnprintf mem destination count format_str arg ;;
  Ok (mem, fmt_translate_snprintf_return_value r count).

(** ** Fast encoders *)

(** The loop of [format_string]; [s] is what is left of the source at [i]. *)
Fixpoint format_string_copy (mem : list ascii) (destination count i : Z) (s : list ascii)
    : outcome (list ascii * Z) :=
  if i <? count then
    match s with
    | [] => Ok (mem, to_int i)
    | c :: s' =>
        if is_nul c then Ok (mem, to_int i)
        else
          mem <- store mem (destination + i) c ;;
          format_string_copy mem destination count (i + 1) s'
    end
  else Ok (mem, -1).

Definition format_string (mem : list ascii) (destination count : Z) (format_str s : list ascii)
    : outcome (list ascii * Z) :=
  if Ascii.eqb (char_at format_str 0) "%" && Ascii.eqb (char_at format_str 1) "s"
  then format_string_copy mem destination count 0 s
  else fmt_snprintf mem destination count format_str (TCStr s).

Definition lut (upcase : bool) : list ascii :=
  if upcase
  then chars "ZYXWVUTSRQPONMLKJIHGFEDCBA9876543210123456789ABCDEFGHIJKLMNOPQRSTUVWXYZ"
  else chars "zyxwvutsrqponmlkjihgfedcba9876543210123456789abcdefghijklmnopqrstuvwxyz".

(** The do-while loop of [format_integer]. [buf] lists [buf[i-1]], ...,
    [buf[0]]; [room] counts the cells of [char buf[20]] still free. *)
Fixpoint format_integer_digits (room : nat) (t : TInt) (upcase : bool) (base value : Z)
    (buf : list ascii) : outcome (list ascii * Z) :=
  match room with
  | O => Fault StoreOutOfBounds
  | S room' =>
      let tmp_value := value in
      let value := cast t (Z.quot value base) in
      let buf := char_at (lut upcase) (35 + cast t (tmp_value - cast t (value * base))) :: buf in
      if value =? 0 then Ok (buf, tmp_value)
      else format_integer_digits room' t upcase base value buf
  end.

Definition format_integer (t : TInt) (tbase : Z) (upcase : bool) (mem : list ascii)
    (destination value : Z) : outcome (list ascii * Z) :=
  let base := cast t tbase in
  '(buf, tmp_value) <- format_integer_digits 20 t upcase base value [] ;;
  buf <- (if tmp_value <? 0
          then if len buf <? 20 then Ok ("-"%char :: buf) else Fault StoreOutOfBounds
          else Ok buf) ;;
  let n := len buf in
  mem <- store_all mem destination buf ;;
  Ok (mem, to_int n).

Definition format_int32 (mem : list ascii) (destination count : Z) (format_str : list ascii)
    (v : Z) : outcome (list ascii * Z) :=
  let general := fmt_snprintf mem destination count format_str (TI32 v) in
  match char_at format_str 1 with
  | "d"%char | "i"%char =>
      if count >=? 11 then format_integer int32_t 10 false mem destination v
      else general
  | "u"%char =>
      if count >=? 11 then format_integer uint32_t 10 false mem destination (cast uint32_t v)
      else general
  | "x"%char =>
      if count >=? 8 then format_integer uint32_t 16 false mem destination (cast uint32_t v)
      else general
  | "X"%char =>
      if count >=? 8 then format_integer uint32_t 16 true mem destination (cast uint32_t v)
      else general
  | _ => general
  end.

Definition format_int64 (mem : list ascii) (destination count : Z) (format_str : list ascii)
    (v : Z) : outcome (list ascii * Z) :=
  let general := fmt_snprintf mem destination count format_str (TI64 v) in
  let isPlain := Ascii.eqb (char_at format_str 1) (char_at i64Prefix 0)
                 && Ascii.eqb (char_at format_str 2) (char_at i64Prefix 1) in
  if isPlain then
    match char_at format_str 4 with
    | "d"%char | "i"%char =>
        if count >=? 20 then format_integer int64_t 10 false mem destination v
        else general
    | "u"%char =>
        if count >=? 20 then format_integer uint64_t 10 false mem destination (cast uint64_t v)
        else general
    | "x"%char =>
        if count >=? 16 then format_integer uint64_t 16 false mem destination (cast uint64_t v)
        else general
    | "X"%char =>
        if count >=? 16 then format_integer uint64_t 16 true mem destination (cast uint64_t v)
        else general
    | _ => general
    end
  else general.

(** ** Rewriting the specifier: [fmt_settype], [fmt_output_with_snprintf] *)

(** [for (; *width; width++, pos++) argbuf[pos] = *width;] *)
Fixpoint fmt_settype_width (argbuf : list ascii) (pos : Z) (width : list ascii)
    : outcome (list ascii * Z) :=
  match width with
  | [] => Ok (argbuf, pos)
  | c :: width' =>
      argbuf <- store argbuf pos c ;;
      fmt_settype_width argbuf (pos + 1) width'
  end.

(** [width] is [None] for [nullptr]. *)
Definition fmt_settype (argbuf : list ascii) (pos : Z) (width : option (list ascii))
    (type : ascii) : outcome (list ascii) :=
  match width with
  | Some width =>
      last <- load argbuf (to_size_t (pos - 1)) ;;
      let pos := match last with
                 | "l"%char | "h"%char | "w"%char => to_size_t (pos - 1)
                 | _ => pos
                 end in
      '(argbuf, pos) <- fmt_settype_width argbuf pos width ;;
      argbuf <- store argbuf pos type ;;
      store argbuf (pos + 1) NUL
  | None =>
      argbuf <- store argbuf pos type ;;
      store argbuf (pos + 1) NUL
  end.

Definition tokenint_of (fmt_type : ascii) : bool :=
  match fmt_type with
  | "d"%char | "i"%char | "o"%char | "u"%char | "x"%char | "X"%char => true
  | _ => false
  end.

Definition tokenreal_of (fmt_type : ascii) : bool :=
  match fmt_type with
  | "e"%char | "E"%char | "f"%char | "g"%char | "G"%char | "a"%char | "A"%char => true
  | _ => false
  end.

(** Returns the output block, [argbuf] and the [int] result. *)
Definition fmt_output_with_snprintf (mem : list ascii) (outbuf : Z) (fmt_type : ascii)
    (argbuf : list ascii) (argbufsize outputSize : Z) (arg : fmtarg)
    : outcome (list ascii * list ascii * Z) :=
  let SETTYPE1 type := fmt_settype argbuf argbufsize None type in
  let SETTYPE2 width type := fmt_settype argbuf argbufsize (Some width) type in
  let tokenint := tokenint_of fmt_type in
  let tokenreal := tokenreal_of fmt_type in
  match arg with
  | TNull => Ok (mem, argbuf, 0)
  | TPtr _ =>
      argbuf <- SETTYPE1 "p"%char ;;
      '(mem, r) <- fmt_snprintf mem outbuf outputSize argbuf arg ;;
      Ok (mem, argbuf, r)
  | TCStr CStr =>
      argbuf <- SETTYPE2 [] "s"%char ;;
      '(mem, r) <- format_string mem outbuf outputSize argbuf CStr ;;
      Ok (mem, argbuf, r)
  | TWStr _ =>
      argbuf <- SETTYPE2 wcharPrefix wcharType ;;
      '(mem, r) <- fmt_snprintf mem outbuf outputSize argbuf arg ;;
      Ok (mem, argbuf, r)
  | TI32 I32 =>
      argbuf <- (if Ascii.eqb fmt_type "c" then SETTYPE2 [] "c"%char
                 else if tokenint then SETTYPE2 [] fmt_type
                 else SETTYPE2 [] "d"%char) ;;
      '(mem, r) <- format_int32 mem outbuf outputSize argbuf (cast int32_t I32) ;;
      Ok (mem, argbuf, r)
  | TU32 UI32 =>
      argbuf <- (if tokenint then SETTYPE2 [] fmt_type else SETTYPE2 [] "u"%char) ;;
      '(mem, r) <- format_int32 mem outbuf outputSize argbuf (cast int32_t (cast uint32_t UI32)) ;;
      Ok (mem, argbuf, r)
  | TI64 I64 =>
      argbuf <- (if tokenint then SETTYPE2 i64Prefix fmt_type else SETTYPE2 i64Prefix "d"%char) ;;
      '(mem, r) <- format_int64 mem outbuf outputSize argbuf (cast int64_t I64) ;;
      Ok (mem, argbuf, r)
  | TU64 UI64 =>
      argbuf <- (if tokenint then SETTYPE2 i64Prefix fmt_type else SETTYPE2 i64Prefix "u"%char) ;;
      '(mem, r) <- format_int64 mem outbuf outputSize argbuf (cast int64_t (cast uint64_t UI64)) ;;
      Ok (mem, argbuf, r)
  | TDbl _ =>
      argbuf <- (if tokenreal then SETTYPE1 fmt_type else SETTYPE1 "g"%char) ;;
      '(mem, r) <- fmt_snprintf mem outbuf outputSize argbuf arg ;;
      Ok (mem, argbuf, r)
  end.

(** ** The scanner: [fmt_core] *)

(** Where [StrLenPair::Str] points: at [staticbuf] or at a block that
    [new char[]] returned. *)
Inductive block : Type := StaticBuf | HeapBlock.

Record StrLenPair : Type := {
  Str : list ascii;
  Len : Z;
  Str_block : block
}.

Definition MaxOutputSize : Z := 1 * 1024 * 1024.

(** The three arms of [switch (fmt[i])] inside a token. *)
Inductive arm : Type := Terminator | Percent | Default.

Definition switch_arm (c : ascii) : arm :=
  match c with
  | "a"%char | "A"%char | "c"%char | "C"%char | "d"%char | "i"%char | "e"%char
  | "E"%char | "f"%char | "g"%char | "G"%char | "H"%char | "o"%char | "s"%char
  | "S"%char | "u"%char | "x"%char | "X"%char | "p"%char | "n"%char | "v"%char
  | "q"%char | "Q"%char => Terminator
  | "%"%char => Percent
  | _ => Default
  end.

(** The locals of [fmt_core] that live across iterations of its loop. *)
Record scanner : Type := {
  at_i : Z;            (* i *)
  tokenstart : Z;
  iarg : Z;
  output : StackBuffer;
  argbuf : list ascii
}.

Section Scan.

Variable cx : context.
Variable fmt : list ascii.
Variable nargs : Z.
Variable args : list fmtarg.
Variable staticbuf_size : Z.

Definition initial_sprintf_guessed_size : Z := Z.shiftr staticbuf_size 2.

(** [for (ssize_t j = tokenstart; j <= i; j++) output.Add(fmt[j]);] with
    [n] characters to go from [j]. *)
Fixpoint add_token (n : nat) (j : Z) (output : StackBuffer) : outcome StackBuffer :=
  match n with
  | O => Ok output
  | S n' =>
      output <- Add output (char_at fmt j) ;;
      add_token n' (j + 1) output
  end.

(** [for (ssize_t j = tokenstart; j < i; j++) { if (fmt[j] == '*') continue;
    argbuf[argbufsize++] = fmt[j]; }] with [n] characters to go from [j]. *)
Fixpoint copy_token (n : nat) (j : Z) (argbuf : list ascii) (argbufsize : Z)
    : outcome (list ascii * Z) :=
  match n with
  | O => Ok (argbuf, argbufsize)
  | S n' =>
      if Ascii.eqb (char_at fmt j) "*" then copy_token n' (j + 1) argbuf argbufsize
      else
        argbuf <- store argbuf argbufsize (char_at fmt j) ;;
        copy_token n' (j + 1) argbuf (argbufsize + 1)
  end.

(** One call of the hook or of [fmt_output_with_snprintf]. *)
Definition call_writer (is_q is_Q : bool) (fmt_type : ascii) (mem : list ascii) (outbuf : Z)
    (argbuf : list ascii) (argbufsize outputSize : Z) (arg : fmtarg)
    : outcome (list ascii * list ascii * Z) :=
  let hook (h : option WriteSpecialFunc) :=
    match h with
    | None => Fault NullCall
    | Some f =>
        let '(bytes, r) := f (to_size_t outputSize) arg in
        mem <- store_all mem outbuf bytes ;;
        Ok (mem, argbuf, to_ssize_t r)
    end in
  if is_q then hook (Escape_q cx)
  else if is_Q then hook (Escape_Q cx)
  else fmt_output_with_snprintf mem outbuf fmt_type argbuf (to_size_t argbufsize)
         (to_size_t outputSize) arg.

(** [while (true) { ... }]: grow the destination until the writer fits. *)
Fixpoint grow_output (fuel : nat) (is_q is_Q : bool) (fmt_type : ascii) (arg : fmtarg)
    (argbufsize : Z) (output : StackBuffer) (argbuf : list ascii) (outputSize : Z)
    : outcome (StackBuffer * list ascii) :=
  match fuel with
  | O => NoFuel
  | S fuel' =>
      '(outbuf, output) <- AddUninitialized output (to_size_t outputSize) ;;
      '(mem, argbuf, written) <-
         call_writer is_q is_Q fmt_type (Buffer output) outbuf argbuf argbufsize outputSize arg ;;
      let output := {| Buffer := mem; Pos := Pos output; Capacity := Capacity output;
                       OwnBuffer := OwnBuffer output |} in
      if (written >=? 0) && (written <? outputSize) then
        output <- MoveCurrentPos output (to_size_t (written - outputSize)) ;;
        Ok (output, argbuf)
      else if outputSize >=? MaxOutputSize then Ok (output, argbuf)
      else
        output <- MoveCurrentPos output (to_size_t (- outputSize)) ;;
        grow_output fuel' is_q is_Q fmt_type arg argbufsize output argbuf
          (to_ssize_t (outputSize * 2))
  end.

(** [for (; i < stopAt && fmt[i] != '%' && fmt[i] != 0; i++)
    output.Buffer[output.Pos++] = fmt[i];] where [rest] is the format
    string from [i] on. *)
Fixpoint copy_literal (rest : list ascii) (i stopAt : Z) (output : StackBuffer)
    : outcome (Z * StackBuffer) :=
  match rest with
  | [] => Ok (i, output)
  | c :: rest' =>
      if (i <? stopAt) && negb (Ascii.eqb c "%") && negb (is_nul c) then
        mem <- store (Buffer output) (Pos output) c ;;
        copy_literal rest' (i + 1) stopAt
          {| Buffer := mem; Pos := to_size_t (Pos output + 1);
             Capacity := Capacity output; OwnBuffer := OwnBuffer output |}
      else Ok (i, output)
  end.

(** The body of the [for] loop; the flag says that it left by [break]. *)
Definition scan_body (fuel : nat) (st : scanner) : outcome (bool * scanner) :=
  let i := at_i st in
  if negb (tokenstart st =? -1) then
    let is_q := Ascii.eqb (char_at fmt i) "q" in
    let is_Q := Ascii.eqb (char_at fmt i) "Q" in
    match switch_arm (char_at fmt i) with
    | Terminator =>
        let no_args_remaining := iarg st >=? nargs in
        let spec_too_long := to_size_t (i - tokenstart st) >=? to_size_t (argbuf_arraysize - 1) in
        let disallowed := Ascii.eqb (char_at fmt i) "n" in
        let disallowed :=
          if is_q && (match Escape_q cx with None => true | Some _ => false end)
          then true else disallowed in
        let disallowed :=
          if is_Q && (match Escape_Q cx with None => true | Some _ => false end)
          then true else disallowed in
        if no_args_remaining || spec_too_long || disallowed then
          output <- add_token (Z.to_nat (i - tokenstart st + 1)) (tokenstart st) (output st) ;;
          Ok (false, {| at_i := i; tokenstart := -1; iarg := iarg st;
                        output := output; argbuf := argbuf st |})
        else
          '(argbuf, argbufsize) <-
             copy_token (Z.to_nat (i - tokenstart st)) (tokenstart st) (argbuf st) 0 ;;
          let arg := nth (Z.to_nat (iarg st)) args TNull in
          let iarg := to_ssize_t (iarg st + 1) in
          let outputSize := to_ssize_t initial_sprintf_guessed_size in
          '(output, argbuf) <-
             grow_output fuel is_q is_Q (char_at fmt i) arg argbufsize (output st) argbuf
               outputSize ;;
          Ok (false, {| at_i := i; tokenstart := -1; iarg := iarg;
                        output := output; argbuf := argbuf |})
    | Percent =>
        output <- Add (output st) "%"%char ;;
        Ok (false, {| at_i := i; tokenstart := -1; iarg := iarg st;
                      output := output; argbuf := argbuf st |})
    | Default => Ok (false, st)
    end
  else
    let stopAt := to_ssize_t (i + RemainingSpace (output st)) in
    '(i, output) <- copy_literal (skipn (Z.to_nat i) fmt) i stopAt (output st) ;;
    if Ascii.eqb (char_at fmt i) "%" then
      Ok (false, {| at_i := i; tokenstart := i; iarg := iarg st;
                    output := output; argbuf := argbuf st |})
    else if is_nul (char_at fmt i) then
      Ok (true, {| at_i := i; tokenstart := tokenstart st; iarg := iarg st;
                   output := output; argbuf := argbuf st |})
    else
      output <- Reserve output 1 ;;
      Ok (false, {| at_i := i - 1; tokenstart := tokenstart st; iarg := iarg st;
                    output := output; argbuf := argbuf st |}).

(** [for (ssize_t i = 0; fmt[i]; i++) { ... }] from the state [st] on. *)
Fixpoint scan (fuel : nat) (st : scanner) : outcome scanner :=
  if is_nul (char_at fmt (at_i st)) then Ok st
  else
    match fuel with
    | O => NoFuel
    | S fuel' =>
        '(broke, st) <- scan_body fuel st ;;
        if broke then Ok st
        else scan fuel' {| at_i := at_i st + 1; tokenstart := tokenstart st; iarg := iarg st;
                           output := output st; argbuf := argbuf st |}
    end.

End Scan.

(** [StrLenPair fmt_core(context, fmt, nargs, args, staticbuf, staticbuf_size)]. *)
Definition fmt_core (fuel : nat) (cx : context) (fmt : list ascii) (nargs : Z)
    (args : list fmtarg) (staticbuf : list ascii) (staticbuf_size : Z) : outcome StrLenPair :=
  if nargs =? 0 then
    let len := strlen fmt in
    if negb (staticbuf_size =? 0) && (len <=? to_size_t (staticbuf_size + 1)) then
      m <- memcpy staticbuf (c_str fmt ++ [NUL]) (len + 1) ;;
      Ok {| Str := m; Len := len; Str_block := StaticBuf |}
    else
      r <- new_char (len + 1) ;;
      m <- memcpy r (c_str fmt ++ [NUL]) (len + 1) ;;
      Ok {| Str := m; Len := len; Str_block := HeapBlock |}
  else
    let st := {| at_i := 0; tokenstart := -1; iarg := 0;
                 output := StackBuffer_new staticbuf staticbuf_size;
                 argbuf := repeat junk (Z.to_nat argbuf_arraysize) |} in
    st <- scan cx fmt nargs args staticbuf_size fuel st ;;
    output <- Add (output st) NUL ;;
    Ok {| Str := Buffer output; Len := to_size_t (Pos output - 1);
          Str_block := if OwnBuffer output then HeapBlock else StaticBuf |}.

(** [std::string fmt_core(context, fmt, nargs, args)]. *)
Definition fmt_core_string (fuel : nat) (cx : context) (fmt : list ascii) (nargs : Z)
    (args : list fmtarg) : outcome (list ascii) :=
  let bufsize := 256 in
  let staticbuf := repeat junk (Z.to_nat bufsize) in
  res <- fmt_core fuel cx fmt nargs args staticbuf bufsize ;;
  Ok (firstn (Z.to_nat (Len res)) (Str res)).

(** [fmt(fs, args...)]: [pack_array] has one cell more than there are
    arguments. *)
Definition fmt (fuel : nat) (fs : list ascii) (args : list fmtarg) : outcome (list ascii) :=
  let num_args := len args in
  let pack_array := args ++ [TNull] in
  fmt_core_string fuel default_context fs num_args pack_array.

(** [fmt_buf(cx, buf, buf_len, fs, args...)]. *)
Definition fmt_buf (fuel : nat) (cx : context) (buf : list ascii) (buf_len : Z)
    (fs : list ascii) (args : list fmtarg) : outcome StrLenPair :=
  let num_args := len args in
  let pack_array := args ++ [TNull] in
  fmt_core fuel cx fs num_args pack_array buf buf_len.

End Engine.

(** ** Notions used in the statements *)

(** The bytes appended so far. *)
Definition contents (b : StackBuffer) : list ascii :=
  firstn (Z.to_nat (Pos b)) (Buffer b).

(** The write cursor is inside the block, [Capacity] is the size of the
    block, and the block is an object the allocator can provide. *)
Definition buffer_ok (b : StackBuffer) : Prop :=
  0 <= Pos b <= Capacity b /\ Capacity b <= PTRDIFF_MAX /\ len (Buffer b) = Capacity b.

(** A platform formatter that reports an error for every request; it
    stands in for [vsnprintf] in runs that never reach the general path. *)
Definition render_nothing : list ascii -> fmtarg -> option (list ascii) :=
  fun _ _ => None.

(** The characters that [fmt_settype] takes for a length modifier. *)
Definition length_modifier (c : ascii) : bool :=
  match c with
  | "l"%char | "h"%char | "w"%char => true
  | _ => false
  end.

(** Where [fmt_settype] starts to write when it is given a width: one back
    when the character before [pos] is a length modifier. *)
Definition settype_start (argbuf : list ascii) (pos : Z) : Z :=
  if length_modifier (nth (Z.to_nat (pos - 1)) argbuf NUL) then pos - 1 else pos.

(** [fmt[j]], [fmt[j+1]], ..., [n] characters in all. *)
Fixpoint chars_from (fmt : list ascii) (j : Z) (n : nat) : list ascii :=
  match n with
  | O => []
  | S n' => char_at fmt j :: chars_from fmt (j + 1) n'
  end.

(** The scanner's state at the head of the next iteration: [i++]. *)
Definition advance (st : scanner) : scanner :=
  {| at_i := at_i st + 1; tokenstart := tokenstart st; iarg := iarg st;
     output := output st; argbuf := argbuf st |}.

(** The bytes of the token that the scanner is inside of at [st]:
    [fmt[tokenstart .. i]]. *)
Definition token_text (fmt : list ascii) (st : scanner) : list ascii :=
  firstn (Z.to_nat (at_i st - tokenstart st + 1)) (skipn (Z.to_nat (tokenstart st)) fmt).

(** The outcome [r] of an iteration from [st] is: the token went to the
    output as literal text, the token is closed, and no cell was taken. *)
Definition token_copied (fmt : list ascii) (st : scanner)
    (r : outcome (bool * scanner)) : Prop :=
  exists output',
    r = Ok (false, {| at_i := at_i st; tokenstart := -1; iarg := iarg st;
                      output := output'; argbuf := argbuf st |})
    /\ contents output' = contents (output st) ++ token_text fmt st
    /\ buffer_ok output'.


(** A buffer and scanner states for the worked examples: the 256 bytes of
    [fmt_core]'s [staticbuf], nothing appended. *)
Definition sample_buffer : StackBuffer :=
  StackBuffer_new (repeat "?"%char 256) 256.


Definition sample_in_token (i : Z) : scanner :=
  {| at_i := i; tokenstart := 0; iarg := 0; output := sample_buffer;
     argbuf := repeat "?"%char 16 |}.

(** A step is quiet when it neither runs out of fuel nor trips an
    [assert]: it returns, or it stops on a bad store, load, call or
    allocation. *)
Definition quiet {A : Type} (o : outcome A) : Prop :=
  match o with
  | Ok _ => True
  | Fault f => f <> AssertionFailed
  | NoFuel => False
  end.

(** The step [o] trips no [assert], and when it returns its result
    satisfies [P]. *)
Definition safely {A : Type} (P : A -> Prop) (o : outcome A) : Prop :=
  match o with
  | Ok a => P a
  | Fault f => f <> AssertionFailed
  | NoFuel => True
  end.

(** The invariant of the scanner at the head of its loop. *)
Definition scanner_ok (st : scanner) : Prop :=
  buffer_ok (output st) /\ 0 <= at_i st.

(** The states in which [fmt_core] enters the body of its loop, for the
    caller's region [staticbuf]. *)
Inductive reachable (junk : ascii) (render : list ascii -> fmtarg -> option (list ascii))
    (cx : context) (fmt : list ascii) (nargs : Z) (args : list fmtarg)
    (staticbuf : list ascii) : scanner -> Prop :=
| reach_start :
    reachable junk render cx fmt nargs args staticbuf
      {| at_i := 0; tokenstart := -1; iarg := 0;
         output := StackBuffer_new staticbuf (len staticbuf);
         argbuf := repeat junk (Z.to_nat argbuf_arraysize) |}
| reach_next (fuel : nat) (st st' : scanner) :
    reachable junk render cx fmt nargs args staticbuf st ->
    scan_body junk render cx fmt nargs args (len staticbuf) fuel st = Ok (false, st') ->
    reachable junk render cx fmt nargs args staticbuf (advance st').

(** The step [o] returns, and its result satisfies [P]. *)
Definition returns {A : Type} (P : A -> Prop) (o : outcome A) : Prop :=
  exists a, o = Ok a /\ P a.

(** The step [o] returns with a result that satisfies [P], unless the
    allocator refuses the block that the step asks for. *)
Definition returns_if_allocated {A : Type} (P : A -> Prop) (o : outcome A) : Prop :=
  o = Fault BadAlloc \/ returns P o.

(** The invariant of the output buffer, operation by operation, for one
    call of [fmt_core] on the caller's region [staticbuf]. Every store of
    the model is checked against the block it goes to, so an operation
    that returns has kept all its writes inside the block. *)
Definition output_invariant (junk : ascii)
    (render : list ascii -> fmtarg -> option (list ascii)) (cx : context)
    (fmt : list ascii) (nargs : Z) (args : list fmtarg) (staticbuf : list ascii) : Prop :=
  (* the constructor *)
  buffer_ok (StackBuffer_new staticbuf (len staticbuf))
  (* Reserve: nothing to do while the bytes fit; otherwise a block of
     max (2 * Capacity) (Pos + n) bytes that holds the bytes appended so
     far; it fails only when the allocator cannot provide that block *)
  /\ (forall (b : StackBuffer) (n : Z),
        buffer_ok b -> 0 <= n < 2 ^ 63 ->
        (Pos b + n <= Capacity b -> Reserve junk b n = Ok b)
        /\ (Capacity b < Pos b + n ->
            Z.max (2 * Capacity b) (Pos b + n) <= PTRDIFF_MAX ->
            returns (fun b' => Pos b' <= Capacity b' /\ buffer_ok b' /\
                               Capacity b' = Z.max (2 * Capacity b) (Pos b + n) /\
                               Pos b' = Pos b /\ contents b' = contents b)
              (Reserve junk b n))
        /\ (Capacity b < Pos b + n ->
            PTRDIFF_MAX < Z.max (2 * Capacity b) (Pos b + n) ->
            Reserve junk b n = Fault BadAlloc))
  (* AddUninitialized: the n bytes behind the cursor are inside the block *)
  /\ (forall (b : StackBuffer) (n : Z),
        buffer_ok b -> 0 <= n < 2 ^ 62 ->
        let after (r : Z * StackBuffer) :=
          fst r = Pos b /\ Pos (snd r) <= Capacity (snd r) /\ buffer_ok (snd r) /\
          Pos (snd r) = Pos b + n /\
          firstn (Z.to_nat (Pos b)) (Buffer (snd r)) = contents b in
        returns_if_allocated after (AddUninitialized junk b n)
        /\ (Z.max (2 * Capacity b) (Pos b + n) <= PTRDIFF_MAX ->
            returns after (AddUninitialized junk b n)))
  (* Add: one more byte behind the bytes appended so far *)
  /\ (forall (b : StackBuffer) (c : ascii),
        buffer_ok b ->
        let after (b' : StackBuffer) :=
          Pos b' <= Capacity b' /\ buffer_ok b' /\ Pos b' = Pos b + 1 /\
          contents b' = contents b ++ [c] in
        returns_if_allocated after (Add junk b c)
        /\ (Z.max (2 * Capacity b) (Pos b + 1) <= PTRDIFF_MAX ->
            returns after (Add junk b c)))
  (* MoveCurrentPos: its assert is the invariant *)
  /\ (forall (b : StackBuffer) (bytes : Z),
        (to_size_t (Pos b + bytes) <= Capacity b ->
         returns (fun b' => Pos b' <= Capacity b' /\ Pos b' = to_size_t (Pos b + bytes) /\
                            Capacity b' = Capacity b /\ Buffer b' = Buffer b)
           (MoveCurrentPos b bytes))
        /\ (Capacity b < to_size_t (Pos b + bytes) ->
            MoveCurrentPos b bytes = Fault AssertionFailed))
  (* MoveCurrentPos as the grow-and-retry loop calls it: of the n bytes
     taken with AddUninitialized, and written to by the writer, w stay *)
  /\ (forall (b : StackBuffer) (n w p : Z) (b1 : StackBuffer) (mem : list ascii),
        buffer_ok b -> 0 <= w <= n -> n < 2 ^ 62 ->
        AddUninitialized junk b n = Ok (p, b1) ->
        len mem = len (Buffer b1) ->
        firstn (Z.to_nat p) mem = firstn (Z.to_nat p) (Buffer b1) ->
        returns (fun b2 => Pos b2 <= Capacity b2 /\ buffer_ok b2 /\ Pos b2 = Pos b + w /\
                           contents b2 =
                             contents b ++ firstn (Z.to_nat w) (skipn (Z.to_nat p) mem))
          (MoveCurrentPos {| Buffer := mem; Pos := Pos b1; Capacity := Capacity b1;
                             OwnBuffer := OwnBuffer b1 |} (to_size_t (w - n))))
  /\ (forall (fuel : nat) (is_q is_Q : bool) (fmt_type : ascii) (arg : fmtarg)
             (argbufsize : Z) (output : StackBuffer) (argbuf : list ascii) (outputSize : Z),
        buffer_ok output -> 0 <= outputSize < 2 ^ 62 ->
        safely (fun r => Pos (fst r) <= Capacity (fst r) /\ buffer_ok (fst r))
          (grow_output junk render cx fuel is_q is_Q fmt_type arg argbufsize output argbuf
             outputSize))
  (* the bulk copy of literal text: it returns, with the characters it has
     passed over behind the bytes appended so far, in the same block *)
  /\ (forall (i : Z) (output : StackBuffer),
        buffer_ok output -> 0 <= i ->
        returns (fun r => Pos (snd r) <= Capacity (snd r) /\ buffer_ok (snd r) /\
                          Capacity (snd r) = Capacity output /\
                          i <= fst r /\ Pos (snd r) = Pos output + (fst r - i) /\
                          contents (snd r) =
                            contents output ++
                            firstn (Z.to_nat (fst r - i)) (skipn (Z.to_nat i) fmt))
          (copy_literal (skipn (Z.to_nat i) fmt) i (to_ssize_t (i + RemainingSpace output))
             output))
  (* the iteration in the literal state: the bulk copy and, when the
     buffer is full, Reserve *)
  /\ (forall (fuel : nat) (st : scanner),
        scanner_ok st -> tokenstart st = -1 ->
        returns_if_allocated
          (fun r => scanner_ok (advance (snd r)) /\
                    Pos (output (snd r)) <= Capacity (output (snd r)))
          (scan_body junk render cx fmt nargs args (len staticbuf) fuel st))
  (* every iteration of the loop, and so every state it is entered in *)
  /\ (forall (fuel : nat) (st : scanner),
        scanner_ok st ->
        safely (fun r => scanner_ok (advance (snd r)))
          (scan_body junk render cx fmt nargs args (len staticbuf) fuel st))
  /\ (forall st : scanner,
        reachable junk render cx fmt nargs args staticbuf st ->
        Pos (output st) <= Capacity (output st))
  (* the call as a whole trips no assert *)
  /\ (forall fuel : nat,
        fmt_core junk render fuel cx fmt nargs args staticbuf (len staticbuf)
          <> Fault AssertionFailed).

(** The decimal representation of an integer, as the Standard Library
    prints it: the digits of the absolute value, most significant first,
    after a '-' when the integer is negative. *)
Definition decimal (v : Z) : list ascii :=
  list_ascii_of_string (NilZero.string_of_int (Z.to_int v)).

Definition is_digit (c : ascii) : bool :=
  (48 <=? Z.of_nat (nat_of_ascii c)) && (Z.of_nat (nat_of_ascii c) <=? 57).

(** The digit [r] in front of the decimal number [d]. *)
Definition dcons (r : Z) (d : Decimal.uint) : Decimal.uint :=
  match r with
  | 0 => Decimal.D0 d
  | 1 => Decimal.D1 d
  | 2 => Decimal.D2 d
  | 3 => Decimal.D3 d
  | 4 => Decimal.D4 d
  | 5 => Decimal.D5 d
  | 6 => Decimal.D6 d
  | 7 => Decimal.D7 d
  | 8 => Decimal.D8 d
  | _ => Decimal.D9 d
  end.

(** The characters of a decimal number. *)
Definition uchars (d : Decimal.uint) : list ascii :=
  list_ascii_of_string (NilEmpty.string_of_uint d).

(** A platform formatter for the worked examples: it knows the conversion
    "%d" of a 32-bit signed cell, and copies the characters behind the
    conversion as [vsnprintf] copies literal text. *)
Definition render_decimal (spec : list ascii) (arg : fmtarg) : option (list ascii) :=
  match spec, arg with
  | "%"%char :: "d"%char :: rest, TI32 v => Some (decimal v ++ rest)
  | _, _ => None
  end.

(** ** Further notions used in the statements *)

(** The array [mem] after [bytes] were stored at [mem[offset]],
    [mem[offset + 1]], ... *)
Definition splice (mem : list ascii) (offset : Z) (bytes : list ascii) : list ascii :=
  firstn (Z.to_nat offset) mem ++ bytes ++ skipn (Z.to_nat (offset + len bytes)) mem.

(** A character of literal text: neither '%' nor the terminator. *)
Definition literal_char (c : ascii) : bool :=
  negb (Ascii.eqb c "%") && negb (is_nul c).

(** The characters of a token without its '*'. *)
Definition without_stars (token : list ascii) : list ascii :=
  filter (fun c => negb (Ascii.eqb c "*")) token.

(** A platform formatter for the worked examples: it answers every
    request with the text "12.5". *)
Definition render_sample : list ascii -> fmtarg -> option (list ascii) :=
  fun _ _ => Some (chars "12.5").

(** What the grow-and-retry loop appends for a writer that, on a
    destination of [size] bytes, stores [bytes size] and returns
    [ret size]: the text of the first attempt that fits, or all that the
    attempt at the first size of 1 MiB or more has stored. *)
Fixpoint retry_text (bytes : Z -> list ascii) (ret : Z -> Z) (fuel : nat) (size : Z)
    : option (list ascii) :=
  match fuel with
  | O => None
  | S fuel' =>
      if (ret size >=? 0) && (ret size <? size)
      then Some (firstn (Z.to_nat (ret size)) (bytes size))
      else if size >=? MaxOutputSize then Some (bytes size)
      else retry_text bytes ret fuel' (size * 2)
  end.

From Stdlib Require HexadecimalString HexadecimalPos.

(** The values of a [TInt]. *)
Definition in_range (t : TInt) (x : Z) : Prop :=
  match t with
  | int32_t => - 2 ^ 31 <= x < 2 ^ 31
  | uint32_t => 0 <= x < 2 ^ 32
  | int64_t => - 2 ^ 63 <= x < 2 ^ 63
  | uint64_t => 0 <= x < 2 ^ 64
  end.

(** The most characters that a value of the type takes in base ten. *)
Definition decimal_width (t : TInt) : Z :=
  match t with
  | int32_t => 11
  | uint32_t => 10
  | int64_t => 20
  | uint64_t => 20
  end.

(** The most characters that a value of the type takes in base sixteen. *)
Definition hex_width (t : TInt) : Z :=
  match t with
  | int32_t | uint32_t => 8
  | int64_t | uint64_t => 16
  end.

(** The capital of a hexadecimal digit: the letters from a to f move to
    the capitals, 32 places down; every other character stays. *)
Definition upper (c : ascii) : ascii :=
  let code := N_of_ascii c in
  if ((97 <=? code) && (code <=? 102))%N then ascii_of_N (code - 32) else c.

(** The characters of a hexadecimal number, in small or in capital
    letters. *)
Definition hchars (upcase : bool) (d : Hexadecimal.uint) : list ascii :=
  let s := list_ascii_of_string (HexadecimalString.NilEmpty.string_of_uint d) in
  if upcase then map upper s else s.

(** The hexadecimal representation of a natural number, as the Standard
    Library prints it, in small or in capital letters. *)
Definition hexadecimal (upcase : bool) (v : Z) : list ascii :=
  let s := list_ascii_of_string
             (HexadecimalString.NilZero.string_of_uint (N.to_hex_uint (Z.to_N v))) in
  if upcase then map upper s else s.

(** The digit [r] in front of the hexadecimal number [d]. *)
Definition hcons (r : Z) (d : Hexadecimal.uint) : Hexadecimal.uint :=
  match r with
  | 0 => Hexadecimal.D0 d
  | 1 => Hexadecimal.D1 d
  | 2 => Hexadecimal.D2 d
  | 3 => Hexadecimal.D3 d
  | 4 => Hexadecimal.D4 d
  | 5 => Hexadecimal.D5 d
  | 6 => Hexadecimal.D6 d
  | 7 => Hexadecimal.D7 d
  | 8 => Hexadecimal.D8 d
  | 9 => Hexadecimal.D9 d
  | 10 => Hexadecimal.Da d
  | 11 => Hexadecimal.Db d
  | 12 => Hexadecimal.Dc d
  | 13 => Hexadecimal.Dd d
  | 14 => Hexadecimal.De d
  | _ => Hexadecimal.Df d
  end.

(** The text that the fast path of [format_int32] (for [wide = false]) or
    of [format_int64] (for [wide = true]) has for a letter, if it has a
    fast path for it: the value in base ten, the value read as unsigned in
    base ten, or the value read as unsigned in base sixteen. *)
Definition fast_text (wide : bool) (letter : ascii) (v : Z) : option (list ascii) :=
  let modulus := if wide then 2 ^ 64 else 2 ^ 32 in
  match letter with
  | "d" | "i" => Some (decimal v)
  | "u" => Some (decimal (v mod modulus))
  | "x" => Some (hexadecimal false (v mod modulus))
  | "X" => Some (hexadecimal true (v mod modulus))
  | _ => None
  end%char.

(** The size of the destination from which on the fast path is taken. *)
Definition fast_budget (wide : bool) (letter : ascii) : Z :=
  match letter with
  | "x" | "X" => if wide then 16 else 8
  | _ => if wide then 20 else 11
  end%char.

(** * Verification *)

(** ** Integer conversions *)

Lemma to_size_t_small (x : Z) : 0 <= x < 2 ^ 64 -> to_size_t x = x.
Proof. intros H. unfold to_size_t. apply Z.mod_small. exact H. Qed.

Lemma to_size_t_range (x : Z) : 0 <= to_size_t x < 2 ^ 64.
Proof. unfold to_size_t. apply Z.mod_pos_bound. lia. Qed.

Lemma to_ssize_t_small (x : Z) : - 2 ^ 63 <= x < 2 ^ 63 -> to_ssize_t x = x.
Proof. intros H. unfold to_ssize_t. rewrite Z.mod_small; lia. Qed.

Lemma to_ssize_t_le (x : Z) : - 2 ^ 63 <= x -> to_ssize_t x <= x.
Proof.
  intros H. unfold to_ssize_t.
  assert (H1 : (x + 2 ^ 63) mod 2 ^ 64 <= x + 2 ^ 63) by (apply Z.mod_le; lia).
  lia.
Qed.

Lemma to_int_small (x : Z) : - 2 ^ 31 <= x < 2 ^ 31 -> to_int x = x.
Proof. intros H. unfold to_int. rewrite Z.mod_small; lia. Qed.

(** Stepping the cursor back by [d]: the [size_t] sum wraps to [p - d]. *)
Lemma size_t_step_back (p d : Z) :
  0 <= p - d < 2 ^ 64 -> to_size_t (p + to_size_t (- d)) = p - d.
Proof.
  intros H. unfold to_size_t.
  rewrite Zplus_mod_idemp_r.
  replace (p + - d) with (p - d) by lia.
  apply Z.mod_small. exact H.
Qed.

(** ** Arrays *)

Lemma len_nonneg {A : Type} (l : list A) : 0 <= len l.
Proof. unfold len. lia. Qed.

Lemma len_app {A : Type} (l1 l2 : list A) : len (l1 ++ l2) = len l1 + len l2.
Proof. unfold len. rewrite length_app. lia. Qed.

Lemma len_cons {A : Type} (x : A) (l : list A) : len (x :: l) = len l + 1.
Proof. unfold len. simpl. lia. Qed.

Lemma len_repeat {A : Type} (x : A) (n : Z) : 0 <= n -> len (repeat x (Z.to_nat n)) = n.
Proof. intros H. unfold len. rewrite repeat_length. lia. Qed.

Lemma len_firstn {A : Type} (n : Z) (l : list A) :
  0 <= n <= len l -> len (firstn (Z.to_nat n) l) = n.
Proof. unfold len. intros H. rewrite length_firstn. lia. Qed.

Lemma len_skipn {A : Type} (n : Z) (l : list A) :
  0 <= n <= len l -> len (skipn (Z.to_nat n) l) = len l - n.
Proof. unfold len. intros H. rewrite length_skipn. lia. Qed.

Lemma firstn_app_exact {A : Type} (n : nat) (l1 l2 : list A) :
  n = List.length l1 -> firstn n (l1 ++ l2) = l1.
Proof.
  intros ->. replace (List.length l1) with (List.length l1 + 0)%nat by lia.
  rewrite firstn_app_2. simpl. apply app_nil_r.
Qed.

Lemma firstn_app_one {A : Type} (n : nat) (l1 l2 : list A) (x : A) :
  n = S (List.length l1) -> firstn n (l1 ++ x :: l2) = l1 ++ [x].
Proof.
  intros ->. replace (S (List.length l1)) with (List.length l1 + 1)%nat by lia.
  rewrite firstn_app_2. reflexivity.
Qed.

Lemma Forall_firstn {A : Type} (P : A -> Prop) (n : nat) (l : list A) :
  Forall P l -> Forall P (firstn n l).
Proof.
  revert n. induction l as [|x l IH]; intros [|n] H; simpl; try constructor.
  - inversion H; assumption.
  - apply IH. inversion H; assumption.
Qed.

Lemma set_nth_length (n : nat) (c : ascii) (a : list ascii) :
  List.length (set_nth n c a) = List.length a.
Proof.
  revert n. induction a as [|x a IH]; intros [|n]; simpl; auto.
Qed.

Lemma set_nth_split (n : nat) (c : ascii) (a : list ascii) :
  (n < List.length a)%nat -> set_nth n c a = firstn n a ++ c :: skipn (S n) a.
Proof.
  revert n. induction a as [|x a IH]; intros [|n] H; simpl in *; try lia; auto.
  f_equal. apply IH. lia.
Qed.

Lemma store_inv (a : list ascii) (i : Z) (c : ascii) (a' : list ascii) :
  store a i c = Ok a' ->
  0 <= i < len a /\ a' = firstn (Z.to_nat i) a ++ c :: skipn (S (Z.to_nat i)) a.
Proof.
  unfold store. destruct (0 <=? i) eqn:H0; destruct (i <? len a) eqn:H1; simpl;
    intros H; inversion H; subst.
  apply Z.leb_le in H0. apply Z.ltb_lt in H1. split; [lia|].
  apply set_nth_split. unfold len in H1. lia.
Qed.

Lemma store_in_bounds (a : list ascii) (i : Z) (c : ascii) :
  0 <= i < len a ->
  store a i c = Ok (firstn (Z.to_nat i) a ++ c :: skipn (S (Z.to_nat i)) a).
Proof.
  intros H. unfold store.
  replace (0 <=? i) with true by (symmetry; apply Z.leb_le; lia).
  replace (i <? len a) with true by (symmetry; apply Z.ltb_lt; lia).
  simpl. f_equal. apply set_nth_split. unfold len in H. lia.
Qed.

Lemma store_out_of_bounds (a : list ascii) (i : Z) (c : ascii) :
  len a <= i -> store a i c = Fault StoreOutOfBounds.
Proof.
  intros H. unfold store.
  replace (i <? len a) with false by (symmetry; apply Z.ltb_ge; lia).
  rewrite andb_false_r. reflexivity.
Qed.

Lemma store_len (a : list ascii) (i : Z) (c : ascii) (a' : list ascii) :
  store a i c = Ok a' -> len a' = len a.
Proof.
  unfold store. destruct ((0 <=? i) && (i <? len a)); intros H; inversion H.
  unfold len. rewrite set_nth_length. reflexivity.
Qed.

Lemma store_all_len (cs : list ascii) (a : list ascii) (i : Z) (a' : list ascii) :
  store_all a i cs = Ok a' -> len a' = len a.
Proof.
  revert a i. induction cs as [|c cs IH]; simpl; intros a i H.
  - inversion H. reflexivity.
  - destruct (store a i c) as [a1| |] eqn:E; simpl in H; try discriminate.
    apply IH in H. apply store_len in E. congruence.
Qed.

(** Storing [cs] at [i] inside the array replaces exactly that stretch. *)
Lemma store_all_in_bounds (cs : list ascii) (a : list ascii) (i : Z) :
  0 <= i -> i + len cs <= len a ->
  store_all a i cs =
    Ok (firstn (Z.to_nat i) a ++ cs ++ skipn (Z.to_nat (i + len cs)) a).
Proof.
  revert a i. induction cs as [|c cs IH]; intros a i Hi Hb.
  - simpl. unfold len; simpl. rewrite Z.add_0_r. rewrite firstn_skipn. reflexivity.
  - rewrite len_cons in Hb. pose proof (len_nonneg cs) as Hc.
    cbn [store_all]. rewrite store_in_bounds by lia. cbn [bind].
    set (a1 := firstn (Z.to_nat i) a ++ c :: skipn (S (Z.to_nat i)) a).
    assert (Hl : len a1 = len a).
    { unfold a1. rewrite len_app, len_firstn, len_cons by lia.
      replace (S (Z.to_nat i)) with (Z.to_nat (i + 1)) by lia.
      rewrite len_skipn by lia. lia. }
    rewrite (IH a1 (i + 1)) by lia. f_equal.
    rewrite len_cons.
    replace (i + (len cs + 1)) with (i + 1 + len cs) by lia.
    assert (H1 : firstn (Z.to_nat (i + 1)) a1 = firstn (Z.to_nat i) a ++ [c]).
    { unfold a1. replace (Z.to_nat (i + 1)) with (List.length (firstn (Z.to_nat i) a) + 1)%nat.
      - rewrite firstn_app_2. reflexivity.
      - rewrite length_firstn. unfold len in *. lia. }
    assert (H2 : skipn (Z.to_nat (i + 1 + len cs)) a1 = skipn (Z.to_nat (i + 1 + len cs)) a).
    { unfold a1.
      replace (Z.to_nat (i + 1 + len cs))
        with (List.length (firstn (Z.to_nat i) a) + (1 + Z.to_nat (len cs)))%nat.
      - rewrite skipn_app.
        rewrite skipn_all2 by lia.
        replace (List.length (firstn (Z.to_nat i) a) + (1 + Z.to_nat (len cs))
                 - List.length (firstn (Z.to_nat i) a))%nat with (S (Z.to_nat (len cs))) by lia.
        rewrite app_nil_l, skipn_cons, skipn_skipn.
        f_equal. rewrite length_firstn. unfold len in *. lia.
      - rewrite length_firstn. unfold len in *. lia. }
    rewrite H1, H2. rewrite <- app_assoc. reflexivity.
Qed.

(** ** StackBuffer *)

Section BufferFacts.

Variable junk : ascii.

Lemma StackBuffer_new_ok (staticbuf : list ascii) :
  len staticbuf <= PTRDIFF_MAX -> buffer_ok (StackBuffer_new staticbuf (len staticbuf)).
Proof.
  intros H. unfold buffer_ok, StackBuffer_new. simpl.
  pose proof (len_nonneg staticbuf). lia.
Qed.

(** [Reserve] in closed form on a buffer that satisfies the invariant. *)
Lemma Reserve_eq (b : StackBuffer) (n : Z) :
  buffer_ok b -> 0 <= n < 2 ^ 63 ->
  Reserve junk b n =
    if Pos b + n >? Capacity b then
      let ncap := Z.max (2 * Capacity b) (Pos b + n) in
      if ncap <=? PTRDIFF_MAX then
        Ok {| Buffer := contents b ++ skipn (Z.to_nat (Pos b)) (repeat junk (Z.to_nat ncap));
              Pos := Pos b; Capacity := ncap; OwnBuffer := true |}
      else Fault BadAlloc
    else Ok b.
Proof.
  intros (Hp & Hc & Hl) Hn. unfold PTRDIFF_MAX in *.
  unfold Reserve. rewrite (to_size_t_small (Pos b + n)) by lia.
  destruct (Pos b + n >? Capacity b) eqn:Hgt; [|reflexivity].
  rewrite (to_size_t_small (Capacity b * 2)) by lia.
  cbv zeta.
  assert (Hmax : (if Capacity b * 2 <? Pos b + n then Pos b + n else Capacity b * 2)
                 = Z.max (2 * Capacity b) (Pos b + n)).
  { destruct (Capacity b * 2 <? Pos b + n) eqn:E.
    - apply Z.ltb_lt in E. lia.
    - apply Z.ltb_ge in E. lia. }
  rewrite Hmax. set (ncap := Z.max (2 * Capacity b) (Pos b + n)).
  unfold new_char. unfold PTRDIFF_MAX.
  destruct (ncap <=? 2 ^ 63 - 1) eqn:Hfit; [|reflexivity].
  cbn [bind]. unfold memcpy.
  assert (Hncap : Pos b <= ncap) by (unfold ncap; lia).
  rewrite len_repeat by lia.
  replace (Pos b <? 0) with false by (symmetry; apply Z.ltb_ge; lia).
  replace (len (Buffer b) <? Pos b) with false by (symmetry; apply Z.ltb_ge; lia).
  replace (ncap <? Pos b) with false by (symmetry; apply Z.ltb_ge; lia).
  reflexivity.
Qed.

Lemma Reserve_ok (b : StackBuffer) (n : Z) (b' : StackBuffer) :
  buffer_ok b -> 0 <= n < 2 ^ 63 -> Reserve junk b n = Ok b' ->
  buffer_ok b' /\ Pos b' = Pos b /\ Pos b + n <= Capacity b' /\
  contents b' = contents b /\
  Capacity b' = (if Pos b + n >? Capacity b
                 then Z.max (2 * Capacity b) (Pos b + n) else Capacity b).
Proof.
  intros Hok Hn. rewrite Reserve_eq by assumption.
  destruct Hok as (Hp & Hc & Hl).
  destruct (Pos b + n >? Capacity b) eqn:Hgt.
  - cbv zeta. set (ncap := Z.max (2 * Capacity b) (Pos b + n)).
    destruct (ncap <=? PTRDIFF_MAX) eqn:Hfit; [|discriminate].
    intros H; inversion H; subst b'; clear H.
    apply Z.leb_le in Hfit.
    assert (Hcl : len (contents b) = Pos b) by (unfold contents; apply len_firstn; lia).
    unfold buffer_ok. unfold contents in *. cbn [Buffer Pos Capacity].
    repeat split; try (unfold ncap; lia).
    + rewrite len_app, Hcl, len_skipn; rewrite ?len_repeat; unfold ncap; lia.
    + apply firstn_app_exact. unfold len in *. lia.
  - intros H; inversion H; subst b'; clear H.
    assert (Pos b + n <= Capacity b) by (destruct (Z.gtb_spec (Pos b + n) (Capacity b)); [discriminate|lia]).
    unfold buffer_ok. repeat split; lia.
Qed.

(** [Reserve] can fail in one way only: the allocator refuses the block. *)
Lemma Reserve_total (b : StackBuffer) (n : Z) :
  buffer_ok b -> 0 <= n < 2 ^ 63 ->
  Reserve junk b n = Fault BadAlloc \/ exists b', Reserve junk b n = Ok b'.
Proof.
  intros Hok Hn. rewrite Reserve_eq by assumption.
  destruct (Pos b + n >? Capacity b); cbv zeta.
  - destruct (_ <=? PTRDIFF_MAX); [right; eexists; reflexivity | left; reflexivity].
  - right; eexists; reflexivity.
Qed.

Lemma AddUninitialized_ok (b : StackBuffer) (n p : Z) (b' : StackBuffer) :
  buffer_ok b -> 0 <= n < 2 ^ 62 -> AddUninitialized junk b n = Ok (p, b') ->
  buffer_ok b' /\ p = Pos b /\ Pos b' = Pos b + n /\
  firstn (Z.to_nat p) (Buffer b') = contents b /\ Capacity b <= Capacity b'.
Proof.
  intros Hok Hn. unfold AddUninitialized.
  destruct (Reserve junk b n) as [b1| |] eqn:E; cbn [bind]; try discriminate.
  apply Reserve_ok in E; [|assumption|lia].
  destruct E as ((Hp & Hc & Hl) & HP & Hroom & Hcont & Hcap).
  intros H; inversion H; subst p b'; clear H.
  unfold buffer_ok. cbn [Buffer Pos Capacity]. unfold PTRDIFF_MAX in *.
  rewrite to_size_t_small by lia.
  split; [lia|]. split; [exact HP|]. split; [lia|]. split.
  - exact Hcont.
  - destruct (Pos b + n >? Capacity b); lia.
Qed.

Lemma AddUninitialized_total (b : StackBuffer) (n : Z) :
  buffer_ok b -> 0 <= n < 2 ^ 62 ->
  AddUninitialized junk b n = Fault BadAlloc \/
  exists p b', AddUninitialized junk b n = Ok (p, b').
Proof.
  intros Hok Hn. unfold AddUninitialized.
  destruct (Reserve_total b n Hok) as [E|[b1 E]]; [lia| |]; rewrite E; cbn [bind].
  - left; reflexivity.
  - right; eexists; eexists; reflexivity.
Qed.

Lemma Add_ok (b : StackBuffer) (c : ascii) (b' : StackBuffer) :
  buffer_ok b -> Add junk b c = Ok b' ->
  buffer_ok b' /\ Pos b' = Pos b + 1 /\ contents b' = contents b ++ [c] /\
  Capacity b <= Capacity b'.
Proof.
  intros Hok. unfold Add.
  destruct (AddUninitialized junk b 1) as [[p b1]| |] eqn:E; cbn [bind]; try discriminate.
  apply AddUninitialized_ok in E; [|assumption|lia].
  destruct E as ((Hp & Hc & Hl) & -> & HP & Hcont & Hcap).
  destruct (store (Buffer b1) (Pos b) c) as [m| |] eqn:Es; cbn [bind]; try discriminate.
  intros H; inversion H; subst b'; clear H.
  pose proof (store_len _ _ _ _ Es) as Hlen.
  apply store_inv in Es. destruct Es as [Hb ->].
  destruct Hok as (Hp0 & _).
  unfold buffer_ok, contents at 1. cbn [Buffer Pos Capacity].
  repeat split; try lia.
  rewrite HP.
  assert (Hfl : List.length (firstn (Z.to_nat (Pos b)) (Buffer b1)) = Z.to_nat (Pos b)).
  { rewrite length_firstn. unfold len in *. lia. }
  rewrite firstn_app_one by lia. rewrite Hcont. reflexivity.
Qed.

Lemma Add_total (b : StackBuffer) (c : ascii) :
  buffer_ok b ->
  Add junk b c = Fault BadAlloc \/ exists b', Add junk b c = Ok b'.
Proof.
  intros Hok. unfold Add.
  destruct (AddUninitialized_total b 1 Hok) as [E|(p & b1 & E)]; [lia| |]; rewrite E; cbn [bind].
  - left; reflexivity.
  - apply AddUninitialized_ok in E; [|assumption|lia].
    destruct E as ((Hp & Hc & Hl) & -> & HP & _).
    destruct Hok as (Hp0 & _).
    rewrite store_in_bounds by lia. cbn [bind].
    right; eexists; reflexivity.
Qed.

(** With room for twice the new size, appending succeeds. *)
Lemma Add_succeeds (b : StackBuffer) (c : ascii) :
  buffer_ok b -> 2 * (Pos b + 1) <= PTRDIFF_MAX ->
  exists b', Add junk b c = Ok b' /\ Capacity b' <= Z.max (Capacity b) (2 * (Pos b + 1)).
Proof.
  intros Hok Hroom. pose proof Hok as (Hp & Hc & Hl).
  unfold Add, AddUninitialized. rewrite Reserve_eq by (assumption || lia).
  unfold PTRDIFF_MAX in *.
  destruct (Pos b + 1 >? Capacity b) eqn:Hgt; cbv zeta.
  - assert (Capacity b < Pos b + 1) by (destruct (Z.gtb_spec (Pos b + 1) (Capacity b)); [lia|discriminate]).
    replace (Z.max (2 * Capacity b) (Pos b + 1) <=? 2 ^ 63 - 1) with true
      by (symmetry; apply Z.leb_le; lia).
    cbn [bind Buffer Pos Capacity OwnBuffer].
    rewrite store_in_bounds.
    + cbn [bind]. eexists; split; [reflexivity|]. cbn [Capacity]. lia.
    + assert (Hr : len (repeat junk (Z.to_nat (Z.max (2 * Capacity b) (Pos b + 1))))
                   = Z.max (2 * Capacity b) (Pos b + 1)) by (apply len_repeat; lia).
      rewrite len_app. unfold contents. rewrite len_firstn by lia.
      rewrite len_skipn by (rewrite Hr; lia). rewrite Hr. lia.
  - assert (Pos b + 1 <= Capacity b) by (destruct (Z.gtb_spec (Pos b + 1) (Capacity b)); [discriminate|lia]).
    cbn [bind Buffer Pos Capacity OwnBuffer]. rewrite store_in_bounds by lia. cbn [bind].
    eexists; split; [reflexivity|]. cbn [Capacity]. lia.
Qed.

Lemma MoveCurrentPos_eq (b : StackBuffer) (d : Z) :
  0 <= Pos b - d <= Capacity b -> Capacity b <= PTRDIFF_MAX ->
  MoveCurrentPos b (to_size_t (- d)) =
    Ok {| Buffer := Buffer b; Pos := Pos b - d; Capacity := Capacity b;
          OwnBuffer := OwnBuffer b |}.
Proof.
  intros H Hc. unfold MoveCurrentPos. unfold PTRDIFF_MAX in Hc.
  rewrite size_t_step_back by lia.
  replace (Pos b - d <=? Capacity b) with true by (symmetry; apply Z.leb_le; lia).
  reflexivity.
Qed.

End BufferFacts.

(** ** Steps that cannot run out of fuel

    Only the two loops that take a [fuel] can end in [NoFuel], and only
    [MoveCurrentPos] has an [assert]; every other step is [quiet]. *)

Lemma bind_quiet {A B : Type} (m : outcome A) (k : A -> outcome B) :
  quiet m -> (forall a, quiet (k a)) -> quiet (bind m k).
Proof. intros Hm Hk. destruct m; cbn [bind]; [apply Hk | exact Hm | exact Hm]. Qed.

Lemma quiet_returns {A : Type} (o : outcome A) : quiet o -> o <> NoFuel.
Proof. intros H E. rewrite E in H. exact H. Qed.

Lemma quiet_no_assert {A : Type} (o : outcome A) : quiet o -> o <> Fault AssertionFailed.
Proof. intros H E. rewrite E in H. apply H. reflexivity. Qed.

Lemma bind_returns {A B : Type} (m : outcome A) (k : A -> outcome B) :
  m <> NoFuel -> (forall a, k a <> NoFuel) -> bind m k <> NoFuel.
Proof.
  intros Hm Hk. destruct m; cbn [bind]; [apply Hk | discriminate | ].
  exfalso. apply Hm. reflexivity.
Qed.

Lemma MoveCurrentPos_returns (b : StackBuffer) (bytes : Z) : MoveCurrentPos b bytes <> NoFuel.
Proof. unfold MoveCurrentPos. destruct (_ <=? _); discriminate. Qed.

Create HintDb quiet.

Ltac quiet :=
  repeat match goal with
    | |- quiet (bind _ _) => apply bind_quiet; [|intros]
    | |- quiet (Ok _) => exact I
    | |- quiet (Fault _) => cbn [quiet]; discriminate
    | |- quiet (if ?c then _ else _) => destruct c
    | |- quiet (match ?x with _ => _ end) => destruct x
    end;
  auto with quiet.

Lemma store_quiet (a : list ascii) (i : Z) (c : ascii) : quiet (store a i c).
Proof. unfold store. quiet. Qed.
#[export] Hint Resolve store_quiet : quiet.

Lemma load_quiet (a : list ascii) (i : Z) : quiet (load a i).
Proof. unfold load. quiet. Qed.
#[export] Hint Resolve load_quiet : quiet.

Lemma store_all_quiet (cs : list ascii) :
  forall (a : list ascii) (i : Z), quiet (store_all a i cs).
Proof. induction cs as [|c cs IH]; intros a i; cbn [store_all]; quiet. Qed.
#[export] Hint Resolve store_all_quiet : quiet.

Lemma memcpy_quiet (dst src : list ascii) (n : Z) : quiet (memcpy dst src n).
Proof. unfold memcpy. quiet. Qed.
#[export] Hint Resolve memcpy_quiet : quiet.

Section Quiet.

Variable junk : ascii.
Variable render : list ascii -> fmtarg -> option (list ascii).

Lemma new_char_quiet (n : Z) : quiet (new_char junk n).
Proof. unfold new_char. quiet. Qed.
Hint Resolve new_char_quiet : quiet.

Lemma Reserve_quiet (b : StackBuffer) (bytes : Z) : quiet (Reserve junk b bytes).
Proof. unfold Reserve. quiet. Qed.
Hint Resolve Reserve_quiet : quiet.

Lemma AddUninitialized_quiet (b : StackBuffer) (bytes : Z) :
  quiet (AddUninitialized junk b bytes).
Proof. unfold AddUninitialized. quiet. Qed.
Hint Resolve AddUninitialized_quiet : quiet.

Lemma Add_quiet (b : StackBuffer) (c : ascii) : quiet (Add junk b c).
Proof. unfold Add. quiet. Qed.
Hint Resolve Add_quiet : quiet.

Lemma fmt_snprintf_quiet (mem : list ascii) (destination count : Z)
    (format_str : list ascii) (arg : fmtarg) :
  quiet (fmt_snprintf render mem destination count format_str arg).
Proof. unfold fmt_snprintf, vsnprintf. quiet. Qed.
Hint Resolve fmt_snprintf_quiet : quiet.

Lemma format_string_copy_quiet (s : list ascii) :
  forall (mem : list ascii) (destination count i : Z),
    quiet (format_string_copy mem destination count i s).
Proof.
  induction s as [|c s IH]; intros mem destination count i; cbn [format_string_copy]; quiet.
Qed.
Hint Resolve format_string_copy_quiet : quiet.

Lemma format_string_quiet (mem : list ascii) (destination count : Z)
    (format_str s : list ascii) :
  quiet (format_string render mem destination count format_str s).
Proof. unfold format_string. quiet. Qed.
Hint Resolve format_string_quiet : quiet.

Lemma format_integer_digits_quiet (room : nat) :
  forall (t : TInt) (upcase : bool) (base value : Z) (buf : list ascii),
    quiet (format_integer_digits room t upcase base value buf).
Proof.
  induction room as [|room IH]; intros t upcase base value buf;
    cbn [format_integer_digits]; quiet.
Qed.
Hint Resolve format_integer_digits_quiet : quiet.

Lemma format_integer_quiet (t : TInt) (tbase : Z) (upcase : bool) (mem : list ascii)
    (destination value : Z) :
  quiet (format_integer t tbase upcase mem destination value).
Proof. unfold format_integer. quiet. Qed.
Hint Resolve format_integer_quiet : quiet.

Lemma format_int32_quiet (mem : list ascii) (destination count : Z)
    (format_str : list ascii) (v : Z) :
  quiet (format_int32 render mem destination count format_str v).
Proof. unfold format_int32. quiet. Qed.
Hint Resolve format_int32_quiet : quiet.

Lemma format_int64_quiet (mem : list ascii) (destination count : Z)
    (format_str : list ascii) (v : Z) :
  quiet (format_int64 render mem destination count format_str v).
Proof. unfold format_int64. quiet. Qed.
Hint Resolve format_int64_quiet : quiet.

Lemma fmt_settype_width_quiet (width : list ascii) :
  forall (argbuf : list ascii) (pos : Z), quiet (fmt_settype_width argbuf pos width).
Proof. induction width as [|c w IH]; intros argbuf pos; cbn [fmt_settype_width]; quiet. Qed.
Hint Resolve fmt_settype_width_quiet : quiet.

Lemma fmt_settype_quiet (argbuf : list ascii) (pos : Z) (width : option (list ascii))
    (type : ascii) :
  quiet (fmt_settype argbuf pos width type).
Proof. unfold fmt_settype. destruct width; quiet. Qed.
Hint Resolve fmt_settype_quiet : quiet.

Lemma fmt_output_with_snprintf_quiet (mem : list ascii) (outbuf : Z) (fmt_type : ascii)
    (argbuf : list ascii) (argbufsize outputSize : Z) (arg : fmtarg) :
  quiet (fmt_output_with_snprintf render mem outbuf fmt_type argbuf argbufsize outputSize arg).
Proof. unfold fmt_output_with_snprintf. destruct arg; quiet. Qed.
Hint Resolve fmt_output_with_snprintf_quiet : quiet.

Lemma call_writer_quiet (cx : context) (is_q is_Q : bool) (fmt_type : ascii)
    (mem : list ascii) (outbuf : Z) (argbuf : list ascii) (argbufsize outputSize : Z)
    (arg : fmtarg) :
  quiet (call_writer render cx is_q is_Q fmt_type mem outbuf argbuf argbufsize outputSize arg).
Proof. unfold call_writer. quiet. Qed.

End Quiet.

#[export] Hint Resolve new_char_quiet Reserve_quiet AddUninitialized_quiet Add_quiet
  fmt_snprintf_quiet format_string_quiet format_integer_quiet format_int32_quiet
  format_int64_quiet fmt_settype_quiet fmt_output_with_snprintf_quiet
  call_writer_quiet : quiet.

(** ** The plain-string encoder *)

Section FormatString.

Variable render : list ascii -> fmtarg -> option (list ascii).

Lemma strlen_nonneg (s : list ascii) : 0 <= strlen s.
Proof. unfold strlen. lia. Qed.

Lemma strlen_cons (c : ascii) (s : list ascii) :
  strlen (c :: s) = if is_nul c then 0 else strlen s + 1.
Proof. unfold strlen. simpl. destruct (is_nul c); lia. Qed.

Lemma c_str_len (s : list ascii) : len (c_str s) = strlen s.
Proof.
  induction s as [|c s IH]; [reflexivity|].
  rewrite strlen_cons. simpl. destruct (is_nul c); [reflexivity|].
  rewrite len_cons. lia.
Qed.

Lemma c_str_no_nul (s : list ascii) : Forall (fun c => is_nul c = false) (c_str s).
Proof.
  induction s as [|c s IH]; simpl; [constructor|].
  destruct (is_nul c) eqn:E; constructor; assumption.
Qed.

(** The first [strlen s] characters of [s] are its C string. *)
Lemma firstn_strlen (s : list ascii) (n : Z) :
  0 <= n <= strlen s -> firstn (Z.to_nat n) s = firstn (Z.to_nat n) (c_str s).
Proof.
  revert n. induction s as [|c s IH]; intros n Hn.
  - reflexivity.
  - rewrite strlen_cons in Hn. simpl. destruct (is_nul c).
    + replace n with 0 by lia. reflexivity.
    + destruct (Z.to_nat n) as [|k] eqn:Ek; [reflexivity|].
      simpl. f_equal. replace k with (Z.to_nat (n - 1)) by lia.
      apply IH. lia.
Qed.

(** Out of budget before the terminator: the budget is used up and the
    result is -1. *)
Lemma format_string_copy_short (destination count : Z) (s : list ascii) :
  forall (mem : list ascii) (i : Z),
    0 <= count - i <= strlen s ->
    format_string_copy mem destination count i s =
      (m <- store_all mem (destination + i) (firstn (Z.to_nat (count - i)) s) ;; Ok (m, -1)).
Proof.
  induction s as [|c s IH]; intros mem i H.
  - unfold strlen in H; simpl in H. replace (count - i) with 0 by lia.
    simpl. replace (i <? count) with false by (symmetry; apply Z.ltb_ge; lia).
    reflexivity.
  - rewrite strlen_cons in H. cbn [format_string_copy].
    destruct (i <? count) eqn:Hlt.
    + apply Z.ltb_lt in Hlt. destruct (is_nul c); [lia|].
      replace (Z.to_nat (count - i)) with (S (Z.to_nat (count - (i + 1)))) by lia.
      cbn [firstn store_all].
      destruct (store mem (destination + i) c) as [m1| |]; cbn [bind]; try reflexivity.
      rewrite IH by lia. replace (destination + (i + 1)) with (destination + i + 1) by lia.
      reflexivity.
    + apply Z.ltb_ge in Hlt. replace (count - i) with 0 by lia. reflexivity.
Qed.

(** The terminator comes within the budget: the whole string is copied
    and its length returned. *)
Lemma format_string_copy_fits (destination count : Z) (s : list ascii) :
  forall (mem : list ascii) (i : Z),
    strlen s < count - i ->
    format_string_copy mem destination count i s =
      (m <- store_all mem (destination + i) (c_str s) ;; Ok (m, to_int (i + strlen s))).
Proof.
  induction s as [|c s IH]; intros mem i H.
  - unfold strlen in *; simpl in *.
    replace (i <? count) with true by (symmetry; apply Z.ltb_lt; lia).
    rewrite Z.add_0_r. reflexivity.
  - rewrite strlen_cons in *. cbn [format_string_copy c_str].
    pose proof (strlen_nonneg s).
    destruct (is_nul c) eqn:Hc.
    + replace (i <? count) with true by (symmetry; apply Z.ltb_lt; lia).
      rewrite Z.add_0_r. reflexivity.
    + replace (i <? count) with true by (symmetry; apply Z.ltb_lt; lia).
      cbn [store_all].
      destruct (store mem (destination + i) c) as [m1| |]; cbn [bind]; try reflexivity.
      rewrite IH by lia. replace (destination + (i + 1)) with (destination + i + 1) by lia.
      replace (i + 1 + strlen s) with (i + (strlen s + 1)) by lia.
      reflexivity.
Qed.

Lemma format_string_percent_s (mem : list ascii) (destination count : Z)
    (format_str s : list ascii) :
  char_at format_str 0 = "%"%char -> char_at format_str 1 = "s"%char ->
  format_string render mem destination count format_str s =
    format_string_copy mem destination count 0 s.
Proof. intros H0 H1. unfold format_string. rewrite H0, H1. reflexivity. Qed.

End FormatString.

(** C4 (as amended). When the source string with its terminator does not fit
    in [count] bytes, the plain-string encoder ([format_string] on a
    specifier that starts with "%s") returns -1 and stores no NUL, but it
    does store partial output: the first [count] characters of [s] replace
    [destination[0 .. count-1]], and no byte outside that stretch changes. *)
Theorem format_string_not_enough_space :
  forall (render : list ascii -> fmtarg -> option (list ascii))
         (mem : list ascii) (destination count : Z) (format_str s : list ascii),
    char_at format_str 0 = "%"%char -> char_at format_str 1 = "s"%char ->
    0 <= destination -> 0 <= count -> destination + count <= len mem ->
    count <= strlen s ->
    format_string render mem destination count format_str s =
      Ok (firstn (Z.to_nat destination) mem ++ firstn (Z.to_nat count) s ++
          skipn (Z.to_nat (destination + count)) mem, -1)
    /\ Forall (fun c => is_nul c = false) (firstn (Z.to_nat count) s)
    /\ len (firstn (Z.to_nat count) s) = count.
Proof.
  intros render mem destination count format_str s H0 H1 Hd Hc Hroom Hshort.
  assert (Hlen : len (firstn (Z.to_nat count) s) = count).
  { rewrite firstn_strlen by lia. apply len_firstn. rewrite c_str_len. lia. }
  split; [|split].
  - rewrite format_string_percent_s by assumption.
    rewrite format_string_copy_short by lia.
    rewrite Z.add_0_r, Z.sub_0_r.
    rewrite store_all_in_bounds by lia.
    rewrite Hlen. reflexivity.
  - rewrite firstn_strlen by lia. apply Forall_firstn. apply c_str_no_nul.
  - exact Hlen.
Qed.

Lemma format_string_not_enough_space_witness :
  format_string render_nothing (chars "xy") 0 2 (chars "%s") (chars "abc")
    = Ok (chars "ab", -1)
  /\ Forall (fun c => is_nul c = false) (chars "ab")
  /\ len (chars "ab") = 2.
Proof.
  apply (format_string_not_enough_space render_nothing (chars "xy") 0 2 (chars "%s") (chars "abc"));
    try reflexivity; vm_compute; discriminate.
Defined.

(** C4 as stated fails: with a budget of two bytes and the source "abc" the
    encoder returns -1 after it has overwritten both bytes of the
    destination. *)
Lemma format_string_partial_output :
  format_string render_nothing (chars "xyz") 0 2 (chars "%s") (chars "abc")
    = Ok (chars "abz", -1)
  /\ chars "abz" <> chars "xyz".
Proof. split; [reflexivity | discriminate]. Qed.

(** ** The zero-argument path of [fmt_core] *)

(** The path in closed form: which block it picks and how many bytes it
    copies there. *)
Lemma fmt_core_noargs_eq (junk : ascii) (render : list ascii -> fmtarg -> option (list ascii))
    (fuel : nat) (cx : context) (fmt : list ascii) (args : list fmtarg)
    (staticbuf : list ascii) (staticbuf_size : Z) :
  fmt_core junk render fuel cx fmt 0 args staticbuf staticbuf_size =
    if negb (staticbuf_size =? 0) && (strlen fmt <=? to_size_t (staticbuf_size + 1)) then
      m <- memcpy staticbuf (c_str fmt ++ [NUL]) (strlen fmt + 1) ;;
      Ok {| Str := m; Len := strlen fmt; Str_block := StaticBuf |}
    else
      r <- new_char junk (strlen fmt + 1) ;;
      m <- memcpy r (c_str fmt ++ [NUL]) (strlen fmt + 1) ;;
      Ok {| Str := m; Len := strlen fmt; Str_block := HeapBlock |}.
Proof. reflexivity. Qed.

(** Whenever the format string is as long as [staticbuf], or one longer,
    the copy of [len + 1] bytes runs past the end of [staticbuf]. *)
Lemma fmt_core_noargs_overrun (junk : ascii)
    (render : list ascii -> fmtarg -> option (list ascii))
    (fuel : nat) (cx : context) (fmt : list ascii) (args : list fmtarg)
    (staticbuf : list ascii) :
  0 < len staticbuf < 2 ^ 64 - 1 ->
  len staticbuf <= strlen fmt <= len staticbuf + 1 ->
  fmt_core junk render fuel cx fmt 0 args staticbuf (len staticbuf) = Fault StoreOutOfBounds.
Proof.
  intros Hs Hl. rewrite fmt_core_noargs_eq.
  rewrite to_size_t_small by lia.
  replace (len staticbuf =? 0) with false by (symmetry; apply Z.eqb_neq; lia).
  replace (strlen fmt <=? len staticbuf + 1) with true by (symmetry; apply Z.leb_le; lia).
  cbn [negb andb]. unfold memcpy.
  replace (strlen fmt + 1 <? 0) with false by (symmetry; apply Z.ltb_ge; lia).
  rewrite len_app, c_str_len. change (len [NUL]) with 1.
  replace (strlen fmt + 1 <? strlen fmt + 1) with false by (symmetry; apply Z.ltb_ge; lia).
  replace (len staticbuf <? strlen fmt + 1) with true by (symmetry; apply Z.ltb_lt; lia).
  reflexivity.
Qed.

(** C2 (the code at the failing inputs). With no arguments, the format
    string "abc" and a [staticbuf] of three bytes, or of two, [fmt_core]
    takes the [staticbuf] branch and its [memcpy] of four bytes runs past
    the end of the region; one byte more of room and the copy fits. *)
Theorem fmt_core_noargs_writes_past_staticbuf :
  forall (junk : ascii) (render : list ascii -> fmtarg -> option (list ascii))
         (fuel : nat) (cx : context) (args : list fmtarg),
    fmt_core junk render fuel cx (chars "abc") 0 args (repeat junk 3) 3
      = Fault StoreOutOfBounds
    /\ fmt_core junk render fuel cx (chars "abc") 0 args (repeat junk 2) 2
      = Fault StoreOutOfBounds
    /\ fmt_core junk render fuel cx (chars "abc") 0 args (repeat junk 4) 4
      = Ok {| Str := chars "abc" ++ [NUL]; Len := 3; Str_block := StaticBuf |}.
Proof. intros. repeat split. Qed.

(** ** [fmt_settype] *)

Lemma store_all_app (cs1 cs2 : list ascii) :
  forall (a : list ascii) (i : Z),
    store_all a i (cs1 ++ cs2) =
      (a' <- store_all a i cs1 ;; store_all a' (i + len cs1) cs2).
Proof.
  induction cs1 as [|c cs1 IH]; intros a i.
  - simpl. change (len []) with 0. rewrite Z.add_0_r. reflexivity.
  - cbn [app store_all]. destruct (store a i c) as [a1| |]; cbn [bind]; try reflexivity.
    rewrite IH. rewrite len_cons.
    replace (i + 1 + len cs1) with (i + (len cs1 + 1)) by lia. reflexivity.
Qed.

Lemma store_all_out_of_bounds (cs : list ascii) :
  forall (a : list ascii) (i : Z),
    0 <= i <= len a -> len a < i + len cs -> store_all a i cs = Fault StoreOutOfBounds.
Proof.
  induction cs as [|c cs IH]; intros a i Hi Hb.
  - change (len []) with 0 in Hb. lia.
  - rewrite len_cons in Hb. cbn [store_all].
    destruct (Z.lt_ge_cases i (len a)) as [Hin|Hout].
    + rewrite store_in_bounds by lia. cbn [bind].
      assert (Hl : len (firstn (Z.to_nat i) a ++ c :: skipn (S (Z.to_nat i)) a) = len a).
      { rewrite len_app, len_firstn, len_cons by lia.
        replace (S (Z.to_nat i)) with (Z.to_nat (i + 1)) by lia.
        rewrite len_skipn by lia. lia. }
      apply IH; [lia|].
      rewrite len_app, len_firstn, len_cons by lia.
      replace (S (Z.to_nat i)) with (Z.to_nat (i + 1)) by lia.
      rewrite len_skipn by lia. lia.
    + rewrite store_out_of_bounds by lia. reflexivity.
Qed.

Lemma fmt_settype_width_eq (width : list ascii) :
  forall (argbuf : list ascii) (pos : Z),
    fmt_settype_width argbuf pos width =
      (a <- store_all argbuf pos width ;; Ok (a, pos + len width)).
Proof.
  induction width as [|c width IH]; intros argbuf pos.
  - simpl. change (len []) with 0. rewrite Z.add_0_r. reflexivity.
  - cbn [fmt_settype_width store_all].
    destruct (store argbuf pos c) as [a1| |]; cbn [bind]; try reflexivity.
    rewrite IH. rewrite len_cons.
    replace (pos + 1 + len width) with (pos + (len width + 1)) by lia. reflexivity.
Qed.

Lemma length_modifier_match (A : Type) (c : ascii) (x y : A) :
  match c with
  | "l"%char | "h"%char | "w"%char => x
  | _ => y
  end = if length_modifier c then x else y.
Proof.
  destruct c as [b0 b1 b2 b3 b4 b5 b6 b7].
  destruct b0, b1, b2, b3, b4, b5, b6, b7; reflexivity.
Qed.

(** With a width, [fmt_settype] stores the width, the type letter and a
    NUL from [settype_start] on. *)
Lemma fmt_settype_width_stores (argbuf : list ascii) (pos : Z) (width : list ascii)
    (type : ascii) :
  1 <= pos <= len argbuf -> len argbuf < 2 ^ 63 ->
  fmt_settype argbuf pos (Some width) type =
    store_all argbuf (settype_start argbuf pos) (width ++ [type; NUL]).
Proof.
  intros Hpos Hlen. unfold fmt_settype, settype_start.
  rewrite to_size_t_small by lia.
  unfold load.
  replace (0 <=? pos - 1) with true by (symmetry; apply Z.leb_le; lia).
  replace (pos - 1 <? len argbuf) with true by (symmetry; apply Z.ltb_lt; lia).
  cbn [andb bind]. rewrite length_modifier_match.
  set (start := if length_modifier _ then pos - 1 else pos).
  rewrite fmt_settype_width_eq, store_all_app.
  destruct (store_all argbuf start width) as [a1| |]; cbn [bind store_all]; try reflexivity.
  destruct (store a1 (start + len width) type) as [a2| |]; cbn [bind]; try reflexivity.
  destruct (store a2 (start + len width + 1) NUL); reflexivity.
Qed.

Lemma fmt_settype_plain_stores (argbuf : list ascii) (pos : Z) (type : ascii) :
  fmt_settype argbuf pos None type = store_all argbuf pos [type; NUL].
Proof.
  unfold fmt_settype. cbn [store_all].
  destruct (store argbuf pos type) as [a1| |]; cbn [bind]; try reflexivity.
  destruct (store a1 (pos + 1) NUL); reflexivity.
Qed.

Lemma settype_start_range (argbuf : list ascii) (pos : Z) :
  pos - 1 <= settype_start argbuf pos <= pos.
Proof. unfold settype_start. destruct (length_modifier _); lia. Qed.

(** The stores of [fmt_settype] leave the sixteen cells of [argbuf]
    exactly when [settype_start + |width| + 2] exceeds sixteen. *)
Lemma fmt_settype_overruns (argbuf : list ascii) (pos : Z) (width : list ascii)
    (type : ascii) :
  len argbuf = argbuf_arraysize -> 1 <= pos <= argbuf_arraysize ->
  argbuf_arraysize < settype_start argbuf pos + len width + 2 ->
  fmt_settype argbuf pos (Some width) type = Fault StoreOutOfBounds.
Proof.
  unfold argbuf_arraysize. intros Hlen Hpos Hover.
  rewrite fmt_settype_width_stores by lia.
  pose proof (settype_start_range argbuf pos).
  apply store_all_out_of_bounds; [lia|].
  rewrite len_app. change (len [type; NUL]) with 2. lia.
Qed.

Lemma fmt_settype_in_bounds (argbuf : list ascii) (pos : Z) (width : list ascii)
    (type : ascii) :
  len argbuf = argbuf_arraysize -> 1 <= pos <= argbuf_arraysize ->
  settype_start argbuf pos + len width + 2 <= argbuf_arraysize ->
  fmt_settype argbuf pos (Some width) type =
    Ok (firstn (Z.to_nat (settype_start argbuf pos)) argbuf ++ (width ++ [type; NUL]) ++
        skipn (Z.to_nat (settype_start argbuf pos + len (width ++ [type; NUL]))) argbuf).
Proof.
  unfold argbuf_arraysize. intros Hlen Hpos Hfit.
  rewrite fmt_settype_width_stores by lia.
  pose proof (settype_start_range argbuf pos).
  apply store_all_in_bounds; [lia|].
  rewrite len_app. change (len [type; NUL]) with 2. lia.
Qed.

Lemma fmt_settype_plain_in_bounds (argbuf : list ascii) (pos : Z) (type : ascii) :
  0 <= pos -> pos + 2 <= len argbuf ->
  fmt_settype argbuf pos None type =
    Ok (firstn (Z.to_nat pos) argbuf ++ [type; NUL] ++ skipn (Z.to_nat (pos + 2)) argbuf).
Proof.
  intros Hpos Hfit. rewrite fmt_settype_plain_stores.
  apply store_all_in_bounds; [lia|]. change (len [type; NUL]) with 2. lia.
Qed.

(** ** The scratch buffer [argbuf] *)

(** An accepted specifier leaves at most fourteen characters in [argbuf];
    a type letter alone, or one with an empty width, then fits. *)
Lemma fmt_settype_empty_width_fits (argbuf : list ascii) (pos : Z) (type : ascii) :
  len argbuf = argbuf_arraysize -> 1 <= pos <= argbuf_arraysize - 2 ->
  exists argbuf', fmt_settype argbuf pos (Some []) type = Ok argbuf'
                  /\ len argbuf' = argbuf_arraysize.
Proof.
  intros Hlen Hpos. pose proof (settype_start_range argbuf pos) as Hs.
  unfold argbuf_arraysize in *.
  assert (E : exists a, fmt_settype argbuf pos (Some []) type = Ok a).
  { eexists. apply fmt_settype_in_bounds; unfold argbuf_arraysize;
      change (len (@nil ascii)) with 0; lia. }
  destruct E as [a E]. exists a. split; [exact E|].
  rewrite fmt_settype_width_stores in E by lia.
  apply store_all_len in E. lia.
Qed.

Lemma fmt_settype_plain_fits (argbuf : list ascii) (pos : Z) (type : ascii) :
  len argbuf = argbuf_arraysize -> 1 <= pos <= argbuf_arraysize - 2 ->
  exists argbuf', fmt_settype argbuf pos None type = Ok argbuf'
                  /\ len argbuf' = argbuf_arraysize.
Proof.
  intros Hlen Hpos. unfold argbuf_arraysize in *.
  assert (E : exists a, fmt_settype argbuf pos None type = Ok a).
  { eexists. apply fmt_settype_plain_in_bounds; lia. }
  destruct E as [a E]. exists a. split; [exact E|].
  rewrite fmt_settype_plain_stores in E.
  apply store_all_len in E. lia.
Qed.

(** With the 64-bit prefix "ll", fourteen characters in [argbuf] are two
    too many, whatever they are. *)
Lemma fmt_settype_i64_overruns (argbuf : list ascii) (type : ascii) :
  len argbuf = argbuf_arraysize ->
  fmt_settype argbuf 14 (Some i64Prefix) type = Fault StoreOutOfBounds.
Proof.
  intros Hlen. pose proof (settype_start_range argbuf 14).
  apply fmt_settype_overruns; unfold argbuf_arraysize in *; try lia.
  change (len i64Prefix) with 2. lia.
Qed.

(** C1 (the code at the failing inputs). A specifier of fifteen characters
    is accepted ([i - tokenstart] is 14), its first fourteen characters are
    copied to [argbuf], and for a 64-bit cell [fmt_settype] then stores
    "ll", the type letter and the NUL at [argbuf[14 .. 17]], past the
    sixteen cells; a wide-string cell overruns by one. A specifier of
    sixteen characters is copied to the output as literal text. *)
Theorem argbuf_overrun_on_long_specifier :
  forall (junk : ascii) (render : list ascii -> fmtarg -> option (list ascii)) (k : nat),
    fmt junk render (15 + k) (chars "%0000000000000d") [TI64 5] = Fault StoreOutOfBounds
    /\ fmt junk render (15 + k) (chars "%0000000000000s") [TWStr [65]]
       = Fault StoreOutOfBounds
    /\ fmt junk render (17 + k) (chars "%00000000000000d") [TI64 5]
       = Ok (chars "%00000000000000d").
Proof. intros. repeat split. Qed.

(** ** The grow-and-retry loop *)

Section GrowOutput.

Variable junk : ascii.
Variable render : list ascii -> fmtarg -> option (list ascii).
Variable cx : context.

(** A destination of size zero is never enough, so [outputSize] stays at
    zero: no amount of fuel lets the loop return. *)
Lemma grow_output_zero_never_returns (fuel : nat) :
  forall (is_q is_Q : bool) (fmt_type : ascii) (arg : fmtarg) (argbufsize : Z)
         (output : StackBuffer) (argbuf : list ascii) (r : StackBuffer * list ascii),
    grow_output junk render cx fuel is_q is_Q fmt_type arg argbufsize output argbuf 0 <> Ok r.
Proof.
  induction fuel as [|fuel IH]; intros is_q is_Q fmt_type arg argbufsize output argbuf r.
  - discriminate.
  - cbn [grow_output].
    destruct (AddUninitialized junk output (to_size_t 0)) as [[outbuf output1]| |];
      cbn [bind]; try discriminate.
    destruct (call_writer render cx is_q is_Q fmt_type (Buffer output1) outbuf argbuf
                argbufsize 0 arg) as [[[mem argbuf1] written]| |]; cbn [bind]; try discriminate.
    replace ((written >=? 0) && (written <? 0)) with false
      by (destruct (Z.geb_spec written 0); destruct (Z.ltb_spec written 0);
          simpl; try reflexivity; lia).
    change (0 >=? MaxOutputSize) with false. cbv iota.
    destruct (MoveCurrentPos _ _) as [output2| |]; cbn [bind]; try discriminate.
    change (to_ssize_t (0 * 2)) with 0. apply IH.
Qed.

(** From a destination of at least one byte the size reaches the ceiling
    after at most twenty doublings: the loop ends, with a result or with a
    fault of one of its steps. *)
Lemma grow_output_terminates (fuel : nat) :
  forall (is_q is_Q : bool) (fmt_type : ascii) (arg : fmtarg) (argbufsize : Z)
         (output : StackBuffer) (argbuf : list ascii) (outputSize : Z),
    0 < outputSize < 2 ^ 62 ->
    (0 < fuel)%nat ->
    MaxOutputSize <= outputSize * 2 ^ (Z.of_nat fuel - 1) ->
    grow_output junk render cx fuel is_q is_Q fmt_type arg argbufsize output argbuf outputSize
      <> NoFuel.
Proof.
  induction fuel as [|fuel IH];
    intros is_q is_Q fmt_type arg argbufsize output argbuf outputSize Hsize Hfuel Hreach.
  - lia.
  - cbn [grow_output].
    apply bind_returns; [apply quiet_returns; auto with quiet|]. intros [outbuf output1].
    apply bind_returns; [apply quiet_returns; auto with quiet|].
    intros [[mem argbuf1] written].
    destruct ((written >=? 0) && (written <? outputSize)); cbv iota.
    + apply bind_returns; [apply MoveCurrentPos_returns|]. intros; discriminate.
    + destruct (outputSize >=? MaxOutputSize) eqn:Hmax; cbv iota; [discriminate|].
      apply bind_returns; [apply MoveCurrentPos_returns|]. intros output2.
      assert (Hlt : outputSize < MaxOutputSize)
        by (destruct (Z.geb_spec outputSize MaxOutputSize); [discriminate|lia]).
      unfold MaxOutputSize in *.
      rewrite to_ssize_t_small by lia.
      assert (Hpos : (0 < fuel)%nat).
      { destruct fuel; [|lia]. simpl in Hreach. lia. }
      apply IH; [lia|exact Hpos|].
      replace (Z.of_nat (S fuel) - 1) with (Z.succ (Z.of_nat fuel - 1)) in Hreach by lia.
      rewrite Z.pow_succ_r in Hreach by lia. lia.
Qed.

Lemma fmt_snprintf_no_room (mem : list ascii) (destination : Z) (format_str : list ascii)
    (arg : fmtarg) :
  fmt_snprintf render mem destination 0 format_str arg = Ok (mem, -1).
Proof.
  unfold fmt_snprintf, vsnprintf.
  destruct (render (c_str format_str) arg) as [text|]; [|reflexivity].
  cbn [Z.eqb bind]. unfold fmt_translate_snprintf_return_value.
  replace (to_size_t (if len text <=? INT_MAX then len text else -1) >=? 0) with true.
  - rewrite orb_true_r. reflexivity.
  - symmetry. pose proof (to_size_t_range (if len text <=? INT_MAX then len text else -1)).
    destruct (Z.geb_spec (to_size_t (if len text <=? INT_MAX then len text else -1)) 0);
      [reflexivity|lia].
Qed.

(** Below eight bytes of budget every 32-bit specifier takes the general
    path. *)
Lemma format_int32_small_budget (mem : list ascii) (destination count : Z)
    (format_str : list ascii) (v : Z) :
  count < 8 ->
  format_int32 render mem destination count format_str v =
    fmt_snprintf render mem destination count format_str (TI32 v).
Proof.
  intros H. unfold format_int32.
  replace (count >=? 11) with false
    by (symmetry; destruct (Z.geb_spec count 11); [lia|reflexivity]).
  replace (count >=? 8) with false
    by (symmetry; destruct (Z.geb_spec count 8); [lia|reflexivity]).
  destruct (char_at format_str 1) as [b0 b1 b2 b3 b4 b5 b6 b7].
  destruct b0, b1, b2, b3, b4, b5, b6, b7; reflexivity.
Qed.

End GrowOutput.

(** ** The scanner, one arm at a time *)

Lemma skipn_char_at (fmt : list ascii) (i : Z) :
  0 <= i -> char_at fmt i <> NUL ->
  skipn (Z.to_nat i) fmt = char_at fmt i :: skipn (S (Z.to_nat i)) fmt.
Proof.
  intros Hi. unfold char_at.
  replace (i <? 0) with false by (symmetry; apply Z.ltb_ge; lia).
  generalize (Z.to_nat i) as n. clear i Hi.
  induction fmt as [|c fmt IH]; intros [|n] H; simpl in *; try congruence.
  apply IH. exact H.
Qed.

Lemma chars_from_slice (fmt : list ascii) (n : nat) :
  forall j : Z,
    0 <= j -> j + Z.of_nat n <= len fmt ->
    chars_from fmt j n = firstn n (skipn (Z.to_nat j) fmt).
Proof.
  induction n as [|n IH]; intros j Hj Hb; [reflexivity|].
  cbn [chars_from]. rewrite IH by lia.
  assert (Hnth : skipn (Z.to_nat j) fmt = char_at fmt j :: skipn (S (Z.to_nat j)) fmt).
  { unfold char_at. replace (j <? 0) with false by (symmetry; apply Z.ltb_ge; lia).
    assert (Hlt : (Z.to_nat j < List.length fmt)%nat) by (unfold len in Hb; lia).
    revert Hlt. generalize (Z.to_nat j) as k. clear.
    induction fmt as [|c fmt IH]; intros [|k] H; simpl in *; try lia; auto.
    apply IH. lia. }
  rewrite Hnth. cbn [firstn]. f_equal. f_equal. f_equal. lia.
Qed.

Section ScanFacts.

Variable junk : ascii.
Variable render : list ascii -> fmtarg -> option (list ascii).
Variable cx : context.
Variable fmt : list ascii.
Variable nargs : Z.
Variable args : list fmtarg.
Variable staticbuf_size : Z.

(** Copying a token to the output appends its characters. *)
Lemma add_token_ok (n : nat) :
  forall (j : Z) (output output' : StackBuffer),
    buffer_ok output ->
    add_token junk fmt n j output = Ok output' ->
    buffer_ok output' /\ contents output' = contents output ++ chars_from fmt j n /\
    Pos output' = Pos output + Z.of_nat n.
Proof.
  induction n as [|n IH]; intros j output output' Hok H.
  - inversion H; subst. cbn [chars_from]. rewrite app_nil_r.
    split; [assumption|]. split; [reflexivity|]. lia.
  - cbn [add_token] in H.
    destruct (Add junk output (char_at fmt j)) as [output1| |] eqn:E; cbn [bind] in H;
      try discriminate.
    apply Add_ok in E; [|assumption]. destruct E as (Hok1 & HP1 & Hc1 & _).
    apply IH in H; [|assumption]. destruct H as (Hok' & Hc' & HP').
    split; [assumption|]. split.
    + rewrite Hc', Hc1. cbn [chars_from]. rewrite <- app_assoc. reflexivity.
    + lia.
Qed.

Lemma add_token_succeeds (n : nat) :
  forall (j : Z) (output : StackBuffer),
    buffer_ok output -> 2 * (Pos output + Z.of_nat n) <= PTRDIFF_MAX ->
    exists output', add_token junk fmt n j output = Ok output'.
Proof.
  induction n as [|n IH]; intros j output Hok Hroom.
  - eexists; reflexivity.
  - cbn [add_token].
    destruct (Add_succeeds junk output (char_at fmt j) Hok) as (output1 & E & _); [lia|].
    rewrite E. cbn [bind].
    apply Add_ok in E; [|assumption]. destruct E as (Hok1 & HP1 & _).
    apply IH; [assumption|lia].
Qed.

Lemma add_token_total (n : nat) :
  forall (j : Z) (output : StackBuffer),
    buffer_ok output ->
    add_token junk fmt n j output = Fault BadAlloc \/
    exists output', add_token junk fmt n j output = Ok output'.
Proof.
  induction n as [|n IH]; intros j output Hok.
  - right; eexists; reflexivity.
  - cbn [add_token].
    destruct (Add_total junk output (char_at fmt j) Hok) as [E|[output1 E]]; rewrite E; cbn [bind].
    + left; reflexivity.
    + apply Add_ok in E; [|assumption]. apply IH. apply E.
Qed.

(** Leaving the literal state: at a '%' nothing is copied and the token
    starts. *)
Lemma scan_body_enters_token (fuel : nat) (st : scanner) :
  tokenstart st = -1 -> 0 <= at_i st -> char_at fmt (at_i st) = "%"%char ->
  scan_body junk render cx fmt nargs args staticbuf_size fuel st =
    Ok (false, {| at_i := at_i st; tokenstart := at_i st; iarg := iarg st;
                  output := output st; argbuf := argbuf st |}).
Proof.
  intros Hts Hi Hc. unfold scan_body. rewrite Hts. cbn [Z.eqb negb].
  cbv iota.
  rewrite skipn_char_at by (try rewrite Hc; try discriminate; lia).
  rewrite Hc. cbn [copy_literal].
  change (Ascii.eqb "%" "%") with true. cbn [negb]. rewrite andb_false_r. cbn [andb bind].
  cbv iota beta. rewrite Hc. reflexivity.
Qed.

(** Inside a token, a character of the default arm changes nothing. *)
Lemma scan_body_default_arm (fuel : nat) (st : scanner) :
  tokenstart st <> -1 -> switch_arm (char_at fmt (at_i st)) = Default ->
  scan_body junk render cx fmt nargs args staticbuf_size fuel st = Ok (false, st).
Proof.
  intros Hts Harm. unfold scan_body.
  replace (tokenstart st =? -1) with false by (symmetry; apply Z.eqb_neq; exact Hts).
  cbn [negb]. cbv iota. rewrite Harm. reflexivity.
Qed.

(** Inside a token, '%' ends the token with a single '%' in the output. *)
Lemma scan_body_percent_arm (fuel : nat) (st : scanner) :
  tokenstart st <> -1 -> char_at fmt (at_i st) = "%"%char ->
  scan_body junk render cx fmt nargs args staticbuf_size fuel st =
    (output <- Add junk (output st) "%"%char ;;
     Ok (false, {| at_i := at_i st; tokenstart := -1; iarg := iarg st;
                   output := output; argbuf := argbuf st |})).
Proof.
  intros Hts Hc. unfold scan_body.
  replace (tokenstart st =? -1) with false by (symmetry; apply Z.eqb_neq; exact Hts).
  cbn [negb]. cbv iota. rewrite Hc. reflexivity.
Qed.

(** Inside a token, the terminator 'n' copies the token to the output. *)
Lemma scan_body_n_arm (fuel : nat) (st : scanner) :
  tokenstart st <> -1 -> char_at fmt (at_i st) = "n"%char ->
  scan_body junk render cx fmt nargs args staticbuf_size fuel st =
    (output <- add_token junk fmt (Z.to_nat (at_i st - tokenstart st + 1)) (tokenstart st)
                 (output st) ;;
     Ok (false, {| at_i := at_i st; tokenstart := -1; iarg := iarg st;
                   output := output; argbuf := argbuf st |})).
Proof.
  intros Hts Hc. unfold scan_body.
  replace (tokenstart st =? -1) with false by (symmetry; apply Z.eqb_neq; exact Hts).
  cbn [negb]. cbv iota. rewrite Hc.
  change (switch_arm "n") with Terminator. cbv iota.
  change (Ascii.eqb "n" "n") with true.
  change (Ascii.eqb "n" "q") with false.
  change (Ascii.eqb "n" "Q") with false.
  cbn [andb]. cbv iota. rewrite !orb_true_r. reflexivity.
Qed.

(** At the terminating NUL the loop is over. *)
Lemma scan_at_end (fuel : nat) (st : scanner) :
  char_at fmt (at_i st) = NUL ->
  scan junk render cx fmt nargs args staticbuf_size fuel st = Ok st.
Proof. intros H. destruct fuel; cbn [scan]; rewrite H; reflexivity. Qed.

(** One iteration that does not leave by [break]. *)
Lemma scan_step (fuel : nat) (st st' : scanner) :
  char_at fmt (at_i st) <> NUL ->
  scan_body junk render cx fmt nargs args staticbuf_size (S fuel) st = Ok (false, st') ->
  scan junk render cx fmt nargs args staticbuf_size (S fuel) st =
    scan junk render cx fmt nargs args staticbuf_size fuel (advance st').
Proof.
  intros Hc Hb. cbn [scan].
  replace (is_nul (char_at fmt (at_i st))) with false.
  - rewrite Hb. reflexivity.
  - symmetry. unfold is_nul. apply Ascii.eqb_neq. exact Hc.
Qed.

End ScanFacts.

(** ** Runs of the scanner *)







Section ScanRuns.

Variable junk : ascii.
Variable render : list ascii -> fmtarg -> option (list ascii).
Variable cx : context.
Variable fmt : list ascii.
Variable nargs : Z.
Variable args : list fmtarg.
Variable staticbuf_size : Z.


End ScanRuns.

(** ** Claims about single specifiers *)

(** C5. Whenever the scanner is inside a specifier and reads the letter n,
    whatever the format string, the argument list, the context and the
    state, the specifier's bytes [fmt[tokenstart .. i]] are appended to the
    output as they are, the argument index [iarg] stays where it was, and
    the specifier is closed (the allocator being able to provide the block
    the output may grow into). *)
Theorem percent_n_copied_literally :
  forall (junk : ascii) (render : list ascii -> fmtarg -> option (list ascii))
         (cx : context) (fmt : list ascii) (nargs : Z) (args : list fmtarg)
         (staticbuf_size : Z) (fuel : nat) (st : scanner),
    0 <= tokenstart st <= at_i st -> at_i st < len fmt ->
    char_at fmt (at_i st) = "n"%char ->
    buffer_ok (output st) ->
    2 * (Pos (output st) + (at_i st - tokenstart st + 1)) <= PTRDIFF_MAX ->
    token_copied fmt st
      (scan_body junk render cx fmt nargs args staticbuf_size fuel st).
Proof.
  intros junk render cx fmt nargs args staticbuf_size fuel st Hts Hi Hn Hok Hroom.
  rewrite scan_body_n_arm by (assumption || lia).
  destruct (add_token_succeeds junk fmt (Z.to_nat (at_i st - tokenstart st + 1))
              (tokenstart st) (output st) Hok) as [output' E]; [lia|].
  exists output'. rewrite E. cbn [bind]. split; [reflexivity|].
  apply add_token_ok in E; [|assumption]. destruct E as (Hok' & Hc & _).
  split; [|assumption].
  rewrite Hc. unfold token_text. rewrite chars_from_slice by lia. reflexivity.
Qed.

Lemma percent_n_copied_literally_witness :
  token_copied (chars "%n") (sample_in_token 1)
    (scan_body "?"%char render_nothing default_context (chars "%n") 1 [TI32 5] 256 1
       (sample_in_token 1))
  /\ fmt "?"%char render_nothing 3 (chars "%n") [TI32 5] = Ok (chars "%n")
  /\ fmt "?"%char render_nothing 5 (chars "%n%d") [TI32 5] = Ok (chars "%n5").
Proof.
  split; [|split; reflexivity].
  apply (percent_n_copied_literally "?"%char render_nothing default_context (chars "%n") 1
           [TI32 5] 256 1 (sample_in_token 1)).
  - cbn. lia.
  - reflexivity.
  - reflexivity.
  - unfold buffer_ok, PTRDIFF_MAX. cbn. lia.
  - unfold PTRDIFF_MAX. cbn. lia.
Defined.

(** C7 (as amended). Inside a specifier, a character that is neither a
    recognized terminator letter nor '%' leaves the scanner's state as it
    was: nothing is copied to the output, no argument cell is consumed, and
    the specifier stays open. *)
Theorem unrecognized_letter_is_skipped :
  forall (junk : ascii) (render : list ascii -> fmtarg -> option (list ascii))
         (cx : context) (fmt : list ascii) (nargs : Z) (args : list fmtarg)
         (staticbuf_size : Z) (fuel : nat) (st : scanner),
    tokenstart st <> -1 ->
    switch_arm (char_at fmt (at_i st)) = Default ->
    scan_body junk render cx fmt nargs args staticbuf_size fuel st = Ok (false, st).
Proof.
  intros junk render cx fmt nargs args staticbuf_size fuel st Hts Harm.
  unfold scan_body.
  destruct (Z.eqb_spec (tokenstart st) (-1)) as [E|_]; [contradiction|].
  cbn [negb]. cbv iota. rewrite Harm. reflexivity.
Qed.

Lemma unrecognized_letter_is_skipped_witness :
  scan_body "?"%char render_nothing default_context (chars "%kd") 1 [TI32 5] 256 1
    (sample_in_token 1) = Ok (false, sample_in_token 1).
Proof.
  apply (unrecognized_letter_is_skipped "?"%char render_nothing default_context (chars "%kd") 1
           [TI32 5] 256 1 (sample_in_token 1)).
  - cbn. discriminate.
  - reflexivity.
Defined.

(** C7 as stated fails: the specifier "%k" is not copied to the output.
    Alone it yields the empty string, and in "%k%d" the second '%' closes
    it with a single '%', so that the output is "%d". *)
Lemma unrecognized_letter_not_copied :
  fmt "?"%char render_nothing 3 (chars "%k") [TI32 5] = Ok []
  /\ fmt "?"%char render_nothing 5 (chars "%k%d") [TI32 5] = Ok (chars "%d").
Proof. split; reflexivity. Qed.



(** ** The accepted specifier and the loop at size zero *)

Section Accepted.

Variable junk : ascii.
Variable render : list ascii -> fmtarg -> option (list ascii).
Variable cx : context.
Variable fmt : list ascii.
Variable nargs : Z.
Variable args : list fmtarg.
Variable staticbuf_size : Z.

(** Inside a token, a terminator other than n, q and Q, with an argument
    left and the token short enough: the token goes to [argbuf] and the
    writer is called on growing destinations. *)
Lemma scan_body_accepts (fuel : nat) (st : scanner) :
  tokenstart st <> -1 ->
  switch_arm (char_at fmt (at_i st)) = Terminator ->
  Ascii.eqb (char_at fmt (at_i st)) "n" = false ->
  Ascii.eqb (char_at fmt (at_i st)) "q" = false ->
  Ascii.eqb (char_at fmt (at_i st)) "Q" = false ->
  iarg st < nargs ->
  0 <= at_i st - tokenstart st < argbuf_arraysize - 1 ->
  scan_body junk render cx fmt nargs args staticbuf_size fuel st =
    ('(argbuf, argbufsize) <-
        copy_token fmt (Z.to_nat (at_i st - tokenstart st)) (tokenstart st) (argbuf st) 0 ;;
     '(output, argbuf) <-
        grow_output junk render cx fuel false false (char_at fmt (at_i st))
          (nth (Z.to_nat (iarg st)) args TNull) argbufsize (output st) argbuf
          (to_ssize_t (initial_sprintf_guessed_size staticbuf_size)) ;;
     Ok (false, {| at_i := at_i st; tokenstart := -1; iarg := to_ssize_t (iarg st + 1);
                   output := output; argbuf := argbuf |})).
Proof.
  intros Hts Harm Hn Hq HQ Harg Hlen. unfold scan_body.
  destruct (Z.eqb_spec (tokenstart st) (-1)) as [E|_]; [contradiction|].
  cbn [negb]. cbv iota. rewrite Harm, Hn, Hq, HQ. cbn [andb]. cbv iota.
  replace (iarg st >=? nargs) with false
    by (symmetry; destruct (Z.geb_spec (iarg st) nargs); [lia|reflexivity]).
  unfold argbuf_arraysize in *.
  rewrite (to_size_t_small (at_i st - tokenstart st)) by lia.
  change (to_size_t (16 - 1)) with 15.
  replace (at_i st - tokenstart st >=? 15) with false
    by (symmetry; destruct (Z.geb_spec (at_i st - tokenstart st) 15); [lia|reflexivity]).
  reflexivity.
Qed.

Lemma AddUninitialized_nothing (b : StackBuffer) :
  buffer_ok b ->
  AddUninitialized junk b 0 =
    Ok (Pos b, {| Buffer := Buffer b; Pos := Pos b; Capacity := Capacity b;
                  OwnBuffer := OwnBuffer b |}).
Proof.
  intros Hok. unfold AddUninitialized. rewrite Reserve_eq by (assumption || lia).
  destruct Hok as (Hp & Hc & Hl). unfold PTRDIFF_MAX in Hc.
  replace (Pos b + 0 >? Capacity b) with false
    by (symmetry; destruct (Z.gtb_spec (Pos b + 0) (Capacity b)); [lia|reflexivity]).
  cbn [bind]. rewrite Z.add_0_r. rewrite to_size_t_small by lia. reflexivity.
Qed.

(** The specifier "%" followed by anything, rewritten for a 32-bit cell. *)
Lemma fmt_settype_after_percent (c1 c2 type : ascii) (rest : list ascii) :
  fmt_settype ("%"%char :: c1 :: c2 :: rest) 1 (Some []) type
    = Ok ("%"%char :: type :: NUL :: rest).
Proof.
  pose proof (len_nonneg rest) as Hr.
  unfold fmt_settype. change (to_size_t (1 - 1)) with 0.
  unfold load.
  replace (0 <? len ("%"%char :: c1 :: c2 :: rest)) with true
    by (rewrite !len_cons; symmetry; apply Z.ltb_lt; lia).
  change ((0 <=? 0) && true) with true. cbv iota.
  change (nth (Z.to_nat 0) ("%"%char :: c1 :: c2 :: rest) NUL) with "%"%char.
  cbn [bind fmt_settype_width]. cbv iota beta.
  rewrite store_in_bounds by (rewrite !len_cons; lia). cbn [bind].
  change (firstn (Z.to_nat 1) ("%"%char :: c1 :: c2 :: rest) ++
          type :: skipn (S (Z.to_nat 1)) ("%"%char :: c1 :: c2 :: rest))
    with ("%"%char :: type :: c2 :: rest).
  rewrite store_in_bounds by (rewrite !len_cons; lia).
  reflexivity.
Qed.

(** With a destination of zero bytes a 32-bit cell is rewritten and sent
    to the general path, which reports -1, over and over. *)
Lemma grow_output_zero_int32 (fuel : nat) :
  forall (output : StackBuffer) (c1 c2 : ascii) (rest : list ascii)
         (fmt_type : ascii) (v : Z),
    buffer_ok output ->
    grow_output junk render cx fuel false false fmt_type (TI32 v) 1 output
      ("%"%char :: c1 :: c2 :: rest) 0 = NoFuel.
Proof.
  induction fuel as [|fuel IH]; intros output c1 c2 rest fmt_type v Hok; [reflexivity|].
  cbn [grow_output]. change (to_size_t 0) with 0.
  rewrite AddUninitialized_nothing by assumption. cbn [bind].
  cbv iota beta. cbn [Buffer Pos Capacity OwnBuffer].
  unfold call_writer. cbv iota. change (to_size_t 1) with 1. change (to_size_t 0) with 0.
  unfold fmt_output_with_snprintf. cbv zeta beta.
  assert (Hwriter : forall type,
    (argbuf <- fmt_settype ("%"%char :: c1 :: c2 :: rest) 1 (Some []) type ;;
     '(mem, r) <- format_int32 render (Buffer output) (Pos output) 0 argbuf (cast int32_t v) ;;
     Ok (mem, argbuf, r))
    = Ok (Buffer output, "%"%char :: type :: NUL :: rest, -1)).
  { intros type. rewrite fmt_settype_after_percent. cbn [bind].
    rewrite format_int32_small_budget by lia.
    rewrite fmt_snprintf_no_room. reflexivity. }
  assert (Hcall :
    (argbuf <-
       (if Ascii.eqb fmt_type "c"
        then fmt_settype ("%"%char :: c1 :: c2 :: rest) 1 (Some []) "c"
        else if tokenint_of fmt_type
             then fmt_settype ("%"%char :: c1 :: c2 :: rest) 1 (Some []) fmt_type
             else fmt_settype ("%"%char :: c1 :: c2 :: rest) 1 (Some []) "d") ;;
     '(mem, r) <- format_int32 render (Buffer output) (Pos output) 0 argbuf (cast int32_t v) ;;
     Ok (mem, argbuf, r))
    = Ok (Buffer output,
          "%"%char :: (if Ascii.eqb fmt_type "c" then "c"%char
                       else if tokenint_of fmt_type then fmt_type else "d"%char)
            :: NUL :: rest, -1)).
  { destruct (Ascii.eqb fmt_type "c"); [apply Hwriter|].
    destruct (tokenint_of fmt_type); apply Hwriter. }
  rewrite Hcall. cbn [bind]. cbv iota beta.
  change ((-1 >=? 0) && (-1 <? 0)) with false. change (0 >=? MaxOutputSize) with false.
  cbv iota.
  change (to_size_t (- 0)) with 0.
  unfold MoveCurrentPos. cbn [Buffer Pos Capacity OwnBuffer].
  destruct Hok as (Hp & Hc & Hl). unfold PTRDIFF_MAX in Hc.
  rewrite Z.add_0_r. rewrite to_size_t_small by lia.
  replace (Pos output <=? Capacity output) with true by (symmetry; apply Z.leb_le; lia).
  cbn [bind]. change (to_ssize_t (0 * 2)) with 0.
  apply IH. unfold buffer_ok, PTRDIFF_MAX. cbn [Buffer Pos Capacity]. lia.
Qed.

End Accepted.

(** C3 (the code at the failing input). With a caller's buffer of three
    bytes the first destination size is 3 >> 2 = 0, and 0 doubles to 0:
    formatting "%d" with the argument 5 runs out of fuel however much it is
    given, that is, the grow-and-retry loop of the source never ends. *)
Theorem grow_loop_never_ends_on_small_buffer :
  forall (junk : ascii) (render : list ascii -> fmtarg -> option (list ascii)) (fuel : nat),
    fmt_buf junk render fuel default_context (repeat junk 3) 3 (chars "%d") [TI32 5] = NoFuel.
Proof.
  intros junk render fuel. unfold fmt_buf, fmt_core.
  change (len [TI32 5] =? 0) with false. cbv iota.
  destruct fuel as [|fuel]; [reflexivity|].
  rewrite (scan_step junk render default_context (chars "%d") (len [TI32 5])
             ([TI32 5] ++ [TNull]) 3 fuel _
             {| at_i := 0; tokenstart := 0; iarg := 0;
                output := StackBuffer_new (repeat junk 3) 3;
                argbuf := repeat junk (Z.to_nat argbuf_arraysize) |});
    [| discriminate | apply scan_body_enters_token; [reflexivity | cbn; lia | reflexivity] ].
  destruct fuel as [|fuel]; [reflexivity|].
  unfold advance. cbn [scan at_i tokenstart iarg output argbuf].
  change (is_nul (char_at (chars "%d") (0 + 1))) with false. cbv iota.
  rewrite scan_body_accepts;
    [| cbn; discriminate | reflexivity | reflexivity | reflexivity | reflexivity
     | reflexivity | cbn; unfold argbuf_arraysize; lia ].
  cbn [at_i tokenstart iarg output argbuf].
  change (copy_token (chars "%d") (Z.to_nat (0 + 1 - 0)) 0
            (repeat junk (Z.to_nat argbuf_arraysize)) 0)
    with (@Ok (list ascii * Z) ("%"%char :: repeat junk 15, 1)).
  cbn [bind]. cbv iota beta.
  change (to_ssize_t (initial_sprintf_guessed_size 3)) with 0.
  change (repeat junk 15) with (junk :: junk :: repeat junk 13).
  change (nth (Z.to_nat 0) ([TI32 5] ++ [TNull]) TNull) with (TI32 5).
  rewrite grow_output_zero_int32; [reflexivity|].
  unfold buffer_ok, PTRDIFF_MAX. cbn. lia.
Qed.

(** ** The output-buffer invariant *)

Lemma safely_bind {A B : Type} (P : A -> Prop) (Q : B -> Prop) (m : outcome A)
    (k : A -> outcome B) :
  safely P m -> (forall a, P a -> safely Q (k a)) -> safely Q (bind m k).
Proof. intros Hm Hk. destruct m; cbn [bind safely] in *; auto. Qed.

Lemma quiet_safely {A : Type} (P : A -> Prop) (o : outcome A) :
  quiet o -> (forall a, o = Ok a -> P a) -> safely P o.
Proof. intros Hq HP. destruct o; cbn [safely quiet] in *; auto. Qed.

Lemma safely_weaken {A : Type} (P Q : A -> Prop) (o : outcome A) :
  safely P o -> (forall a, P a -> Q a) -> safely Q o.
Proof. intros H HPQ. destruct o; cbn [safely] in *; auto. Qed.

(** *** The writers keep the block's size *)

Section KeepsLen.

Variable render : list ascii -> fmtarg -> option (list ascii).

Lemma fmt_snprintf_len (mem : list ascii) (destination count : Z) (format_str : list ascii)
    (arg : fmtarg) (mem' : list ascii) (r : Z) :
  fmt_snprintf render mem destination count format_str arg = Ok (mem', r) -> len mem' = len mem.
Proof.
  unfold fmt_snprintf, vsnprintf.
  destruct (render (c_str format_str) arg) as [text|]; cbn [bind].
  - destruct (count =? 0); cbn [bind].
    + intros H; inversion H; reflexivity.
    + destruct (store_all mem destination _) as [m| |] eqn:E; cbn [bind]; try discriminate.
      intros H; inversion H; subst. eapply store_all_len; exact E.
  - intros H; inversion H; reflexivity.
Qed.

Lemma format_string_copy_len (s : list ascii) :
  forall (mem : list ascii) (destination count i : Z) (mem' : list ascii) (r : Z),
    format_string_copy mem destination count i s = Ok (mem', r) -> len mem' = len mem.
Proof.
  induction s as [|c s IH]; intros mem destination count i mem' r; cbn [format_string_copy].
  - destruct (i <? count); intros H; inversion H; reflexivity.
  - destruct (i <? count); [|intros H; inversion H; reflexivity].
    destruct (is_nul c); [intros H; inversion H; reflexivity|].
    destruct (store mem (destination + i) c) as [m| |] eqn:E; cbn [bind]; try discriminate.
    intros H. apply IH in H. apply store_len in E. congruence.
Qed.

Lemma format_string_len (mem : list ascii) (destination count : Z) (format_str s : list ascii)
    (mem' : list ascii) (r : Z) :
  format_string render mem destination count format_str s = Ok (mem', r) -> len mem' = len mem.
Proof.
  unfold format_string. destruct (_ && _).
  - apply format_string_copy_len.
  - apply fmt_snprintf_len.
Qed.

Lemma format_integer_len (t : TInt) (tbase : Z) (upcase : bool) (mem : list ascii)
    (destination value : Z) (mem' : list ascii) (r : Z) :
  format_integer t tbase upcase mem destination value = Ok (mem', r) -> len mem' = len mem.
Proof.
  unfold format_integer.
  destruct (format_integer_digits 20 t upcase (cast t tbase) value []) as [[buf tmp]| |];
    cbn [bind]; try discriminate.
  destruct (if tmp <? 0 then _ else _) as [buf'| |]; cbn [bind]; try discriminate.
  destruct (store_all mem destination buf') as [m| |] eqn:E; cbn [bind]; try discriminate.
  intros H; inversion H; subst. eapply store_all_len; exact E.
Qed.

Lemma format_int32_len (mem : list ascii) (destination count : Z) (format_str : list ascii)
    (v : Z) (mem' : list ascii) (r : Z) :
  format_int32 render mem destination count format_str v = Ok (mem', r) -> len mem' = len mem.
Proof.
  unfold format_int32.
  destruct (char_at format_str 1) as [b0 b1 b2 b3 b4 b5 b6 b7].
  destruct b0, b1, b2, b3, b4, b5, b6, b7; try apply fmt_snprintf_len;
    destruct (count >=? _); first [apply format_integer_len | apply fmt_snprintf_len].
Qed.

Lemma format_int64_len (mem : list ascii) (destination count : Z) (format_str : list ascii)
    (v : Z) (mem' : list ascii) (r : Z) :
  format_int64 render mem destination count format_str v = Ok (mem', r) -> len mem' = len mem.
Proof.
  unfold format_int64. destruct (_ && _); [|apply fmt_snprintf_len].
  destruct (char_at format_str 4) as [b0 b1 b2 b3 b4 b5 b6 b7].
  destruct b0, b1, b2, b3, b4, b5, b6, b7; try apply fmt_snprintf_len;
    destruct (count >=? _); first [apply format_integer_len | apply fmt_snprintf_len].
Qed.

Lemma fmt_output_with_snprintf_len (mem : list ascii) (outbuf : Z) (fmt_type : ascii)
    (argbuf : list ascii) (argbufsize outputSize : Z) (arg : fmtarg)
    (mem' argbuf' : list ascii) (r : Z) :
  fmt_output_with_snprintf render mem outbuf fmt_type argbuf argbufsize outputSize arg
    = Ok (mem', argbuf', r) ->
  len mem' = len mem.
Proof.
  unfold fmt_output_with_snprintf. destruct arg.
  - intros H; inversion H; reflexivity.
  - destruct (fmt_settype _ _ _ _) as [a| |]; cbn [bind]; try discriminate.
    destruct (fmt_snprintf _ _ _ _ _ _) as [[m r']| |] eqn:E; cbn [bind]; try discriminate.
    intros H; inversion H; subst. eapply fmt_snprintf_len; exact E.
  - destruct (fmt_settype _ _ _ _) as [a| |]; cbn [bind]; try discriminate.
    destruct (format_string _ _ _ _ _ _) as [[m r']| |] eqn:E; cbn [bind]; try discriminate.
    intros H; inversion H; subst. eapply format_string_len; exact E.
  - destruct (fmt_settype _ _ _ _) as [a| |]; cbn [bind]; try discriminate.
    destruct (fmt_snprintf _ _ _ _ _ _) as [[m r']| |] eqn:E; cbn [bind]; try discriminate.
    intros H; inversion H; subst. eapply fmt_snprintf_len; exact E.
  - destruct (if Ascii.eqb fmt_type "c" then _ else _) as [a| |]; cbn [bind]; try discriminate.
    destruct (format_int32 _ _ _ _ _ _) as [[m r']| |] eqn:E; cbn [bind]; try discriminate.
    intros H; inversion H; subst. eapply format_int32_len; exact E.
  - destruct (if tokenint_of fmt_type then _ else _) as [a| |]; cbn [bind]; try discriminate.
    destruct (format_int32 _ _ _ _ _ _) as [[m r']| |] eqn:E; cbn [bind]; try discriminate.
    intros H; inversion H; subst. eapply format_int32_len; exact E.
  - destruct (if tokenint_of fmt_type then _ else _) as [a| |]; cbn [bind]; try discriminate.
    destruct (format_int64 _ _ _ _ _ _) as [[m r']| |] eqn:E; cbn [bind]; try discriminate.
    intros H; inversion H; subst. eapply format_int64_len; exact E.
  - destruct (if tokenint_of fmt_type then _ else _) as [a| |]; cbn [bind]; try discriminate.
    destruct (format_int64 _ _ _ _ _ _) as [[m r']| |] eqn:E; cbn [bind]; try discriminate.
    intros H; inversion H; subst. eapply format_int64_len; exact E.
  - destruct (if tokenreal_of fmt_type then _ else _) as [a| |]; cbn [bind]; try discriminate.
    destruct (fmt_snprintf _ _ _ _ _ _) as [[m r']| |] eqn:E; cbn [bind]; try discriminate.
    intros H; inversion H; subst. eapply fmt_snprintf_len; exact E.
Qed.

Lemma call_writer_len (cx : context) (is_q is_Q : bool) (fmt_type : ascii)
    (mem : list ascii) (outbuf : Z) (argbuf : list ascii) (argbufsize outputSize : Z)
    (arg : fmtarg) (mem' argbuf' : list ascii) (r : Z) :
  call_writer render cx is_q is_Q fmt_type mem outbuf argbuf argbufsize outputSize arg
    = Ok (mem', argbuf', r) ->
  len mem' = len mem.
Proof.
  unfold call_writer.
  assert (Hhook : forall h : option WriteSpecialFunc,
    match h with
    | None => Fault NullCall
    | Some f =>
        let '(bytes, r) := f (to_size_t outputSize) arg in
        mem <- store_all mem outbuf bytes ;; Ok (mem, argbuf, to_ssize_t r)
    end = Ok (mem', argbuf', r) -> len mem' = len mem).
  { intros [f|]; [|discriminate].
    destruct (f (to_size_t outputSize) arg) as [bytes r'].
    destruct (store_all mem outbuf bytes) as [m| |] eqn:E; cbn [bind]; try discriminate.
    intros H; inversion H; subst. eapply store_all_len; exact E. }
  destruct is_q; [apply Hhook|]. destruct is_Q; [apply Hhook|].
  apply fmt_output_with_snprintf_len.
Qed.

End KeepsLen.

(** *** Every step keeps the invariant *)

Section Invariant.

Variable junk : ascii.
Variable render : list ascii -> fmtarg -> option (list ascii).
Variable cx : context.
Variable fmt : list ascii.
Variable nargs : Z.
Variable args : list fmtarg.

Lemma Reserve_safely (b : StackBuffer) (n : Z) :
  buffer_ok b -> 0 <= n < 2 ^ 63 ->
  safely (fun b' => buffer_ok b' /\ Pos b' = Pos b /\ Pos b + n <= Capacity b' /\
                    contents b' = contents b /\
                    Capacity b' = (if Pos b + n >? Capacity b
                                   then Z.max (2 * Capacity b) (Pos b + n)
                                   else Capacity b))
    (Reserve junk b n).
Proof.
  intros Hok Hn. apply quiet_safely; [apply Reserve_quiet|].
  intros b' E. eapply Reserve_ok; eassumption.
Qed.

Lemma AddUninitialized_safely (b : StackBuffer) (n : Z) :
  buffer_ok b -> 0 <= n < 2 ^ 62 ->
  safely (fun r => buffer_ok (snd r) /\ fst r = Pos b /\ Pos (snd r) = Pos b + n /\
                   firstn (Z.to_nat (fst r)) (Buffer (snd r)) = contents b /\
                   Capacity b <= Capacity (snd r))
    (AddUninitialized junk b n).
Proof.
  intros Hok Hn. apply quiet_safely; [apply AddUninitialized_quiet|].
  intros [p b'] E. cbn [fst snd]. eapply AddUninitialized_ok; eassumption.
Qed.

Lemma Add_safely (b : StackBuffer) (c : ascii) :
  buffer_ok b ->
  safely (fun b' => buffer_ok b' /\ Pos b' = Pos b + 1 /\ contents b' = contents b ++ [c])
    (Add junk b c).
Proof.
  intros Hok. apply quiet_safely; [apply Add_quiet|].
  intros b' E. apply Add_ok in E; [|assumption].
  destruct E as (H1 & H2 & H3 & _). auto.
Qed.

Lemma add_token_safely (n : nat) :
  forall (j : Z) (output : StackBuffer),
    buffer_ok output -> safely buffer_ok (add_token junk fmt n j output).
Proof.
  induction n as [|n IH]; intros j output Hok; cbn [add_token].
  - exact Hok.
  - eapply safely_bind; [apply Add_safely; assumption|].
    intros output1 (Hok1 & _). apply IH. exact Hok1.
Qed.

Lemma copy_token_quiet (n : nat) :
  forall (j : Z) (argbuf : list ascii) (argbufsize : Z),
    quiet (copy_token fmt n j argbuf argbufsize).
Proof.
  induction n as [|n IH]; intros j argbuf argbufsize; cbn [copy_token]; quiet.
Qed.

(** The bulk copy of literal text: [stopAt] leaves the cursor inside the
    block, so every store is in bounds and the invariant survives. *)
Lemma copy_literal_safely (rest : list ascii) :
  forall (i stopAt : Z) (output : StackBuffer),
    buffer_ok output -> stopAt - i <= Capacity output - Pos output ->
    safely (fun r => buffer_ok (snd r) /\ i <= fst r) (copy_literal rest i stopAt output).
Proof.
  induction rest as [|c rest IH]; intros i stopAt output Hok Hstop; cbn [copy_literal].
  - cbn [safely fst snd]. split; [assumption|lia].
  - destruct ((i <? stopAt) && negb (Ascii.eqb c "%") && negb (is_nul c)) eqn:Hgo.
    + apply andb_true_iff in Hgo. destruct Hgo as [Hgo _].
      apply andb_true_iff in Hgo. destruct Hgo as [Hlt _].
      apply Z.ltb_lt in Hlt.
      destruct Hok as (Hp & Hc & Hl). unfold PTRDIFF_MAX in Hc.
      rewrite store_in_bounds by lia. cbn [bind].
      rewrite to_size_t_small by lia.
      eapply safely_weaken.
      * apply IH.
        -- unfold buffer_ok, PTRDIFF_MAX. cbn [Buffer Pos Capacity].
           split; [lia|]. split; [lia|].
           rewrite len_app, len_firstn, len_cons by lia.
           replace (S (Z.to_nat (Pos output))) with (Z.to_nat (Pos output + 1)) by lia.
           rewrite len_skipn by lia. lia.
        -- cbn [Pos Capacity]. lia.
      * intros [i' output'] (H1 & H2). cbn [fst snd] in *. split; [assumption|lia].
    + cbn [safely fst snd]. split; [assumption|lia].
Qed.

(** The grow-and-retry loop: each [MoveCurrentPos] meets its [assert],
    and the loop hands back a buffer that satisfies the invariant. *)
Lemma grow_output_safely (fuel : nat) :
  forall (is_q is_Q : bool) (fmt_type : ascii) (arg : fmtarg) (argbufsize : Z)
         (output : StackBuffer) (argbuf : list ascii) (outputSize : Z),
    buffer_ok output -> 0 <= outputSize < 2 ^ 62 ->
    safely (fun r => buffer_ok (fst r) /\ Pos output <= Pos (fst r))
      (grow_output junk render cx fuel is_q is_Q fmt_type arg argbufsize output argbuf
         outputSize).
Proof.
  induction fuel as [|fuel IH];
    intros is_q is_Q fmt_type arg argbufsize output argbuf outputSize Hok Hsize.
  - exact I.
  - cbn [grow_output]. rewrite to_size_t_small by lia.
    eapply safely_bind; [apply AddUninitialized_safely; assumption|].
    intros [outbuf output1]. cbn [fst snd]. intros (Hok1 & _ & HP1 & _ & _).
    eapply safely_bind with (P := fun r => len (fst (fst r)) = len (Buffer output1)).
    { apply quiet_safely; [apply call_writer_quiet|].
      intros [[mem ab] w] E. cbn [fst]. eapply call_writer_len; exact E. }
    intros [[mem ab] written]. cbn [fst]. intros Hlen. cbv beta iota.
    set (output2 := {| Buffer := mem; Pos := Pos output1; Capacity := Capacity output1;
                       OwnBuffer := OwnBuffer output1 |}).
    destruct Hok as (Hp & Hc & Hl). destruct Hok1 as (Hp1 & Hc1 & Hl1).
    assert (Hok2 : buffer_ok output2).
    { unfold buffer_ok, output2. cbn [Buffer Pos Capacity]. repeat split; lia. }
    destruct ((written >=? 0) && (written <? outputSize)) eqn:Hfit.
    + apply andb_true_iff in Hfit. destruct Hfit as [H0 H1].
      apply Z.ltb_lt in H1.
      assert (0 <= written) by (destruct (Z.geb_spec written 0); [lia|discriminate]).
      replace (written - outputSize) with (- (outputSize - written)) by lia.
      rewrite MoveCurrentPos_eq by (unfold output2; cbn [Pos Capacity]; lia).
      cbn [bind safely fst]. unfold buffer_ok, output2. cbn [Buffer Pos Capacity].
      repeat split; lia.
    + destruct (outputSize >=? MaxOutputSize) eqn:Hmax.
      * cbn [safely fst]. split; [assumption|]. unfold output2. cbn [Pos]. lia.
      * assert (Hlt : outputSize < MaxOutputSize)
          by (destruct (Z.geb_spec outputSize MaxOutputSize); [discriminate|lia]).
        unfold MaxOutputSize in Hlt.
        rewrite MoveCurrentPos_eq by (unfold output2; cbn [Pos Capacity]; lia).
        cbn [bind]. rewrite to_ssize_t_small by lia.
        eapply safely_weaken.
        -- apply IH; [|lia]. unfold buffer_ok, output2. cbn [Buffer Pos Capacity].
           repeat split; lia.
        -- intros [o' ab'] (H1 & H2). cbn [fst Pos] in *. unfold output2 in H2.
           cbn [Pos] in H2. split; [assumption|lia].
Qed.

Lemma initial_guess_range (staticbuf_size : Z) :
  0 <= staticbuf_size <= PTRDIFF_MAX ->
  0 <= initial_sprintf_guessed_size staticbuf_size < 2 ^ 61.
Proof.
  unfold initial_sprintf_guessed_size, PTRDIFF_MAX. intros H.
  rewrite Z.shiftr_div_pow2 by lia. change (2 ^ 2) with 4.
  split.
  - apply Z.div_pos; lia.
  - apply Z.div_lt_upper_bound; lia.
Qed.

(** One iteration of the scanner's loop keeps the invariant. *)
Lemma scan_body_safely (staticbuf_size : Z) (fuel : nat) (st : scanner) :
  0 <= staticbuf_size <= PTRDIFF_MAX ->
  scanner_ok st ->
  safely (fun r => scanner_ok (advance (snd r)) /\ buffer_ok (output (snd r)))
    (scan_body junk render cx fmt nargs args staticbuf_size fuel st).
Proof.
  intros Hsize (Hok & Hi).
  assert (Hclose : forall (brk : bool) (i ts ia : Z) (out : StackBuffer) (ab : list ascii),
    buffer_ok out -> -1 <= i ->
    safely (fun r => scanner_ok (advance (snd r)) /\ buffer_ok (output (snd r)))
      (Ok (brk, {| at_i := i; tokenstart := ts; iarg := ia; output := out; argbuf := ab |}))).
  { intros brk i ts ia out ab Hout Hge. cbn [safely snd]. unfold scanner_ok, advance.
    cbn [output at_i]. split; [split; [exact Hout | lia] | exact Hout]. }
  unfold scan_body.
  destruct (negb (tokenstart st =? -1)).
  - destruct (switch_arm (char_at fmt (at_i st))).
    + cbv zeta. destruct (_ || _ || _).
      * eapply safely_bind; [apply add_token_safely; assumption|].
        intros output1 Hok1. apply Hclose; [assumption|lia].
      * eapply safely_bind with (P := fun _ => True).
        { apply quiet_safely; [apply copy_token_quiet|]. intros; exact I. }
        intros [ab n] _. cbv beta iota.
        pose proof (initial_guess_range staticbuf_size Hsize) as Hg.
        eapply safely_bind.
        { apply grow_output_safely; [assumption|]. rewrite to_ssize_t_small; lia. }
        intros [output1 ab1]. cbn [fst]. intros (Hok1 & _).
        apply Hclose; [assumption|lia].
    + eapply safely_bind; [apply Add_safely; assumption|].
      intros output1 (Hok1 & _). apply Hclose; [assumption|lia].
    + destruct st as [i ts ia out ab]. cbn [at_i output] in *.
      apply Hclose; [assumption|lia].
  - eapply safely_bind.
    { apply copy_literal_safely; [assumption|].
      unfold RemainingSpace. pose proof Hok as (Hp & Hc & Hl). unfold PTRDIFF_MAX in Hc.
      rewrite to_size_t_small by lia.
      pose proof (to_ssize_t_le (at_i st + (Capacity (output st) - Pos (output st)))).
      lia. }
    intros [i output1]. cbn [fst snd]. intros (Hok1 & Hi1). cbv beta iota.
    destruct (Ascii.eqb (char_at fmt i) "%").
    + apply Hclose; [assumption|lia].
    + destruct (is_nul (char_at fmt i)).
      * apply Hclose; [assumption|lia].
      * eapply safely_bind; [apply Reserve_safely; [assumption|lia]|].
        intros output2 (Hok2 & _). apply Hclose; [assumption|lia].
Qed.

(** Every state in which the loop body is entered satisfies the
    invariant. *)
Lemma reachable_ok (staticbuf : list ascii) (st : scanner) :
  len staticbuf <= PTRDIFF_MAX ->
  reachable junk render cx fmt nargs args staticbuf st -> scanner_ok st.
Proof.
  intros Hsize Hreach. induction Hreach as [|fuel st st' Hreach IH Hbody].
  - split; [apply StackBuffer_new_ok; assumption | cbn; lia].
  - pose proof (scan_body_safely (len staticbuf) fuel st) as Hs.
    rewrite Hbody in Hs. cbn [safely snd] in Hs.
    apply Hs; [|assumption]. pose proof (len_nonneg staticbuf). lia.
Qed.

End Invariant.

Section WholeRun.

Variable junk : ascii.
Variable render : list ascii -> fmtarg -> option (list ascii).
Variable cx : context.
Variable fmt : list ascii.
Variable nargs : Z.
Variable args : list fmtarg.

Lemma scan_safely (staticbuf_size : Z) (fuel : nat) :
  0 <= staticbuf_size <= PTRDIFF_MAX ->
  forall st : scanner,
    scanner_ok st ->
    safely (fun st' => buffer_ok (output st'))
      (scan junk render cx fmt nargs args staticbuf_size fuel st).
Proof.
  intros Hsize. induction fuel as [|fuel IH]; intros st Hok; cbn [scan].
  - destruct (is_nul _); [apply Hok | exact I].
  - destruct (is_nul _); [apply Hok|].
    eapply safely_bind; [apply scan_body_safely; assumption|].
    intros [broke st'] (Hadv & Hout). cbn [snd] in *.
    destruct broke; [exact Hout|]. apply IH. exact Hadv.
Qed.

Lemma safely_no_assert {A : Type} (P : A -> Prop) (o : outcome A) :
  safely P o -> o <> Fault AssertionFailed.
Proof. intros H E. rewrite E in H. apply H. reflexivity. Qed.

Lemma fmt_core_no_assert (fuel : nat) (staticbuf : list ascii) :
  len staticbuf <= PTRDIFF_MAX ->
  fmt_core junk render fuel cx fmt nargs args staticbuf (len staticbuf)
    <> Fault AssertionFailed.
Proof.
  intros Hsize. unfold fmt_core. destruct (nargs =? 0).
  - apply quiet_no_assert. quiet.
  - apply (safely_no_assert (fun _ => True)).
    eapply safely_bind.
    + apply scan_safely; [pose proof (len_nonneg staticbuf); lia|].
      split; [apply StackBuffer_new_ok; assumption | cbn; lia].
    + intros st Hok. eapply safely_bind; [apply Add_safely; exact Hok|].
      intros; exact I.
Qed.

End WholeRun.

(** ** The integer encoder *)

Ltac digit_cases r :=
  let H := fresh "Hr" in
  assert (H : r = 0 \/ r = 1 \/ r = 2 \/ r = 3 \/ r = 4 \/ r = 5 \/ r = 6 \/ r = 7 \/
              r = 8 \/ r = 9) by lia;
  repeat (destruct H as [H|H]; [subst r|]); [..|subst r].

Lemma to_lu_digit (r : Z) :
  0 <= r < 10 -> Unsigned.to_lu (Z.to_N r) = dcons r Decimal.Nil.
Proof. intros H. digit_cases r; reflexivity. Qed.

(** The least significant digit of [r + 10 * q] is [r]. *)
Lemma to_lu_step (q r : Z) :
  0 < q -> 0 <= r < 10 ->
  Unsigned.to_lu (Z.to_N (r + 10 * q)) = dcons r (Unsigned.to_lu (Z.to_N q)).
Proof.
  intros Hq Hr.
  replace (Z.to_N (r + 10 * q)) with (Z.to_N r + 10 * Z.to_N q)%N by lia.
  destruct (Z.to_N q) as [|p] eqn:Ep; [lia|].
  rewrite Unsigned.Nadd_alt.
  digit_cases r;
    match goal with
    | |- context [N.to_nat (Z.to_N ?k)] =>
        let n := eval vm_compute in (N.to_nat (Z.to_N k)) in
        change (N.to_nat (Z.to_N k)) with n
    end;
    rewrite ?Unsigned.nat_iter_S, ?Unsigned.nat_iter_0, ?Unsigned.to_lu_succ,
      Unsigned.to_ldec_tenfold;
    reflexivity.
Qed.

Lemma revapp_dcons (r : Z) (d acc : Decimal.uint) :
  Decimal.revapp (dcons r d) acc = Decimal.revapp d (dcons r acc).
Proof.
  unfold dcons.
  destruct r as [|p|p]; try reflexivity.
  destruct p as [[[[|p|]|[|p|]|]|[[|p|]|[|p|]|]|]|[[[|p|]|[|p|]|]|[[|p|]|[|p|]|]|]|];
    reflexivity.
Qed.

(** The entry of the lookup table for the remainder [r] of a division by
    ten is the digit of [|r|], for either sign of [r]. *)
Lemma lut_digit (r : Z) (acc : Decimal.uint) :
  -10 < r < 10 ->
  char_at (lut false) (35 + r) :: uchars acc = uchars (dcons (Z.abs r) acc).
Proof.
  intros H.
  destruct (Z.le_gt_cases 0 r) as [Hs|Hs].
  - rewrite Z.abs_eq by lia. digit_cases r; reflexivity.
  - assert (Ha : exists a, r = - a /\ 0 <= a < 10) by (exists (- r); lia).
    destruct Ha as (a & -> & Ha).
    rewrite Z.abs_opp, Z.abs_eq by lia. digit_cases a; reflexivity.
Qed.

Lemma cast_int32_small (x : Z) : - 2 ^ 31 <= x < 2 ^ 31 -> cast int32_t x = x.
Proof. intros H. unfold cast. rewrite Z.mod_small; lia. Qed.

Lemma uchars_dcons_len (r : Z) (acc : Decimal.uint) :
  len (uchars (dcons r acc)) = len (uchars acc) + 1.
Proof.
  unfold dcons.
  destruct r as [|p|p]; try apply len_cons.
  destruct p as [[[[|p|]|[|p|]|]|[[|p|]|[|p|]|]|]|[[[|p|]|[|p|]|]|[[|p|]|[|p|]|]|]|];
    apply len_cons.
Qed.

(** The do-while loop on a 32-bit value in base ten: it leaves in [buf]
    the decimal digits of [|v|], most significant first, in front of what
    was there, and ends with a [tmp_value] of the sign of [v]. *)
Lemma format_integer_digits_decimal (k : nat) :
  forall (room : nat) (v : Z) (acc : Decimal.uint),
    (S k <= room)%nat -> Z.abs v < 10 ^ Z.of_nat (S k) -> - 2 ^ 31 <= v < 2 ^ 31 ->
    exists tmp,
      format_integer_digits room int32_t false 10 v (uchars acc) =
        Ok (uchars (Decimal.revapp (Unsigned.to_lu (Z.to_N (Z.abs v))) acc), tmp)
      /\ (tmp < 0 <-> v < 0)
      /\ len (uchars (Decimal.revapp (Unsigned.to_lu (Z.to_N (Z.abs v))) acc))
         <= len (uchars acc) + Z.of_nat (S k).
Proof.
  induction k as [|k IH]; intros room v acc Hroom Hv Hrange;
    (destruct room as [|room]; [lia|]); cbn [format_integer_digits];
    pose proof (Z.quot_rem' v 10) as Hqr;
    remember (Z.quot v 10) as q eqn:Hq; remember (Z.rem v 10) as r eqn:Hr;
    assert (Hfacts : -10 < r < 10 /\ Z.abs v = Z.abs r + 10 * Z.abs q /\
                     (q <> 0 -> (q < 0 <-> v < 0)))
      by (subst q r; Z.to_euclidean_division_equations; lia);
    destruct Hfacts as (Hrb & Habs & Hsign); clear Hq Hr;
    rewrite (cast_int32_small q) by lia;
    rewrite (cast_int32_small (q * 10)) by lia;
    replace (v - q * 10) with r by lia;
    rewrite (cast_int32_small r) by lia;
    rewrite lut_digit by lia.
  - (* at most one digit *)
    assert (q = 0) by (change (10 ^ Z.of_nat 1) with 10 in Hv; lia). subst q.
    cbn [Z.eqb]. exists v.
    replace (Z.abs v) with (Z.abs r) by lia.
    rewrite to_lu_digit by lia. cbn [Decimal.revapp].
    rewrite revapp_dcons. cbn [Decimal.revapp].
    split; [reflexivity|]. split; [reflexivity|].
    rewrite uchars_dcons_len. lia.
  - destruct (Z.eqb_spec q 0) as [E|E].
    + subst q. exists v.
      replace (Z.abs v) with (Z.abs r) by lia.
      rewrite to_lu_digit by lia. rewrite revapp_dcons. cbn [Decimal.revapp].
      split; [reflexivity|]. split; [reflexivity|].
      rewrite uchars_dcons_len. lia.
    + assert (Hq' : Z.abs q < 10 ^ Z.of_nat (S k)).
      { replace (Z.of_nat (S (S k))) with (Z.succ (Z.of_nat (S k))) in Hv by lia.
        rewrite Z.pow_succ_r in Hv by lia. lia. }
      destruct (IH room q (dcons (Z.abs r) acc)) as (tmp & Hrun & Htmp & Hlen);
        [lia | exact Hq' | lia |].
      exists tmp. rewrite Hrun.
      rewrite <- revapp_dcons.
      rewrite <- to_lu_step by lia.
      rewrite Habs.
      split; [reflexivity|]. split; [rewrite Htmp; apply Hsign; exact E|].
      rewrite uchars_dcons_len in Hlen.
      rewrite <- revapp_dcons in Hlen. rewrite <- to_lu_step in Hlen by lia.
      lia.
Qed.

Lemma decimal_unfold (v : Z) :
  decimal v =
    if v <? 0
    then "-"%char :: uchars (Decimal.revapp (Unsigned.to_lu (Z.to_N (Z.abs v))) Decimal.Nil)
    else uchars (Decimal.revapp (Unsigned.to_lu (Z.to_N (Z.abs v))) Decimal.Nil).
Proof.
  unfold decimal, uchars. destruct v as [|p|p]; cbn [Z.ltb Z.compare Z.to_int Z.abs Z.to_N].
  - reflexivity.
  - unfold NilZero.string_of_int, NilZero.string_of_uint.
    pose proof (Unsigned.to_uint_nonnil p) as Hnn.
    unfold Pos.to_uint, Decimal.rev in *. cbn [Unsigned.to_lu].
    destruct (Decimal.revapp (Pos.to_little_uint p) Decimal.Nil); [contradiction|..];
      reflexivity.
  - unfold NilZero.string_of_int, NilZero.string_of_uint.
    pose proof (Unsigned.to_uint_nonnil p) as Hnn.
    unfold Pos.to_uint, Decimal.rev in *. cbn [Unsigned.to_lu].
    destruct (Decimal.revapp (Pos.to_little_uint p) Decimal.Nil); [contradiction|..];
      reflexivity.
Qed.

(** [format_integer<int32_t, 10, false>] stores the decimal representation
    of [v] at the destination and returns its length. *)
Lemma format_integer_decimal (mem : list ascii) (destination v : Z) :
  - 2 ^ 31 <= v < 2 ^ 31 -> 0 <= destination -> destination + 11 <= len mem ->
  format_integer int32_t 10 false mem destination v =
    Ok (firstn (Z.to_nat destination) mem ++ decimal v ++
        skipn (Z.to_nat (destination + len (decimal v))) mem, len (decimal v))
  /\ 1 <= len (decimal v) <= 11.
Proof.
  intros Hrange Hd Hroom. unfold format_integer.
  change (cast int32_t 10) with 10.
  assert (Hv : Z.abs v < 10 ^ Z.of_nat 10) by (change (10 ^ Z.of_nat 10) with 10000000000; lia).
  destruct (format_integer_digits_decimal 9 20 v Decimal.Nil) as (tmp & Hrun & Htmp & Hlen);
    [lia | exact Hv | exact Hrange |].
  change (uchars Decimal.Nil) with (@nil ascii) in *.
  change (len (@nil ascii)) with 0 in Hlen.
  rewrite Hrun. cbn [bind]. cbv iota beta.
  set (ds := uchars (Decimal.revapp (Unsigned.to_lu (Z.to_N (Z.abs v))) Decimal.Nil)) in *.
  assert (Hne : 1 <= len ds).
  { unfold ds, uchars.
    destruct (Z.to_N (Z.abs v)) as [|p]; [cbn; lia|].
    pose proof (Unsigned.to_uint_nonnil p) as Hnn.
    unfold Pos.to_uint, Decimal.rev in Hnn. cbn [Unsigned.to_lu].
    destruct (Decimal.revapp (Pos.to_little_uint p) Decimal.Nil); [contradiction|..];
      cbn [NilEmpty.string_of_uint list_ascii_of_string]; rewrite len_cons;
      match goal with |- 1 <= len ?l + 1 => pose proof (len_nonneg l); lia end. }
  rewrite decimal_unfold.
  destruct (Z.ltb_spec tmp 0) as [Hneg|Hpos].
  - assert (Hvneg : v < 0) by (apply Htmp; exact Hneg).
    replace (v <? 0) with true by (symmetry; apply Z.ltb_lt; exact Hvneg).
    replace (len ds <? 20) with true by (symmetry; apply Z.ltb_lt; lia).
    cbn [bind]. fold ds.
    rewrite store_all_in_bounds by (rewrite ?len_cons; lia).
    cbn [bind]. rewrite to_int_small by (rewrite len_cons; lia).
    rewrite len_cons. split; [reflexivity|lia].
  - assert (Hvpos : ~ v < 0) by (intros Hlt; apply Htmp in Hlt; lia).
    replace (v <? 0) with false by (symmetry; apply Z.ltb_ge; lia).
    cbn [bind]. fold ds.
    rewrite store_all_in_bounds by lia.
    cbn [bind]. rewrite to_int_small by lia.
    split; [reflexivity|lia].
Qed.

(** ** One specifier, end to end *)

Lemma terminator_not_nul (letter : ascii) :
  switch_arm letter = Terminator -> letter <> NUL.
Proof. intros H E. subst letter. discriminate H. Qed.

(** [fmt] on a format string that is one two-character specifier: when the
    writer succeeds on the first destination, of 64 bytes, with the text
    [text], that text is the result. *)
Lemma fmt_one_specifier (junk : ascii)
    (render : list ascii -> fmtarg -> option (list ascii)) (k : nat)
    (letter : ascii) (arg : fmtarg) (text argbuf' : list ascii) :
  switch_arm letter = Terminator ->
  Ascii.eqb letter "n" = false ->
  Ascii.eqb letter "q" = false ->
  Ascii.eqb letter "Q" = false ->
  len text < 64 ->
  fmt_output_with_snprintf render (repeat junk 256) 0 letter
    ("%"%char :: repeat junk 15) 1 64 arg
    = Ok (text ++ skipn (Z.to_nat (len text)) (repeat junk 256), argbuf', len text) ->
  fmt junk render (2 + k) ["%"%char; letter] [arg] = Ok text.
Proof.
  intros Harm Hn Hq HQ Hshort Hwriter.
  pose proof (terminator_not_nul letter Harm) as Hnz.
  pose proof (len_nonneg text) as Hlen0.
  unfold fmt, fmt_core_string, fmt_core.
  change (len [arg] =? 0) with false. cbv iota zeta.
  change (2 + k)%nat with (S (S k)).
  set (fmt0 := ["%"%char; letter]).
  set (args0 := [arg] ++ [TNull]).
  (* the '%' *)
  rewrite (scan_step junk render default_context fmt0 (len [arg]) args0 256 (S k) _
             {| at_i := 0; tokenstart := 0; iarg := 0;
                output := StackBuffer_new (repeat junk (Z.to_nat 256)) 256;
                argbuf := repeat junk (Z.to_nat argbuf_arraysize) |});
    [| discriminate | apply scan_body_enters_token; [reflexivity | cbn; lia | reflexivity] ].
  (* the letter *)
  set (out1 := {| Buffer := text ++ skipn (Z.to_nat (len text)) (repeat junk 256);
                  Pos := len text; Capacity := 256; OwnBuffer := false |}).
  rewrite (scan_step junk render default_context fmt0 (len [arg]) args0 256 k _
             {| at_i := 1; tokenstart := -1; iarg := to_ssize_t (0 + 1);
                output := out1; argbuf := argbuf' |}).
  - (* the end of the string, and the final NUL *)
    rewrite scan_at_end by reflexivity. cbn [bind advance output].
    assert (Hok1 : buffer_ok out1).
    { unfold buffer_ok, out1, PTRDIFF_MAX. cbn [Buffer Pos Capacity].
      split; [lia|]. split; [lia|].
      assert (Hrep : len (repeat junk 256) = 256) by reflexivity.
      rewrite len_app, len_skipn; rewrite Hrep; lia. }
    destruct (Add_succeeds junk out1 NUL Hok1) as (out2 & Hadd & _);
      [unfold out1, PTRDIFF_MAX; cbn [Pos]; lia|].
    rewrite Hadd. cbn [bind Str Len].
    apply Add_ok in Hadd; [|assumption].
    destruct Hadd as (Hok2 & HP2 & Hc2 & _).
    rewrite HP2. unfold out1 at 1. cbn [Pos].
    replace (len text + 1 - 1) with (len text) by lia.
    rewrite to_size_t_small by lia.
    f_equal.
    assert (Hc1 : contents out1 = text).
    { unfold contents, out1. cbn [Buffer Pos].
      apply firstn_app_exact. unfold len. lia. }
    rewrite Hc1 in Hc2. unfold contents in Hc2. rewrite HP2 in Hc2.
    unfold out1 in Hc2 at 1. cbn [Pos] in Hc2.
    replace (firstn (Z.to_nat (len text)) (Buffer out2))
      with (firstn (Z.to_nat (len text)) (firstn (Z.to_nat (len text + 1)) (Buffer out2))).
    + rewrite Hc2. apply firstn_app_exact. unfold len. lia.
    + rewrite firstn_firstn. f_equal. lia.
  - cbn. exact Hnz.
  - rewrite scan_body_accepts;
      [| cbn; discriminate | exact Harm | exact Hn | exact Hq | exact HQ | reflexivity
       | cbn; unfold argbuf_arraysize; lia ].
    unfold advance. cbn [at_i tokenstart iarg output argbuf].
    change (copy_token fmt0 (Z.to_nat (0 + 1 - 0)) 0
              (repeat junk (Z.to_nat argbuf_arraysize)) 0)
      with (@Ok (list ascii * Z) ("%"%char :: repeat junk 15, 1)).
    cbn [bind]. cbv iota beta.
    change (to_ssize_t (initial_sprintf_guessed_size 256)) with 64.
    change (nth (Z.to_nat 0) args0 TNull) with arg.
    change (char_at fmt0 (0 + 1)) with letter.
    cbn [grow_output].
    change (AddUninitialized junk (StackBuffer_new (repeat junk (Z.to_nat 256)) 256)
              (to_size_t 64))
      with (@Ok (Z * StackBuffer)
              (0, {| Buffer := repeat junk 256; Pos := 64; Capacity := 256;
                     OwnBuffer := false |})).
    cbn [bind]. cbv iota beta. cbn [Buffer Pos Capacity OwnBuffer].
    unfold call_writer. cbv iota.
    change (to_size_t 1) with 1. change (to_size_t 64) with 64.
    rewrite Hwriter. cbn [bind]. cbv iota beta.
    replace ((len text >=? 0) && (len text <? 64)) with true
      by (symmetry; apply andb_true_iff; split;
          [destruct (Z.geb_spec (len text) 0); [reflexivity|lia] | apply Z.ltb_lt; lia]).
    cbv iota.
    replace (len text - 64) with (- (64 - len text)) by lia.
    rewrite MoveCurrentPos_eq by (cbn [Pos Capacity]; unfold PTRDIFF_MAX; lia).
    cbn [bind Buffer Pos Capacity OwnBuffer].
    replace (64 - (64 - len text)) with (len text) by lia.
    reflexivity.
Qed.

Lemma uchars_digits (d : Decimal.uint) : Forall (fun c => is_digit c = true) (uchars d).
Proof.
  unfold uchars.
  induction d; cbn [NilEmpty.string_of_uint list_ascii_of_string]; constructor;
    try reflexivity; assumption.
Qed.

Lemma decimal_sign (v : Z) :
  decimal v = if v <? 0 then "-"%char :: decimal (Z.abs v) else decimal (Z.abs v).
Proof.
  rewrite (decimal_unfold (Z.abs v)), (decimal_unfold v).
  rewrite Z.abs_idemp.
  replace (Z.abs v <? 0) with false
    by (symmetry; apply Z.ltb_ge; apply Z.abs_nonneg).
  reflexivity.
Qed.

Lemma decimal_abs_digits (v : Z) : Forall (fun c => is_digit c = true) (decimal (Z.abs v)).
Proof.
  rewrite decimal_unfold. rewrite Z.abs_idemp.
  replace (Z.abs v <? 0) with false
    by (symmetry; apply Z.ltb_ge; apply Z.abs_nonneg).
  apply uchars_digits.
Qed.

(** The dispatch of "%d" on a 32-bit signed cell, on the first
    destination that [fmt] offers. *)
Lemma dispatch_percent_d_int32 (junk : ascii)
    (render : list ascii -> fmtarg -> option (list ascii)) (v : Z) :
  - 2 ^ 31 <= v < 2 ^ 31 ->
  fmt_output_with_snprintf render (repeat junk 256) 0 "d"
    ("%"%char :: repeat junk 15) 1 64 (TI32 v)
    = Ok (decimal v ++ skipn (Z.to_nat (len (decimal v))) (repeat junk 256),
          "%"%char :: "d"%char :: NUL :: repeat junk 13, len (decimal v)).
Proof.
  intros Hrange. unfold fmt_output_with_snprintf. cbv zeta.
  change (Ascii.eqb "d" "c") with false. change (tokenint_of "d") with true. cbv iota.
  change (repeat junk 15) with (junk :: junk :: repeat junk 13).
  rewrite fmt_settype_after_percent. cbn [bind].
  rewrite cast_int32_small by exact Hrange.
  unfold format_int32.
  change (char_at ("%"%char :: "d"%char :: NUL :: repeat junk 13) 1) with "d"%char.
  cbv iota. change (64 >=? 11) with true. cbv iota.
  destruct (format_integer_decimal (repeat junk 256) 0 v Hrange) as [E _];
    [lia | change (len (repeat junk 256)) with 256; lia |].
  rewrite E. reflexivity.
Qed.

(** C8. For every 32-bit signed integer [v], [fmt("%d", v)] returns the
    decimal representation of [v]: a '-' followed by the digits of [|v|]
    when [v] is negative (the least value included), and the digits alone,
    with no sign, otherwise. *)
Theorem fmt_percent_d_is_decimal :
  forall (junk : ascii) (render : list ascii -> fmtarg -> option (list ascii))
         (k : nat) (v : Z),
    - 2 ^ 31 <= v < 2 ^ 31 ->
    fmt junk render (2 + k) (chars "%d") [TI32 v] = Ok (decimal v)
    /\ decimal v = (if v <? 0 then "-"%char :: decimal (Z.abs v) else decimal (Z.abs v))
    /\ Forall (fun c => is_digit c = true) (decimal (Z.abs v)).
Proof.
  intros junk render k v Hrange.
  split; [|split; [apply decimal_sign | apply decimal_abs_digits]].
  destruct (format_integer_decimal (repeat junk 256) 0 v Hrange) as [_ Hlen];
    [lia | change (len (repeat junk 256)) with 256; lia |].
  apply (fmt_one_specifier junk render k "d" (TI32 v) (decimal v)
           ("%"%char :: "d"%char :: NUL :: repeat junk 13));
    try reflexivity; [lia|].
  apply dispatch_percent_d_int32. exact Hrange.
Qed.

Lemma fmt_percent_d_is_decimal_witness :
  fmt "?"%char render_nothing (2 + 0) (chars "%d") [TI32 (-2147483648)]
    = Ok (decimal (-2147483648))
  /\ decimal (-2147483648)
     = (if -2147483648 <? 0 then "-"%char :: decimal (Z.abs (-2147483648))
        else decimal (Z.abs (-2147483648)))
  /\ Forall (fun c => is_digit c = true) (decimal (Z.abs (-2147483648))).
Proof.
  apply (fmt_percent_d_is_decimal "?"%char render_nothing 0 (-2147483648)).
  lia.
Defined.

(** ** Where the rewriting of the specifier goes wrong *)

(** C6. The rewriting of the specifier goes wrong in two ways. First,
    [fmt_settype] steps back over one character of a length modifier: of
    "%lld" on a narrow string it makes "%ls", a wide-string conversion,
    and hands it with the narrow string to the general primitive, where
    the rule for the narrow string is "%s". Second, every retry of the
    grow-and-retry loop rewrites the specifier that the attempt before it
    has rewritten: of "%ld" on a 32-bit cell the first attempt makes "%d"
    and the second "%dd". So in a region of 16 bytes, where the first
    destination has four bytes, "%ld" on 12345 comes out as "12345d",
    while "%d" on 12345 comes out as "12345". *)
Theorem specifier_rewriting_goes_wrong :
  (forall (junk : ascii) (render : list ascii -> fmtarg -> option (list ascii))
          (mem : list ascii) (outbuf outputSize : Z) (s : list ascii),
     fmt_output_with_snprintf render mem outbuf "d" (chars "%ll" ++ repeat junk 13) 3
       outputSize (TCStr s)
     = ('(mem', r) <- fmt_snprintf render mem outbuf outputSize
                        (chars "%ls" ++ NUL :: repeat junk 12) (TCStr s) ;;
        Ok (mem', chars "%ls" ++ NUL :: repeat junk 12, r)))
  /\ (forall junk : ascii,
        fmt_settype (chars "%l" ++ repeat junk 14) 2 (Some []) "d"
          = Ok (chars "%d" ++ NUL :: repeat junk 13)
        /\ fmt_settype (chars "%d" ++ NUL :: repeat junk 13) 2 (Some []) "d"
          = Ok (chars "%dd" ++ NUL :: repeat junk 12))
  /\ (forall k : nat,
        fmt_buf "?"%char render_decimal (4 + k) default_context (repeat "?"%char 16) 16
          (chars "%ld") [TI32 12345]
        = Ok {| Str := chars "12345d" ++ NUL :: repeat "?"%char 9; Len := 6;
                Str_block := StaticBuf |})
  /\ (forall k : nat,
        fmt_buf "?"%char render_decimal (4 + k) default_context (repeat "?"%char 16) 16
          (chars "%d") [TI32 12345]
        = Ok {| Str := chars "12345" ++ NUL :: repeat "?"%char 10; Len := 5;
                Str_block := StaticBuf |}).
Proof.
  split; [|split; [|split]].
  - intros junk render mem outbuf outputSize s. reflexivity.
  - intros junk. split; reflexivity.
  - intros k. reflexivity.
  - intros k. reflexivity.
Qed.

(** ** Stores in closed form *)

Lemma splice_len (mem : list ascii) (offset : Z) (bytes : list ascii) :
  0 <= offset -> offset + len bytes <= len mem -> len (splice mem offset bytes) = len mem.
Proof.
  intros H0 H1. pose proof (len_nonneg bytes). unfold splice.
  rewrite !len_app, len_firstn, len_skipn by lia. lia.
Qed.

Lemma splice_before (mem : list ascii) (offset : Z) (bytes : list ascii) :
  0 <= offset <= len mem ->
  firstn (Z.to_nat offset) (splice mem offset bytes) = firstn (Z.to_nat offset) mem.
Proof.
  intros H. unfold splice. apply firstn_app_exact.
  rewrite length_firstn. unfold len in *. lia.
Qed.

Lemma splice_at (mem : list ascii) (offset : Z) (bytes : list ascii) :
  0 <= offset <= len mem ->
  firstn (List.length bytes) (skipn (Z.to_nat offset) (splice mem offset bytes)) = bytes.
Proof.
  intros H. unfold splice. rewrite skipn_app.
  rewrite skipn_all2 by (rewrite length_firstn; unfold len in *; lia).
  rewrite length_firstn.
  replace (Z.to_nat offset - Init.Nat.min (Z.to_nat offset) (List.length mem))%nat with O
    by (unfold len in *; lia).
  cbn [app skipn]. apply firstn_app_exact. reflexivity.
Qed.

Lemma splice_after (mem : list ascii) (offset : Z) (bytes : list ascii) (k : Z) :
  0 <= offset -> offset + len bytes <= k -> k <= len mem ->
  skipn (Z.to_nat k) (splice mem offset bytes) = skipn (Z.to_nat k) mem.
Proof.
  intros H0 H1 H2. pose proof (len_nonneg bytes) as Hb. unfold splice.
  rewrite app_assoc, skipn_app.
  rewrite skipn_all2
    by (rewrite length_app, length_firstn; unfold len in *; lia).
  cbn [app]. rewrite skipn_skipn. f_equal.
  rewrite length_app, length_firstn. unfold len in *. lia.
Qed.

Lemma store_all_splice (cs : list ascii) (a : list ascii) (i : Z) :
  0 <= i -> i + len cs <= len a -> store_all a i cs = Ok (splice a i cs).
Proof. intros. unfold splice. apply store_all_in_bounds; assumption. Qed.

(** ** Further properties of the single steps *)

Section StepFacts.

Variable junk : ascii.
Variable render : list ascii -> fmtarg -> option (list ascii).
Variable cx : context.
Variable fmt : list ascii.
Variable nargs : Z.
Variable args : list fmtarg.
Variable staticbuf_size : Z.

(** Inside a token, a terminator that is refused copies the token to the
    output. *)
Lemma scan_body_refuses (fuel : nat) (st : scanner) :
  tokenstart st <> -1 ->
  switch_arm (char_at fmt (at_i st)) = Terminator ->
  0 <= at_i st - tokenstart st < 2 ^ 63 ->
  nargs <= iarg st \/ argbuf_arraysize - 1 <= at_i st - tokenstart st
  \/ (char_at fmt (at_i st) = "q"%char /\ Escape_q cx = None)
  \/ (char_at fmt (at_i st) = "Q"%char /\ Escape_Q cx = None) ->
  scan_body junk render cx fmt nargs args staticbuf_size fuel st =
    (output <- add_token junk fmt (Z.to_nat (at_i st - tokenstart st + 1)) (tokenstart st)
                 (output st) ;;
     Ok (false, {| at_i := at_i st; tokenstart := -1; iarg := iarg st;
                   output := output; argbuf := argbuf st |})).
Proof.
  intros Hts Harm Hlen Hwhy. unfold scan_body.
  replace (tokenstart st =? -1) with false by (symmetry; apply Z.eqb_neq; exact Hts).
  cbn [negb]. cbv iota. rewrite Harm. cbv iota zeta.
  rewrite (to_size_t_small (at_i st - tokenstart st)) by lia.
  unfold argbuf_arraysize in *. change (to_size_t (16 - 1)) with 15.
  destruct (Z.geb_spec (iarg st) nargs) as [Ha|Ha]; [reflexivity|].
  destruct (Z.geb_spec (at_i st - tokenstart st) 15) as [Hl|Hl]; [reflexivity|].
  cbn [orb].
  destruct Hwhy as [H|[H|[[Hc Hh]|[Hc Hh]]]]; try lia; rewrite Hc, Hh.
  - change (Ascii.eqb "q" "q") with true. change (Ascii.eqb "q" "Q") with false.
    reflexivity.
  - change (Ascii.eqb "Q" "Q") with true. change (Ascii.eqb "Q" "q") with false.
    cbn [andb]. cbv iota.
    destruct (Escape_q cx); reflexivity.
Qed.

(** The characters that [copy_token] leaves in [argbuf] are those of the
    token that are not '*'. *)
Lemma copy_token_eq (n : nat) :
  forall (j : Z) (argbuf : list ascii) (argbufsize : Z),
    0 <= argbufsize -> argbufsize + Z.of_nat n <= len argbuf ->
    copy_token fmt n j argbuf argbufsize =
      Ok (splice argbuf argbufsize (without_stars (chars_from fmt j n)),
          argbufsize + len (without_stars (chars_from fmt j n))).
Proof.
  induction n as [|n IH]; intros j argbuf argbufsize Hk Hroom.
  - cbn [copy_token chars_from without_stars filter]. unfold splice.
    change (len (@nil ascii)) with 0. rewrite !Z.add_0_r. cbn [app].
    rewrite firstn_skipn. reflexivity.
  - cbn [copy_token chars_from]. unfold without_stars. cbn [filter].
    fold (without_stars (chars_from fmt (j + 1) n)).
    destruct (Ascii.eqb (char_at fmt j) "*") eqn:Hstar; cbn [negb].
    + apply IH; lia.
    + rewrite store_in_bounds by lia. cbn [bind].
      assert (Hl : len (firstn (Z.to_nat argbufsize) argbuf ++
                        char_at fmt j :: skipn (S (Z.to_nat argbufsize)) argbuf) = len argbuf).
      { rewrite len_app, len_cons, len_firstn by lia.
        replace (S (Z.to_nat argbufsize)) with (Z.to_nat (argbufsize + 1)) by lia.
        rewrite len_skipn by lia. lia. }
      rewrite IH by lia.
      pose proof (len_nonneg (without_stars (chars_from fmt (j + 1) n))) as Hw.
      f_equal. f_equal; [|rewrite len_cons; lia].
      unfold splice. rewrite len_cons.
      replace (Z.to_nat (argbufsize + 1)) with (S (Z.to_nat argbufsize)) by lia.
      rewrite firstn_app_one by (rewrite length_firstn; unfold len in *; lia).
      rewrite <- app_assoc. cbn [app]. f_equal. f_equal. f_equal.
      rewrite skipn_app.
      rewrite (skipn_all2 (firstn _ _)) by (rewrite length_firstn; unfold len in *; lia).
      cbn [app]. rewrite length_firstn.
      replace (Z.to_nat (argbufsize + 1 + len (without_stars (chars_from fmt (j + 1) n))) -
               Init.Nat.min (Z.to_nat argbufsize) (List.length argbuf))%nat
        with (S (Z.to_nat (len (without_stars (chars_from fmt (j + 1) n)))))
        by (unfold len in *; lia).
      rewrite skipn_cons, skipn_skipn. f_equal. unfold len in *. lia.
Qed.

End StepFacts.

(** X1. A specifier that ends in a terminator letter is copied to the
    output as it stands, and takes no argument, in each of these cases: no
    argument is left for it, fifteen or more characters precede its letter,
    or its letter is q or Q and the context has no hook for it. *)
Theorem refused_specifier_copied_literally :
  forall (junk : ascii) (render : list ascii -> fmtarg -> option (list ascii))
         (cx : context) (fmt : list ascii) (nargs : Z) (args : list fmtarg)
         (staticbuf_size : Z) (fuel : nat) (st : scanner),
    0 <= tokenstart st <= at_i st -> at_i st < len fmt ->
    switch_arm (char_at fmt (at_i st)) = Terminator ->
    nargs <= iarg st \/ argbuf_arraysize - 1 <= at_i st - tokenstart st
    \/ (char_at fmt (at_i st) = "q"%char /\ Escape_q cx = None)
    \/ (char_at fmt (at_i st) = "Q"%char /\ Escape_Q cx = None) ->
    buffer_ok (output st) ->
    2 * (Pos (output st) + (at_i st - tokenstart st + 1)) <= PTRDIFF_MAX ->
    token_copied fmt st
      (scan_body junk render cx fmt nargs args staticbuf_size fuel st).
Proof.
  intros junk render cx fmt nargs args staticbuf_size fuel st Hts Hi Harm Hwhy Hok Hroom.
  pose proof Hok as (Hp & _). unfold PTRDIFF_MAX in Hroom.
  rewrite scan_body_refuses by (assumption || lia).
  destruct (add_token_succeeds junk fmt (Z.to_nat (at_i st - tokenstart st + 1))
              (tokenstart st) (output st) Hok) as [output' E]; [unfold PTRDIFF_MAX; lia|].
  exists output'. rewrite E. cbn [bind]. split; [reflexivity|].
  apply add_token_ok in E; [|assumption]. destruct E as (Hok' & Hc & _).
  split; [|assumption].
  rewrite Hc. unfold token_text. rewrite chars_from_slice by lia. reflexivity.
Qed.

Lemma refused_specifier_copied_literally_witness :
  token_copied (chars "%d %d")
    {| at_i := 4; tokenstart := 3; iarg := 1; output := sample_buffer;
       argbuf := repeat "?"%char 16 |}
    (scan_body "?"%char render_nothing default_context (chars "%d %d") 1 [TI32 5] 256 1
       {| at_i := 4; tokenstart := 3; iarg := 1; output := sample_buffer;
          argbuf := repeat "?"%char 16 |})
  /\ fmt "?"%char render_nothing 7 (chars "%d %d") [TI32 5] = Ok (chars "5 %d")
  /\ fmt "?"%char render_nothing 20 (chars "%00000000000000d") [TI32 5]
     = Ok (chars "%00000000000000d")
  /\ fmt "?"%char render_nothing 5 (chars "%q") [TI32 5] = Ok (chars "%q").
Proof.
  split; [|repeat split; reflexivity].
  apply (refused_specifier_copied_literally "?"%char render_nothing default_context
           (chars "%d %d") 1 [TI32 5] 256 1
           {| at_i := 4; tokenstart := 3; iarg := 1; output := sample_buffer;
              argbuf := repeat "?"%char 16 |}).
  - cbn. lia.
  - reflexivity.
  - reflexivity.
  - left. cbn. lia.
  - unfold buffer_ok, PTRDIFF_MAX. cbn. lia.
  - unfold PTRDIFF_MAX. cbn. lia.
Defined.

(** X2. Inside a specifier a '%' ends it with a single '%' in the output:
    the characters between the two '%' are dropped and no argument is
    taken. *)
Theorem percent_closes_specifier :
  forall (junk : ascii) (render : list ascii -> fmtarg -> option (list ascii))
         (cx : context) (fmt : list ascii) (nargs : Z) (args : list fmtarg)
         (staticbuf_size : Z) (fuel : nat) (st : scanner),
    tokenstart st <> -1 ->
    char_at fmt (at_i st) = "%"%char ->
    buffer_ok (output st) ->
    2 * (Pos (output st) + 1) <= PTRDIFF_MAX ->
    exists output',
      scan_body junk render cx fmt nargs args staticbuf_size fuel st =
        Ok (false, {| at_i := at_i st; tokenstart := -1; iarg := iarg st;
                      output := output'; argbuf := argbuf st |})
      /\ contents output' = contents (output st) ++ ["%"%char]
      /\ buffer_ok output'.
Proof.
  intros junk render cx fmt nargs args staticbuf_size fuel st Hts Hc Hok Hroom.
  rewrite scan_body_percent_arm by assumption.
  destruct (Add_succeeds junk (output st) "%"%char Hok Hroom) as (output' & E & _).
  exists output'. rewrite E. cbn [bind]. split; [reflexivity|].
  apply Add_ok in E; [|assumption]. destruct E as (Hok' & _ & Hcont & _).
  split; assumption.
Qed.

Lemma percent_closes_specifier_witness :
  (exists output',
     scan_body "?"%char render_nothing default_context (chars "%5%") 1 [TI32 5] 256 1
       (sample_in_token 2) =
       Ok (false, {| at_i := 2; tokenstart := -1; iarg := 0;
                     output := output'; argbuf := repeat "?"%char 16 |})
     /\ contents output' = contents sample_buffer ++ ["%"%char]
     /\ buffer_ok output')
  /\ fmt "?"%char render_nothing 9 (chars "%d%%") [TI32 5] = Ok (chars "5%")
  /\ fmt "?"%char render_nothing 9 (chars "%-8%|%d") [TI32 5] = Ok (chars "%|5").
Proof.
  split; [|split; reflexivity].
  apply (percent_closes_specifier "?"%char render_nothing default_context (chars "%5%") 1
           [TI32 5] 256 1 (sample_in_token 2)).
  - cbn. discriminate.
  - reflexivity.
  - unfold buffer_ok, PTRDIFF_MAX. cbn. lia.
  - unfold PTRDIFF_MAX. cbn. lia.
Defined.

(** X3. Copying an accepted specifier into the scratch array leaves out
    every '*' and keeps the other characters in their order; with room for
    as many characters as the token has, no store leaves the array. *)
Theorem copy_token_drops_stars :
  forall (fmt : list ascii) (n : nat) (j : Z) (argbuf : list ascii),
    Z.of_nat n <= len argbuf ->
    copy_token fmt n j argbuf 0 =
      Ok (splice argbuf 0 (without_stars (chars_from fmt j n)),
          len (without_stars (chars_from fmt j n)))
    /\ Forall (fun c => c <> "*"%char) (without_stars (chars_from fmt j n))
    /\ len (without_stars (chars_from fmt j n)) <= Z.of_nat n.
Proof.
  intros fmt n j argbuf Hroom. split; [|split].
  - rewrite copy_token_eq by lia. reflexivity.
  - unfold without_stars. apply Forall_forall. intros c Hin.
    apply filter_In in Hin. destruct Hin as [_ Hc].
    intros ->. discriminate Hc.
  - unfold without_stars, len.
    pose proof (filter_length_le (fun c => negb (Ascii.eqb c "*")) (chars_from fmt j n)) as H.
    assert (Hn : List.length (chars_from fmt j n) = n).
    { clear. revert j. induction n as [|n IH]; intros j; cbn [chars_from List.length];
        [reflexivity | rewrite IH; reflexivity]. }
    lia.
Qed.

Lemma copy_token_drops_stars_witness :
  (copy_token (chars "%*5d") 3 0 (repeat "?"%char 16) 0 =
     Ok (splice (repeat "?"%char 16) 0 (chars "%5"), 2)
   /\ Forall (fun c => c <> "*"%char) (chars "%5")
   /\ 2 <= 3)
  /\ fmt "?"%char render_nothing 9 (chars "%*d") [TI32 7] = Ok (chars "7").
Proof.
  split; [|reflexivity].
  apply (copy_token_drops_stars (chars "%*5d") 3 0 (repeat "?"%char 16)).
  vm_compute. discriminate.
Defined.

(** ** The output buffer, step by step *)

(** [Add] appends the character to the bytes appended so far and
    keeps the buffer well formed. While there is room the block stays the
    same; when the buffer is full the bytes move to a new block of twice
    the capacity (of one byte when the capacity was zero). The only way
    for [Add] to fail is that this block cannot be allocated. *)
Lemma Add_appends :
  forall (junk : ascii) (b : StackBuffer) (c : ascii),
    buffer_ok b ->
    match Add junk b c with
    | Ok b' =>
        contents b' = contents b ++ [c] /\ buffer_ok b'
        /\ (Pos b < Capacity b -> Capacity b' = Capacity b /\ OwnBuffer b' = OwnBuffer b)
        /\ (Pos b = Capacity b ->
            Capacity b' = Z.max (2 * Capacity b) 1 /\ OwnBuffer b' = true)
    | Fault f => f = BadAlloc /\ Pos b = Capacity b /\ PTRDIFF_MAX < 2 * Capacity b
    | NoFuel => False
    end.
Proof.
  intros junk b c Hok.
  pose proof (Add_quiet junk b c) as Hq.
  unfold Add, AddUninitialized in *. rewrite Reserve_eq in * by (assumption || lia).
  pose proof Hok as (Hp & Hcap & Hl). unfold PTRDIFF_MAX in *.
  assert (Hcl : len (contents b) = Pos b) by (unfold contents; apply len_firstn; lia).
  destruct (Z.gtb_spec (Pos b + 1) (Capacity b)) as [Hg|Hg]; cbv zeta in *.
  - replace (Z.max (2 * Capacity b) (Pos b + 1)) with (Z.max (2 * Capacity b) 1) in * by lia.
    set (ncap := Z.max (2 * Capacity b) 1) in *.
    destruct (Z.leb_spec ncap (2 ^ 63 - 1)) as [Hfit|Hfit].
    + cbn [bind Buffer Pos Capacity OwnBuffer].
      rewrite to_size_t_small by lia.
      assert (Hnl : len (contents b ++ skipn (Z.to_nat (Pos b)) (repeat junk (Z.to_nat ncap)))
                    = ncap).
      { rewrite len_app, Hcl, len_skipn; rewrite ?len_repeat; lia. }
      rewrite store_in_bounds by lia. cbn [bind Capacity OwnBuffer].
      split.
      * unfold contents at 1. cbn [Buffer Pos].
        rewrite (firstn_app_exact (Z.to_nat (Pos b)) (contents b))
          by (unfold len in Hcl; lia).
        apply firstn_app_one. unfold len in Hcl. lia.
      * split.
        -- unfold buffer_ok, PTRDIFF_MAX. cbn [Buffer Pos Capacity]. split; [lia|]. split; [lia|].
           rewrite len_app, len_cons, len_firstn by lia.
           replace (S (Z.to_nat (Pos b))) with (Z.to_nat (Pos b + 1)) by lia.
           rewrite len_skipn by lia. lia.
        -- split; [intros; exfalso; lia | intros; split; reflexivity].
    + cbn [bind]. split; [reflexivity|]. unfold ncap in Hfit. lia.
  - cbn [bind Buffer Pos Capacity OwnBuffer].
    rewrite to_size_t_small by lia.
    rewrite store_in_bounds by lia. cbn [bind Capacity OwnBuffer].
    split.
    + unfold contents. cbn [Buffer Pos].
      apply firstn_app_one. rewrite length_firstn. unfold len in *. lia.
    + split.
      * unfold buffer_ok, PTRDIFF_MAX. cbn [Buffer Pos Capacity]. split; [lia|]. split; [lia|].
        rewrite len_app, len_cons, len_firstn by lia.
        replace (S (Z.to_nat (Pos b))) with (Z.to_nat (Pos b + 1)) by lia.
        rewrite len_skipn by lia. lia.
      * split; [intros; split; reflexivity | intros; exfalso; lia].
Qed.


(** Space taken with [AddUninitialized] is given back with
    [MoveCurrentPos] and a negative distance converted to [size_t]: after
    [AddUninitialized(n)], a writer that fills the new space, and
    [MoveCurrentPos(w - n)], exactly the first [w] of the [n] bytes stay
    appended behind the earlier contents, and the [assert] holds. *)
Lemma reserve_then_give_back :
  forall (junk : ascii) (b : StackBuffer) (n w p : Z) (b1 : StackBuffer) (mem : list ascii),
    buffer_ok b -> 0 <= w <= n -> n < 2 ^ 62 ->
    AddUninitialized junk b n = Ok (p, b1) ->
    len mem = len (Buffer b1) ->
    firstn (Z.to_nat p) mem = firstn (Z.to_nat p) (Buffer b1) ->
    exists b2,
      MoveCurrentPos {| Buffer := mem; Pos := Pos b1; Capacity := Capacity b1;
                        OwnBuffer := OwnBuffer b1 |} (to_size_t (w - n)) = Ok b2
      /\ Pos b2 = Pos b + w
      /\ contents b2 = contents b ++ firstn (Z.to_nat w) (skipn (Z.to_nat p) mem)
      /\ buffer_ok b2.
Proof.
  intros junk b n w p b1 mem Hok Hw Hn E Hlen Hpre.
  apply AddUninitialized_ok in E; [|assumption|lia].
  destruct E as ((Hp1 & Hc1 & Hl1) & -> & HP1 & Hcont & _).
  destruct Hok as (Hp & Hc & Hl).
  replace (w - n) with (- (n - w)) by lia.
  rewrite MoveCurrentPos_eq by (cbn [Pos Capacity]; lia).
  eexists. split; [reflexivity|]. cbn [Pos Buffer Capacity].
  split; [lia|]. split.
  - unfold contents at 1. cbn [Pos Buffer].
    replace (Pos b1 - (n - w)) with (Pos b + w) by lia.
    replace (Z.to_nat (Pos b + w)) with (Z.to_nat (Pos b) + Z.to_nat w)%nat by lia.
    rewrite <- (firstn_skipn (Z.to_nat (Pos b)) mem) at 1.
    rewrite firstn_app, firstn_firstn.
    replace (Init.Nat.min (Z.to_nat (Pos b) + Z.to_nat w) (Z.to_nat (Pos b)))
      with (Z.to_nat (Pos b)) by lia.
    rewrite Hpre, Hcont. f_equal.
    f_equal.
    assert (Hcl : len (contents b) = Pos b) by (unfold contents; apply len_firstn; lia).
    unfold len in Hcl. lia.
  - unfold buffer_ok. cbn [Pos Buffer Capacity]. lia.
Qed.

(** ** The platform primitive and the output buffer *)

(** X4. [fmt_snprintf] on a destination of [count] bytes inside [mem]
    returns -1 or a length below [count]. A length is returned only when
    the platform produced a text, of that length, and then the destination
    holds the whole text followed by a NUL. The result is -1 when the
    platform reports an error or the text with its NUL does not fit (or is
    longer than [INT_MAX]). No byte outside the destination changes. *)
Theorem fmt_snprintf_contract :
  forall (render : list ascii -> fmtarg -> option (list ascii)) (mem : list ascii)
         (destination count : Z) (format_str : list ascii) (arg : fmtarg),
    0 <= destination -> 0 <= count < 2 ^ 63 -> destination + count <= len mem ->
    exists (mem' : list ascii) (r : Z),
      fmt_snprintf render mem destination count format_str arg = Ok (mem', r)
      /\ len mem' = len mem
      /\ firstn (Z.to_nat destination) mem' = firstn (Z.to_nat destination) mem
      /\ skipn (Z.to_nat (destination + count)) mem'
         = skipn (Z.to_nat (destination + count)) mem
      /\ (r = -1 \/ 0 <= r < count)
      /\ (r <> -1 ->
          exists text, render (c_str format_str) arg = Some text /\ len text = r
                       /\ mem' = splice mem destination (text ++ [NUL]))
      /\ (r = -1 ->
          forall text, render (c_str format_str) arg = Some text ->
                       count <= len text \/ INT_MAX < len text).
Proof.
  intros render mem destination count format_str arg Hd Hc Hroom.
  unfold fmt_snprintf, vsnprintf.
  destruct (render (c_str format_str) arg) as [text|] eqn:Hr.
  2:{ exists mem, (-1). cbn [bind].
      change (fmt_translate_snprintf_return_value (-1) count) with (-1).
      split; [reflexivity|]. split; [reflexivity|]. split; [reflexivity|].
      split; [reflexivity|]. split; [left; reflexivity|].
      split; [intros H; contradiction | intros _ text Ht; discriminate]. }
  pose proof (len_nonneg text) as Ht.
  set (r0 := if len text <=? INT_MAX then len text else -1).
  assert (Htr : fmt_translate_snprintf_return_value r0 count =
                if (len text <=? INT_MAX) && (len text <? count) then len text else -1).
  { unfold fmt_translate_snprintf_return_value, r0, INT_MAX.
    destruct (Z.leb_spec (len text) (2 ^ 31 - 1)) as [Hs|Hs]; cbn [andb].
    - rewrite to_size_t_small by lia.
      replace (len text <? 0) with false by (symmetry; apply Z.ltb_ge; lia).
      cbn [orb]. destruct (Z.geb_spec (len text) count); destruct (Z.ltb_spec (len text) count);
        try reflexivity; lia.
    - reflexivity. }
  destruct (Z.eqb_spec count 0) as [Hz|Hz].
  - exists mem, (-1). cbn [bind]. rewrite Htr.
    replace (len text <? count) with false by (symmetry; apply Z.ltb_ge; lia).
    rewrite andb_false_r.
    split; [reflexivity|]. split; [reflexivity|]. split; [reflexivity|].
    split; [reflexivity|]. split; [left; reflexivity|].
    split; [intros H; contradiction|].
    intros _ text' Ht'. left. inversion Ht'. subst. lia.
  - set (bytes := firstn (Z.to_nat (count - 1)) text ++ [NUL]).
    assert (Hbl : len bytes = Z.min (count - 1) (len text) + 1).
    { unfold bytes. rewrite len_app. change (len [NUL]) with 1.
      unfold len. rewrite length_firstn. unfold len in Ht. lia. }
    rewrite store_all_splice by lia. cbn [bind]. rewrite Htr.
    exists (splice mem destination bytes).
    exists (if (len text <=? INT_MAX) && (len text <? count) then len text else -1).
    split; [reflexivity|]. split; [apply splice_len; lia|].
    split; [apply splice_before; lia|].
    split; [apply splice_after; lia|].
    destruct (Z.leb_spec (len text) INT_MAX) as [Hs|Hs];
      destruct (Z.ltb_spec (len text) count) as [Hf|Hf]; cbn [andb].
    + split; [right; lia|]. split.
      * intros _. exists text. split; [reflexivity|]. split; [reflexivity|].
        unfold bytes. rewrite firstn_all2 by (unfold len in *; lia). reflexivity.
      * intros H; lia.
    + split; [left; reflexivity|]. split; [intros H; contradiction|].
      intros _ text' Ht'. inversion Ht'; subst. left; lia.
    + split; [left; reflexivity|]. split; [intros H; contradiction|].
      intros _ text' Ht'. inversion Ht'; subst. right; lia.
    + split; [left; reflexivity|]. split; [intros H; contradiction|].
      intros _ text' Ht'. inversion Ht'; subst. right; lia.
Qed.

Lemma fmt_snprintf_contract_witness :
  (exists (mem' : list ascii) (r : Z),
     fmt_snprintf render_sample (repeat "?"%char 8) 2 6 (chars "%g") (TDbl 0) = Ok (mem', r)
     /\ len mem' = len (repeat "?"%char 8)
     /\ firstn (Z.to_nat 2) mem' = firstn (Z.to_nat 2) (repeat "?"%char 8)
     /\ skipn (Z.to_nat (2 + 6)) mem' = skipn (Z.to_nat (2 + 6)) (repeat "?"%char 8)
     /\ (r = -1 \/ 0 <= r < 6)
     /\ (r <> -1 ->
         exists text, render_sample (c_str (chars "%g")) (TDbl 0) = Some text /\ len text = r
                      /\ mem' = splice (repeat "?"%char 8) 2 (text ++ [NUL]))
     /\ (r = -1 ->
         forall text, render_sample (c_str (chars "%g")) (TDbl 0) = Some text ->
                      6 <= len text \/ INT_MAX < len text))
  /\ fmt_snprintf render_sample (repeat "?"%char 8) 2 6 (chars "%g") (TDbl 0)
     = Ok (chars "??12.5" ++ [NUL; "?"%char], 4)
  /\ fmt_snprintf render_sample (repeat "?"%char 8) 2 4 (chars "%g") (TDbl 0)
     = Ok (chars "??12." ++ [NUL; "?"%char; "?"%char], -1).
Proof.
  split; [|split; reflexivity].
  apply (fmt_snprintf_contract render_sample (repeat "?"%char 8) 2 6 (chars "%g") (TDbl 0)).
  - lia.
  - lia.
  - vm_compute. discriminate.
Defined.

(** ** Literal text *)

Lemma c_str_app_nul_len (s : list ascii) : len (c_str s ++ [NUL]) = strlen s + 1.
Proof. rewrite len_app, c_str_len. reflexivity. Qed.

Lemma nth_skipn_nat {A : Type} (d : A) (n k : nat) (l : list A) :
  nth (n + k) l d = nth k (skipn n l) d.
Proof.
  revert l. induction n as [|n IH]; intros l; [reflexivity|].
  destruct l as [|x l]; cbn [Nat.add nth skipn]; [destruct k; reflexivity | apply IH].
Qed.

Lemma char_at_skipn (fmt : list ascii) (i k : Z) :
  0 <= i -> 0 <= k ->
  char_at fmt (i + k) = nth (Z.to_nat k) (skipn (Z.to_nat i) fmt) NUL.
Proof.
  intros Hi Hk. unfold char_at.
  replace (i + k <? 0) with false by (symmetry; apply Z.ltb_ge; lia).
  replace (Z.to_nat (i + k)) with (Z.to_nat i + Z.to_nat k)%nat by lia.
  apply nth_skipn_nat.
Qed.

Lemma literal_char_true (c : ascii) :
  literal_char c = true -> c <> "%"%char /\ c <> NUL.
Proof.
  unfold literal_char, is_nul. intros H. apply andb_true_iff in H. destruct H as [H1 H2].
  split; intros ->; discriminate.
Qed.

(** One more byte behind the cursor. *)
Lemma push_ok (out : StackBuffer) (c : ascii) :
  buffer_ok out -> Pos out < Capacity out ->
  buffer_ok {| Buffer := firstn (Z.to_nat (Pos out)) (Buffer out) ++
                         c :: skipn (S (Z.to_nat (Pos out))) (Buffer out);
               Pos := Pos out + 1; Capacity := Capacity out; OwnBuffer := OwnBuffer out |}
  /\ contents {| Buffer := firstn (Z.to_nat (Pos out)) (Buffer out) ++
                           c :: skipn (S (Z.to_nat (Pos out))) (Buffer out);
                 Pos := Pos out + 1; Capacity := Capacity out; OwnBuffer := OwnBuffer out |}
     = contents out ++ [c].
Proof.
  intros (Hp & Hc & Hl) Hroom. split.
  - unfold buffer_ok. cbn [Buffer Pos Capacity]. split; [lia|]. split; [lia|].
    rewrite len_app, len_cons, len_firstn by lia.
    replace (S (Z.to_nat (Pos out))) with (Z.to_nat (Pos out + 1)) by lia.
    rewrite len_skipn by lia. lia.
  - unfold contents. cbn [Buffer Pos].
    apply firstn_app_one. rewrite length_firstn. unfold len in *. lia.
Qed.

(** The bulk copy in closed form: it takes the literal characters in front
    of it, as many as there is room for. *)
Lemma copy_literal_run (l : list ascii) :
  forall (rest : list ascii) (i stopAt : Z) (out : StackBuffer),
    Forall (fun c => literal_char c = true) l ->
    (rest = [] \/ exists c r, rest = c :: r /\ literal_char c = false) ->
    buffer_ok out -> stopAt - i <= Capacity out - Pos out ->
    exists out',
      copy_literal (l ++ rest) i stopAt out
        = Ok (i + Z.min (len l) (Z.max 0 (stopAt - i)), out')
      /\ contents out' =
           contents out ++ firstn (Z.to_nat (Z.min (len l) (Z.max 0 (stopAt - i)))) l
      /\ buffer_ok out'
      /\ Pos out' = Pos out + Z.min (len l) (Z.max 0 (stopAt - i))
      /\ Capacity out' = Capacity out /\ OwnBuffer out' = OwnBuffer out.
Proof.
  induction l as [|c l IH]; intros rest i stopAt out Hlit Hrest Hok Hstop.
  - change (len (@nil ascii)) with 0.
    replace (Z.min 0 (Z.max 0 (stopAt - i))) with 0 by lia.
    exists out. cbn [app firstn Z.to_nat]. rewrite app_nil_r, !Z.add_0_r.
    split; [|split; [reflexivity | split; [exact Hok | repeat split; reflexivity]]].
    destruct Hrest as [->|(c & r & -> & Hc)]; [reflexivity|].
    cbn [copy_literal]. unfold literal_char in Hc.
    rewrite <- andb_assoc, Hc, andb_false_r. reflexivity.
  - inversion Hlit as [|c' l' Hc Hl]; subst c' l'.
    pose proof (len_nonneg l) as Hlen. rewrite len_cons.
    cbn [app copy_literal].
    unfold literal_char in Hc. rewrite <- andb_assoc, Hc, andb_true_r.
    destruct (Z.ltb_spec i stopAt) as [Hlt|Hge].
    + pose proof Hok as (Hp & Hcap & Hbl). unfold PTRDIFF_MAX in Hcap.
      rewrite store_in_bounds by lia. cbn [bind].
      rewrite to_size_t_small by lia.
      destruct (push_ok out c Hok) as (Hok1 & Hc1); [lia|].
      destruct (IH rest (i + 1) stopAt _ Hl Hrest Hok1) as (out' & E & Hcont & Hok' & HP & HC & HO).
      { cbn [Pos Capacity]. lia. }
      exists out'.
      replace (Z.min (len l + 1) (Z.max 0 (stopAt - i)))
        with (1 + Z.min (len l) (Z.max 0 (stopAt - (i + 1)))) by lia.
      rewrite E. split; [f_equal; f_equal; lia|].
      split.
      * rewrite Hcont, Hc1, <- app_assoc. f_equal.
        replace (Z.to_nat (1 + Z.min (len l) (Z.max 0 (stopAt - (i + 1)))))
          with (S (Z.to_nat (Z.min (len l) (Z.max 0 (stopAt - (i + 1)))))) by lia.
        reflexivity.
      * cbn [Pos Capacity OwnBuffer] in *.
        split; [exact Hok'|]. split; [lia|]. split; assumption.
    + replace (Z.min (len l + 1) (Z.max 0 (stopAt - i))) with 0 by lia.
      exists out. cbn [firstn Z.to_nat]. rewrite app_nil_r, !Z.add_0_r.
      split; [reflexivity|]. split; [reflexivity|]. split; [exact Hok|].
      repeat split; reflexivity.
Qed.

Lemma Forall_skipn {A : Type} (P : A -> Prop) (n : nat) (l : list A) :
  Forall P l -> Forall P (skipn n l).
Proof.
  revert n. induction l as [|x l IH]; intros [|n] H; cbn [skipn]; auto.
  apply IH. inversion H; assumption.
Qed.

Section LiteralRun.

Variable junk : ascii.
Variable render : list ascii -> fmtarg -> option (list ascii).
Variable cx : context.
Variable fmt : list ascii.
Variable nargs : Z.
Variable args : list fmtarg.
Variable staticbuf_size : Z.

(** An iteration that leaves by [break] ends the loop. *)
Lemma scan_break (fuel : nat) (st st' : scanner) :
  char_at fmt (at_i st) <> NUL ->
  scan_body junk render cx fmt nargs args staticbuf_size (S fuel) st = Ok (true, st') ->
  scan junk render cx fmt nargs args staticbuf_size (S fuel) st = Ok st'.
Proof.
  intros Hc Hb. cbn [scan].
  replace (is_nul (char_at fmt (at_i st))) with false.
  - rewrite Hb. reflexivity.
  - symmetry. unfold is_nul. apply Ascii.eqb_neq. exact Hc.
Qed.

(** The iteration in the literal state, in closed form. *)
Lemma scan_body_literal (fuel : nat) (st : scanner) (l rest : list ascii) :
  tokenstart st = -1 -> 0 <= at_i st ->
  skipn (Z.to_nat (at_i st)) fmt = l ++ rest ->
  Forall (fun c => literal_char c = true) l ->
  (rest = [] \/ exists c r, rest = c :: r /\ literal_char c = false) ->
  buffer_ok (output st) ->
  at_i st + Capacity (output st) < 2 ^ 63 ->
  exists out',
    contents out' = contents (output st) ++
      firstn (Z.to_nat (Z.min (len l) (Capacity (output st) - Pos (output st)))) l
    /\ buffer_ok out'
    /\ Pos out' = Pos (output st) + Z.min (len l) (Capacity (output st) - Pos (output st))
    /\ Capacity out' = Capacity (output st)
    /\ scan_body junk render cx fmt nargs args staticbuf_size fuel st =
       let i := at_i st + Z.min (len l) (Capacity (output st) - Pos (output st)) in
       if Ascii.eqb (char_at fmt i) "%" then
         Ok (false, {| at_i := i; tokenstart := i; iarg := iarg st;
                       output := out'; argbuf := argbuf st |})
       else if is_nul (char_at fmt i) then
         Ok (true, {| at_i := i; tokenstart := -1; iarg := iarg st;
                      output := out'; argbuf := argbuf st |})
       else
         output <- Reserve junk out' 1 ;;
         Ok (false, {| at_i := i - 1; tokenstart := -1; iarg := iarg st;
                       output := output; argbuf := argbuf st |}).
Proof.
  intros Hts Hi Hskip Hlit Hrest Hok Hbig.
  pose proof Hok as (Hp & Hcap & Hbl). unfold PTRDIFF_MAX in Hcap.
  unfold scan_body. rewrite Hts. change (negb (-1 =? -1)) with false. cbv iota zeta.
  unfold RemainingSpace. rewrite to_size_t_small by lia.
  rewrite to_ssize_t_small by lia. rewrite Hskip.
  destruct (copy_literal_run l rest (at_i st)
              (at_i st + (Capacity (output st) - Pos (output st))) (output st)
              Hlit Hrest Hok) as (out' & E & Hcont & Hok' & HP & HC & _); [lia|].
  replace (at_i st + (Capacity (output st) - Pos (output st)) - at_i st)
    with (Capacity (output st) - Pos (output st)) in * by lia.
  replace (Z.max 0 (Capacity (output st) - Pos (output st)))
    with (Capacity (output st) - Pos (output st)) in * by lia.
  exists out'. rewrite E. cbn [bind].
  split; [exact Hcont|]. split; [exact Hok'|]. split; [exact HP|]. split; [exact HC|].
  reflexivity.
Qed.

End LiteralRun.

Section LiteralRun2.

Variable junk : ascii.
Variable render : list ascii -> fmtarg -> option (list ascii).
Variable cx : context.
Variable fmt : list ascii.
Variable nargs : Z.
Variable args : list fmtarg.
Variable staticbuf_size : Z.

(** A stretch of literal text: the loop copies it to the output, growing
    the buffer on the way, and arrives at the '%' or at the end of the
    string behind it. *)
Lemma scan_literal_run (fuel : nat) :
  forall (l rest : list ascii) (i ia : Z) (out : StackBuffer) (ab : list ascii) (B : Z),
    0 <= i -> skipn (Z.to_nat i) fmt = l ++ rest ->
    Forall (fun c => literal_char c = true) l ->
    (rest = [] \/ exists c r, rest = c :: r /\ literal_char c = false) ->
    buffer_ok out -> Capacity out <= B -> 2 * (Pos out + len l) <= B ->
    i + len l + B < 2 ^ 63 ->
    (Z.to_nat (len l) + (if (Capacity out - Pos out =? 0)%Z then 1 else 0) < fuel)%nat ->
    exists out',
      buffer_ok out' /\ contents out' = contents out ++ l /\ Capacity out' <= B
      /\ (char_at fmt (i + len l) = "%"%char ->
          exists fuel',
            (fuel <= fuel' + Z.to_nat (len l) +
               (if (Capacity out - Pos out =? 0)%Z then 1 else 0) + 1)%nat
            /\ scan junk render cx fmt nargs args staticbuf_size fuel
                 {| at_i := i; tokenstart := -1; iarg := ia; output := out; argbuf := ab |}
               = scan junk render cx fmt nargs args staticbuf_size fuel'
                   {| at_i := i + len l + 1; tokenstart := i + len l; iarg := ia;
                      output := out'; argbuf := ab |})
      /\ (char_at fmt (i + len l) <> "%"%char ->
          scan junk render cx fmt nargs args staticbuf_size fuel
            {| at_i := i; tokenstart := -1; iarg := ia; output := out; argbuf := ab |}
          = Ok {| at_i := i + len l; tokenstart := -1; iarg := ia;
                  output := out'; argbuf := ab |}).
Proof.
  induction fuel as [|fuel IH]; intros l rest i ia out ab B Hi Hskip Hlit Hrest Hok HB HB2 Hbig Hfuel;
    [lia|].
  pose proof (len_nonneg l) as Hl0.
  pose proof Hok as (Hp & Hcap & Hbl).
  set (st := {| at_i := i; tokenstart := -1; iarg := ia; output := out; argbuf := ab |}).
  assert (Hend : char_at fmt (i + len l) = nth 0 rest NUL).
  { rewrite char_at_skipn by lia. rewrite Hskip.
    rewrite app_nth2 by (unfold len; lia).
    f_equal. unfold len. lia. }
  assert (Hendnl : char_at fmt (i + len l) <> "%"%char -> char_at fmt (i + len l) = NUL).
  { rewrite Hend. destruct Hrest as [->|(c & r & -> & Hc)]; [reflexivity|].
    cbn [nth]. intros Hne. unfold literal_char in Hc.
    apply andb_false_iff in Hc. destruct Hc as [Hc|Hc].
    - apply negb_false_iff, Ascii.eqb_eq in Hc. contradiction.
    - apply negb_false_iff in Hc. unfold is_nul in Hc. apply Ascii.eqb_eq in Hc. exact Hc. }
  destruct l as [|c0 l0].
  { (* nothing to copy *)
    change (len (@nil ascii)) with 0 in *. rewrite Z.add_0_r in *.
    exists out. rewrite app_nil_r.
    split; [exact Hok|]. split; [reflexivity|]. split; [exact HB|].
    split.
    - intros Hpc. exists fuel. split; [lia|].
      rewrite (scan_step junk render cx fmt nargs args staticbuf_size fuel st
                 {| at_i := i; tokenstart := i; iarg := ia; output := out; argbuf := ab |}).
      + reflexivity.
      + cbn [at_i st]. rewrite Hpc. discriminate.
      + apply scan_body_enters_token; [reflexivity | exact Hi | exact Hpc].
    - intros Hne. apply scan_at_end. cbn [at_i st]. apply Hendnl. exact Hne. }
  set (l := c0 :: l0) in *.
  assert (Hhead : char_at fmt i <> NUL).
  { replace i with (i + 0) by lia. rewrite char_at_skipn by lia. rewrite Hskip.
    cbn [l app nth Z.to_nat]. inversion Hlit as [|? ? Hc0 _]; subst.
    apply literal_char_true in Hc0. apply Hc0. }
  destruct (scan_body_literal junk render cx fmt nargs args staticbuf_size (S fuel) st l rest)
    as (out1 & Hc1 & Hok1 & HP1 & HC1 & Hbody);
    try assumption; try reflexivity; [cbn [at_i output st]; lia|].
  cbn [at_i output iarg argbuf st] in Hc1, HP1, HC1, Hbody. cbv zeta in Hbody.
  set (k := Z.min (len l) (Capacity out - Pos out)) in *.
  destruct (Z.eq_dec k (len l)) as [Hk|Hk].
  - (* the stretch fits *)
    rewrite Hk in *. rewrite firstn_all2 in Hc1 by (unfold len; lia).
    exists out1. split; [exact Hok1|]. split; [exact Hc1|]. split; [lia|].
    split.
    + intros Hpc. exists fuel. split; [lia|].
      rewrite Hpc in Hbody. change (Ascii.eqb "%" "%") with true in Hbody. cbv iota in Hbody.
      rewrite (scan_step junk render cx fmt nargs args staticbuf_size fuel st _ Hhead Hbody).
      reflexivity.
    + intros Hne. pose proof (Hendnl Hne) as Hnul.
      rewrite Hnul in Hbody. change (Ascii.eqb NUL "%") with false in Hbody.
      change (is_nul NUL) with true in Hbody. cbv iota in Hbody.
      apply (scan_break junk render cx fmt nargs args staticbuf_size fuel st _ Hhead Hbody).
  - (* the buffer is full before the end of the stretch *)
    assert (Hkk : k = Capacity out - Pos out /\ 0 <= k < len l) by lia.
    destruct Hkk as (Hkeq & Hk0 & Hk1).
    assert (Hmid : literal_char (char_at fmt (i + k)) = true).
    { rewrite char_at_skipn by lia. rewrite Hskip.
      rewrite app_nth1 by (unfold len in *; lia).
      apply (proj1 (Forall_forall _ l) Hlit). apply nth_In. unfold len in *. lia. }
    apply literal_char_true in Hmid. destruct Hmid as [Hm1 Hm2].
    replace (Ascii.eqb (char_at fmt (i + k)) "%") with false in Hbody
      by (symmetry; apply Ascii.eqb_neq; exact Hm1).
    replace (is_nul (char_at fmt (i + k))) with false in Hbody
      by (symmetry; apply Ascii.eqb_neq; exact Hm2).
    cbv iota in Hbody.
    rewrite Reserve_eq in Hbody by (assumption || lia).
    replace (Pos out1 + 1 >? Capacity out1) with true in Hbody
      by (symmetry; apply Z.gtb_lt; lia).
    cbv zeta in Hbody.
    replace (Z.max (2 * Capacity out1) (Pos out1 + 1) <=? PTRDIFF_MAX) with true in Hbody
      by (symmetry; apply Z.leb_le; unfold PTRDIFF_MAX; lia).
    cbn [bind] in Hbody.
    set (out2 := {| Buffer := contents out1 ++
                              skipn (Z.to_nat (Pos out1))
                                (repeat junk (Z.to_nat (Z.max (2 * Capacity out1) (Pos out1 + 1))));
                    Pos := Pos out1;
                    Capacity := Z.max (2 * Capacity out1) (Pos out1 + 1);
                    OwnBuffer := true |}) in *.
    assert (Hres : Reserve junk out1 1 = Ok out2).
    { rewrite Reserve_eq by (assumption || lia).
      replace (Pos out1 + 1 >? Capacity out1) with true by (symmetry; apply Z.gtb_lt; lia).
      cbv zeta.
      replace (Z.max (2 * Capacity out1) (Pos out1 + 1) <=? PTRDIFF_MAX) with true
        by (symmetry; apply Z.leb_le; unfold PTRDIFF_MAX; lia).
      reflexivity. }
    apply Reserve_ok in Hres; [|assumption|lia].
    destruct Hres as (Hok2 & HP2 & _ & Hc2 & _).
    rewrite (scan_step junk render cx fmt nargs args staticbuf_size fuel st _ Hhead Hbody).
    unfold advance. cbn [at_i tokenstart iarg output argbuf].
    replace (i + k - 1 + 1) with (i + k) by lia.
    destruct (IH (skipn (Z.to_nat k) l) rest (i + k) ia out2 ab B)
      as (out' & Hok' & Hc' & HB' & Hpct & Hnul).
    + lia.
    + replace (Z.to_nat (i + k)) with (Z.to_nat k + Z.to_nat i)%nat by lia.
      rewrite <- skipn_skipn, Hskip, skipn_app.
      replace (Z.to_nat k - List.length l)%nat with O by (unfold len in *; lia).
      reflexivity.
    + apply Forall_skipn. exact Hlit.
    + exact Hrest.
    + exact Hok2.
    + cbn [Capacity out2]. lia.
    + rewrite len_skipn by lia. lia.
    + rewrite len_skipn by lia. lia.
    + rewrite len_skipn by lia. cbn [Capacity Pos out2].
      replace (Z.max (2 * Capacity out1) (Pos out1 + 1) - Pos out1 =? 0) with false
        by (symmetry; apply Z.eqb_neq; lia).
      destruct (Z.eqb_spec (Capacity out - Pos out) 0); lia.
    + assert (Hlen' : i + k + len (skipn (Z.to_nat k) l) = i + len l)
        by (rewrite len_skipn by lia; lia).
      rewrite Hlen' in *.
      exists out'. split; [exact Hok'|]. split.
      * rewrite Hc', Hc2, Hc1, <- app_assoc, firstn_skipn. reflexivity.
      * split; [exact HB'|]. split.
        -- intros Hpc. destruct (Hpct Hpc) as (fuel' & Hf & Hs).
           exists fuel'. split; [|exact Hs].
           rewrite len_skipn in Hf by lia. cbn [Capacity Pos out2] in Hf.
           replace (Z.max (2 * Capacity out1) (Pos out1 + 1) - Pos out1 =? 0) with false in Hf
             by (symmetry; apply Z.eqb_neq; lia).
           destruct (Z.eqb_spec (Capacity out - Pos out) 0); lia.
        -- exact Hnul.
Qed.

End LiteralRun2.

Lemma contents_len (b : StackBuffer) : buffer_ok b -> len (contents b) = Pos b.
Proof. intros (Hp & Hc & Hl). unfold contents. apply len_firstn. lia. Qed.

(** After the loop: the terminator goes behind the output and the bytes in
    front of it are the result. *)
Lemma fmt_core_string_finish (junk : ascii)
    (render : list ascii -> fmtarg -> option (list ascii)) (fuel : nat) (cx : context)
    (fs : list ascii) (nargs : Z) (args : list fmtarg) (st : scanner) :
  nargs <> 0 ->
  scan junk render cx fs nargs args 256 fuel
    {| at_i := 0; tokenstart := -1; iarg := 0;
       output := StackBuffer_new (repeat junk (Z.to_nat 256)) 256;
       argbuf := repeat junk (Z.to_nat argbuf_arraysize) |} = Ok st ->
  buffer_ok (output st) -> 2 * (Pos (output st) + 1) <= PTRDIFF_MAX ->
  fmt_core_string junk render fuel cx fs nargs args = Ok (contents (output st)).
Proof.
  intros Hn Hscan Hok Hroom. unfold fmt_core_string, fmt_core.
  replace (nargs =? 0) with false by (symmetry; apply Z.eqb_neq; exact Hn).
  cbv zeta iota. rewrite Hscan. cbn [bind].
  destruct (Add_succeeds junk (output st) NUL Hok Hroom) as (out2 & Hadd & _).
  rewrite Hadd. cbn [bind Str Len].
  apply Add_ok in Hadd; [|assumption]. destruct Hadd as (Hok2 & HP2 & Hc2 & _).
  pose proof (contents_len _ Hok) as Hcl. pose proof Hok as (Hp & _).
  rewrite HP2. replace (Pos (output st) + 1 - 1) with (Pos (output st)) by lia.
  unfold PTRDIFF_MAX in Hroom. rewrite to_size_t_small by lia.
  f_equal.
  replace (firstn (Z.to_nat (Pos (output st))) (Buffer out2))
    with (firstn (Z.to_nat (Pos (output st))) (contents out2)).
  - rewrite Hc2. apply firstn_app_exact. unfold len in Hcl. lia.
  - unfold contents at 1. rewrite firstn_firstn. f_equal. lia.
Qed.

(** X5. [fmt] with no arguments returns the format string as it is: no
    '%' in it is interpreted, so that "%%" stays "%%" and "%d" stays "%d".
    The two lengths at which the copy does not fit the 256 bytes of
    [staticbuf], 256 and 257, are the exception: there the copy runs past
    the end of [staticbuf]. *)
Theorem fmt_without_arguments :
  forall (junk : ascii) (render : list ascii -> fmtarg -> option (list ascii))
         (fuel : nat) (fs : list ascii),
    strlen fs < PTRDIFF_MAX ->
    fmt junk render fuel fs [] =
      if (256 <=? strlen fs) && (strlen fs <=? 257) then Fault StoreOutOfBounds
      else Ok (c_str fs).
Proof.
  intros junk render fuel fs Hlen. pose proof (strlen_nonneg fs) as H0.
  unfold PTRDIFF_MAX in Hlen.
  unfold fmt, fmt_core_string, fmt_core.
  change (len (@nil fmtarg) =? 0) with true. cbv iota zeta.
  change (negb (256 =? 0)) with true. change (to_size_t (256 + 1)) with 257.
  cbn [andb].
  assert (Hrep : len (repeat junk (Z.to_nat 256)) = 256) by reflexivity.
  assert (Htake : firstn (Z.to_nat (strlen fs))
                    (firstn (Z.to_nat (strlen fs + 1)) (c_str fs ++ [NUL])) = c_str fs).
  { rewrite firstn_firstn.
    replace (Init.Nat.min (Z.to_nat (strlen fs)) (Z.to_nat (strlen fs + 1)))
      with (Z.to_nat (strlen fs)) by lia.
    apply firstn_app_exact. rewrite <- c_str_len. unfold len. lia. }
  unfold memcpy. rewrite c_str_app_nul_len.
  replace (strlen fs + 1 <? 0) with false by (symmetry; apply Z.ltb_ge; lia).
  rewrite Z.ltb_irrefl.
  destruct (Z.leb_spec (strlen fs) 257) as [Hs|Hs].
  - rewrite Hrep.
    destruct (Z.leb_spec 256 (strlen fs)) as [Hb|Hb]; cbn [andb].
    + replace (256 <? strlen fs + 1) with true by (symmetry; apply Z.ltb_lt; lia).
      reflexivity.
    + replace (256 <? strlen fs + 1) with false by (symmetry; apply Z.ltb_ge; lia).
      cbn [bind Str Len]. f_equal.
      rewrite firstn_app.
      rewrite Htake.
      rewrite length_firstn, length_app. cbn [List.length].
      pose proof (c_str_len fs) as Hcl. unfold len in Hcl.
      replace (Z.to_nat (strlen fs) -
               Init.Nat.min (Z.to_nat (strlen fs + 1)) (List.length (c_str fs) + 1))%nat
        with O by lia.
      cbn [firstn]. apply app_nil_r.
  - rewrite andb_false_r.
    unfold new_char.
    replace (strlen fs + 1 <=? PTRDIFF_MAX) with true
      by (symmetry; apply Z.leb_le; unfold PTRDIFF_MAX; lia).
    cbn [bind]. rewrite len_repeat by lia. rewrite Z.ltb_irrefl.
    cbn [bind Str Len]. f_equal.
    rewrite firstn_app, Htake.
    rewrite length_firstn, length_app. cbn [List.length].
    pose proof (c_str_len fs) as Hcl. unfold len in Hcl.
    replace (Z.to_nat (strlen fs) -
             Init.Nat.min (Z.to_nat (strlen fs + 1)) (List.length (c_str fs) + 1))%nat
      with O by lia.
    cbn [firstn]. apply app_nil_r.
Qed.

Lemma fmt_without_arguments_witness :
  fmt "?"%char render_nothing 0 (chars "100%% of %d") [] =
    (if (256 <=? strlen (chars "100%% of %d")) && (strlen (chars "100%% of %d") <=? 257)
     then Fault StoreOutOfBounds else Ok (c_str (chars "100%% of %d")))
  /\ fmt "?"%char render_nothing 0 (chars "100%% of %d") [] = Ok (chars "100%% of %d")
  /\ fmt "?"%char render_nothing 9 (chars "100%% of %d") [TI32 7] = Ok (chars "100% of 7").
Proof.
  split; [|split; reflexivity].
  apply (fmt_without_arguments "?"%char render_nothing 0 (chars "100%% of %d")).
  vm_compute. reflexivity.
Defined.

(** X6. With at least one argument, a format string without '%' comes
    back unchanged, however long it is (the output moves from the 256
    bytes of [staticbuf] to blocks of doubling size when it has to); the
    arguments are ignored. *)
Theorem literal_text_is_copied :
  forall (junk : ascii) (render : list ascii -> fmtarg -> option (list ascii))
         (fuel : nat) (lit : list ascii) (args : list fmtarg),
    args <> [] ->
    Forall (fun c => literal_char c = true) lit ->
    len lit < 2 ^ 60 ->
    (List.length lit + 1 < fuel)%nat ->
    fmt junk render fuel lit args = Ok lit.
Proof.
  intros junk render fuel lit args Hargs Hlit Hlen Hfuel.
  pose proof (len_nonneg lit) as Hl0.
  assert (Hn : len args <> 0).
  { destruct args; [contradiction|]. rewrite len_cons. pose proof (len_nonneg args). lia. }
  unfold fmt.
  destruct (scan_literal_run junk render default_context lit (len args) (args ++ [TNull]) 256
              fuel lit [] 0 0 (StackBuffer_new (repeat junk (Z.to_nat 256)) 256)
              (repeat junk (Z.to_nat argbuf_arraysize)) (Z.max 256 (2 * len lit)))
    as (out' & Hok' & Hc' & _ & _ & Hend).
  - lia.
  - rewrite app_nil_r. reflexivity.
  - exact Hlit.
  - left; reflexivity.
  - unfold buffer_ok, StackBuffer_new, PTRDIFF_MAX. cbn [Buffer Pos Capacity].
    split; [lia|]. split; [lia|reflexivity].
  - cbn [Capacity StackBuffer_new]. lia.
  - cbn [Pos StackBuffer_new]. lia.
  - lia.
  - cbn [Capacity Pos StackBuffer_new]. change (256 - 0 =? 0) with false.
    unfold len. lia.
  - assert (Hnul : char_at lit (0 + len lit) <> "%"%char).
    { unfold char_at. replace (0 + len lit <? 0) with false by (symmetry; apply Z.ltb_ge; lia).
      rewrite nth_overflow by (unfold len; lia). discriminate. }
    specialize (Hend Hnul).
    rewrite (fmt_core_string_finish junk render fuel default_context lit (len args)
               (args ++ [TNull]) _ Hn Hend).
    + cbn [output]. rewrite Hc'. reflexivity.
    + exact Hok'.
    + cbn [output]. pose proof (contents_len _ Hok') as Hcl. rewrite Hc' in Hcl.
      change (contents (StackBuffer_new (repeat junk (Z.to_nat 256)) 256)) with (@nil ascii) in Hcl.
      cbn [app] in Hcl. unfold PTRDIFF_MAX. lia.
Qed.

Lemma literal_text_is_copied_witness :
  fmt "?"%char render_nothing 302 (repeat "a"%char 300) [TI32 1] = Ok (repeat "a"%char 300).
Proof.
  apply (literal_text_is_copied "?"%char render_nothing 302 (repeat "a"%char 300) [TI32 1]).
  - discriminate.
  - apply Forall_forall. intros c Hc. apply repeat_spec in Hc. subst c. reflexivity.
  - vm_compute. reflexivity.
  - vm_compute. lia.
Defined.

(** ** The grow-and-retry loop, and one specifier in its context *)

Lemma splice_firstn (mem : list ascii) (offset k : Z) (bytes : list ascii) :
  0 <= offset <= len mem -> 0 <= k <= len bytes ->
  firstn (Z.to_nat (offset + k)) (splice mem offset bytes)
    = firstn (Z.to_nat offset) mem ++ firstn (Z.to_nat k) bytes.
Proof.
  intros Ho Hk. unfold splice.
  replace (Z.to_nat (offset + k)) with (List.length (firstn (Z.to_nat offset) mem) + Z.to_nat k)%nat
    by (rewrite length_firstn; unfold len in *; lia).
  rewrite firstn_app_2. f_equal.
  rewrite firstn_app.
  replace (Z.to_nat k - List.length bytes)%nat with O by (unfold len in *; lia).
  cbn [firstn]. apply app_nil_r.
Qed.

Section GrowFacts.

Variable junk : ascii.

(** Taking [n] more bytes succeeds when the allocator can provide the
    block that the buffer may have to move to. *)
Lemma AddUninitialized_succeeds (b : StackBuffer) (n B : Z) :
  buffer_ok b -> 0 <= n < 2 ^ 62 -> Capacity b <= B -> 2 * (Pos b + n) <= B ->
  B <= PTRDIFF_MAX ->
  exists b',
    AddUninitialized junk b n = Ok (Pos b, b')
    /\ buffer_ok b' /\ Pos b' = Pos b + n
    /\ firstn (Z.to_nat (Pos b)) (Buffer b') = contents b
    /\ Capacity b' <= B.
Proof.
  intros Hok Hn HB HB2 HBmax. pose proof Hok as (Hp & Hc & Hl).
  destruct (AddUninitialized junk b n) as [[p b']|f|] eqn:E.
  - pose proof (AddUninitialized_ok junk b n p b' Hok Hn E) as (Hok' & -> & HP & Hcont & _).
    exists b'. split; [reflexivity|]. split; [exact Hok'|]. split; [exact HP|].
    split; [exact Hcont|].
    unfold AddUninitialized in E.
    destruct (Reserve junk b n) as [b1| |] eqn:Er; cbn [bind] in E; try discriminate.
    apply Reserve_ok in Er; [|assumption|lia].
    destruct Er as (_ & _ & _ & _ & Hcap).
    inversion E; subst b'. cbn [Capacity]. rewrite Hcap.
    destruct (Z.gtb_spec (Pos b + n) (Capacity b)); lia.
  - exfalso. unfold AddUninitialized in E. rewrite Reserve_eq in E by (assumption || lia).
    destruct (Pos b + n >? Capacity b) eqn:Hg; cbv zeta in E; [|discriminate E].
    apply Z.gtb_lt in Hg.
    replace (Z.max (2 * Capacity b) (Pos b + n) <=? PTRDIFF_MAX) with true in E
      by (symmetry; apply Z.leb_le; lia).
    discriminate E.
  - exfalso. apply (quiet_returns (AddUninitialized junk b n));
      [apply AddUninitialized_quiet | exact E].
Qed.

End GrowFacts.

Section Retry.

Variable junk : ascii.
Variable render : list ascii -> fmtarg -> option (list ascii).
Variable cx : context.
Variables is_q is_Q : bool.
Variable fmt_type : ascii.
Variable arg : fmtarg.
Variable argbufsize : Z.
Variables ab0 ab1 : list ascii.
Variable bytes : Z -> list ascii.
Variable ret : Z -> Z.
Variable lo : Z.

Hypothesis writer_stores :
  forall (mem : list ascii) (p size : Z) (ab : list ascii),
    ab = ab0 \/ ab = ab1 -> 0 <= p -> 0 < size < 2 ^ 21 -> lo <= size ->
    p + size <= len mem ->
    call_writer render cx is_q is_Q fmt_type mem p ab argbufsize size arg
      = Ok (splice mem p (bytes size), ab1, ret size).

Hypothesis writer_in_bounds :
  forall size : Z, 0 < size -> lo <= size -> len (bytes size) <= size.

Hypothesis writer_accepted :
  forall size : Z,
    0 < size -> lo <= size -> 0 <= ret size < size -> ret size <= len (bytes size).

Hypothesis writer_refused :
  forall size : Z,
    0 < size -> lo <= size -> ~ 0 <= ret size < size -> len (bytes size) = size.

(** The grow-and-retry loop for a writer that stores [bytes size] and
    returns [ret size]. *)
Lemma grow_output_retry (fuel : nat) :
  forall (size : Z) (out : StackBuffer) (ab : list ascii) (B : Z) (text : list ascii),
    ab = ab0 \/ ab = ab1 -> 0 < size < 2 ^ 21 -> lo <= size ->
    buffer_ok out -> Capacity out <= B -> 2 * (Pos out + 2 ^ 21) <= B -> B <= PTRDIFF_MAX ->
    retry_text bytes ret fuel size = Some text ->
    exists out',
      grow_output junk render cx fuel is_q is_Q fmt_type arg argbufsize out ab size
        = Ok (out', ab1)
      /\ buffer_ok out' /\ contents out' = contents out ++ text /\ Capacity out' <= B.
Proof.
  induction fuel as [|fuel IH]; intros size out ab B text Hab Hsize Hlo Hok HB HB2 HBmax Htext;
    [discriminate Htext|].
  pose proof Hok as (Hp & Hc & Hl).
  cbn [grow_output retry_text] in *.
  rewrite to_size_t_small by lia.
  destruct (AddUninitialized_succeeds junk out size B Hok) as (out1 & E & Hok1 & HP1 & Hc1 & HB1);
    try lia.
  rewrite E. cbn [bind]. cbv beta iota.
  pose proof Hok1 as (Hp1 & Hcap1 & Hl1).
  rewrite writer_stores by (assumption || lia). cbn [bind]. cbv beta iota.
  pose proof (writer_in_bounds size ltac:(lia) Hlo) as Hbl.
  pose proof (len_nonneg (bytes size)) as Hb0.
  assert (Hsl : len (splice (Buffer out1) (Pos out) (bytes size)) = Capacity out1).
  { rewrite splice_len by lia. exact Hl1. }
  destruct ((ret size >=? 0) && (ret size <? size)) eqn:Hfit.
  - (* accepted *)
    apply andb_true_iff in Hfit. destruct Hfit as [H0 H1].
    apply Z.geb_le in H0. apply Z.ltb_lt in H1.
    pose proof (writer_accepted size ltac:(lia) Hlo ltac:(lia)) as Hacc.
    inversion Htext; subst text; clear Htext.
    replace (ret size - size) with (- (size - ret size)) by lia.
    rewrite MoveCurrentPos_eq by (cbn [Pos Capacity]; lia).
    cbn [bind Buffer Pos Capacity OwnBuffer].
    eexists. split; [reflexivity|]. split; [|split].
    + unfold buffer_ok. cbn [Buffer Pos Capacity]. lia.
    + unfold contents at 1. cbn [Buffer Pos].
      replace (Pos out1 - (size - ret size)) with (Pos out + ret size) by lia.
      rewrite splice_firstn by lia. rewrite Hc1. reflexivity.
    + cbn [Capacity]. exact HB1.
  - (* refused *)
    assert (Hno : ~ 0 <= ret size < size).
    { intros [H0 H1]. apply andb_false_iff in Hfit. destruct Hfit as [Hf|Hf].
      - destruct (Z.geb_spec (ret size) 0); [discriminate|lia].
      - apply Z.ltb_ge in Hf. lia. }
    pose proof (writer_refused size ltac:(lia) Hlo Hno) as Hfull.
    destruct (size >=? MaxOutputSize) eqn:Hmax.
    + inversion Htext; subst text; clear Htext.
      eexists. split; [reflexivity|]. split; [|split].
      * unfold buffer_ok. cbn [Buffer Pos Capacity]. lia.
      * unfold contents at 1. cbn [Buffer Pos]. rewrite HP1.
        rewrite <- Hfull at 1.
        rewrite splice_firstn by lia. rewrite Hc1.
        rewrite firstn_all2 by (unfold len; lia). reflexivity.
      * cbn [Capacity]. exact HB1.
    + assert (Hlt : size < MaxOutputSize)
        by (destruct (Z.geb_spec size MaxOutputSize); [discriminate|lia]).
      unfold MaxOutputSize in Hlt.
      replace (- size) with (- (size)) by lia.
      rewrite MoveCurrentPos_eq by (cbn [Pos Capacity]; lia).
      cbn [bind Buffer Pos Capacity OwnBuffer].
      rewrite to_ssize_t_small by lia.
      set (out2 := {| Buffer := splice (Buffer out1) (Pos out) (bytes size);
                      Pos := Pos out1 - size; Capacity := Capacity out1;
                      OwnBuffer := OwnBuffer out1 |}).
      assert (Hok2 : buffer_ok out2).
      { unfold buffer_ok, out2. cbn [Buffer Pos Capacity]. lia. }
      assert (Hc2 : contents out2 = contents out).
      { unfold contents at 1, out2. cbn [Buffer Pos].
        replace (Pos out1 - size) with (Pos out) by lia.
        rewrite splice_before by lia. exact Hc1. }
      destruct (IH (size * 2) out2 ab1 B text) as (out' & Eg & Hok' & Hc' & HB');
        try assumption; try lia.
      * right; reflexivity.
      * unfold out2. cbn [Pos]. lia.
      * exists out'. split; [exact Eg|]. split; [exact Hok'|]. split; [|exact HB'].
        rewrite Hc', Hc2. reflexivity.
Qed.

End Retry.

(** A writer that succeeds as soon as the destination is larger than
    [need]: the loop started at a size that doubles to 1 MiB stops at the
    first size above [need], or at 1 MiB. *)
Lemma retry_text_threshold (need : Z) (full : list ascii) (trunc : Z -> list ascii) (j : nat) :
  forall (size : Z) (extra : nat),
    0 < size -> size * 2 ^ Z.of_nat j = MaxOutputSize -> 0 <= need ->
    retry_text (fun sz => if need <? sz then full else trunc sz)
               (fun sz => if need <? sz then need else -1) (S j + extra) size
      = Some (if need <? MaxOutputSize then firstn (Z.to_nat need) full
              else trunc MaxOutputSize).
Proof.
  induction j as [|j IH]; intros size extra Hsize Hreach Hneed; cbn [Nat.add retry_text].
  - change (2 ^ Z.of_nat 0) with 1 in Hreach. rewrite Z.mul_1_r in Hreach. subst size.
    destruct (Z.ltb_spec need MaxOutputSize) as [Hlt|Hge].
    + replace (need >=? 0) with true by (symmetry; apply Z.geb_le; lia).
      replace (need <? MaxOutputSize) with true by (symmetry; apply Z.ltb_lt; lia).
      reflexivity.
    + reflexivity.
  - rewrite Nat2Z.inj_succ, Z.pow_succ_r in Hreach by lia.
    assert (H2 : 0 < 2 ^ Z.of_nat j) by (apply Z.pow_pos_nonneg; lia).
    assert (Hlt : size < MaxOutputSize) by nia.
    destruct (Z.ltb_spec need size) as [Hfit|Hno].
    + replace (need >=? 0) with true by (symmetry; apply Z.geb_le; lia).
      replace (need <? size) with true by (symmetry; apply Z.ltb_lt; lia).
      cbn [andb].
      replace (need <? MaxOutputSize) with true by (symmetry; apply Z.ltb_lt; lia).
      reflexivity.
    + cbn [Z.geb Z.compare andb].
      replace (size >=? MaxOutputSize) with false
        by (symmetry; destruct (Z.geb_spec size MaxOutputSize); [lia|reflexivity]).
      apply IH; lia.
Qed.

Lemma skipn_len_app {A : Type} (l1 l2 : list A) (k : Z) :
  0 <= k -> skipn (Z.to_nat (len l1 + k)) (l1 ++ l2) = skipn (Z.to_nat k) l2.
Proof.
  intros Hk. rewrite skipn_app.
  rewrite (@skipn_all2 _ (Z.to_nat (len l1 + k)) l1) by (unfold len; lia).
  cbn [app]. f_equal. unfold len. lia.
Qed.

Section InContext.

Variable junk : ascii.
Variable render : list ascii -> fmtarg -> option (list ascii).
Variable cx : context.
Variable fmt : list ascii.
Variable nargs : Z.
Variable args : list fmtarg.
Variable staticbuf_size : Z.

(** Inside a token the loop passes over the characters of the default
    arm. *)
Lemma scan_skip_flags (flags : list ascii) :
  forall (rest : list ascii) (fuel : nat) (i ts ia : Z) (out : StackBuffer) (ab : list ascii),
    0 <= i -> ts <> -1 ->
    skipn (Z.to_nat i) fmt = flags ++ rest ->
    Forall (fun c => switch_arm c = Default /\ c <> NUL) flags ->
    (List.length flags <= fuel)%nat ->
    scan junk render cx fmt nargs args staticbuf_size fuel
      {| at_i := i; tokenstart := ts; iarg := ia; output := out; argbuf := ab |}
    = scan junk render cx fmt nargs args staticbuf_size (fuel - List.length flags)
        {| at_i := i + len flags; tokenstart := ts; iarg := ia; output := out; argbuf := ab |}.
Proof.
  induction flags as [|c flags IH]; intros rest fuel i ts ia out ab Hi Hts Hskip Hfl Hfuel.
  - change (len (@nil ascii)) with 0. rewrite Z.add_0_r, Nat.sub_0_r. reflexivity.
  - inversion Hfl as [|? ? [Harm Hnz] Hfl']; subst.
    destruct fuel as [|fuel]; [cbn [List.length] in Hfuel; lia|].
    assert (Hc : char_at fmt i = c).
    { replace i with (i + 0) by lia. rewrite char_at_skipn by lia. rewrite Hskip. reflexivity. }
    rewrite (scan_step junk render cx fmt nargs args staticbuf_size fuel _
               {| at_i := i; tokenstart := ts; iarg := ia; output := out; argbuf := ab |}).
    + unfold advance. cbn [at_i tokenstart iarg output argbuf].
      rewrite (IH rest fuel (i + 1) ts ia out ab); try assumption; try lia.
      * rewrite len_cons. cbn [List.length]. f_equal.
        f_equal. lia.
      * replace (Z.to_nat (i + 1)) with (1 + Z.to_nat i)%nat by lia.
        rewrite <- skipn_skipn, Hskip. reflexivity.
      * cbn [List.length] in Hfuel. lia.
    + cbn [at_i]. rewrite Hc. exact Hnz.
    + apply scan_body_default_arm; cbn [tokenstart at_i]; [exact Hts | rewrite Hc; exact Harm].
Qed.

End InContext.

Lemma Forall_literal_app (l1 l2 : list ascii) :
  Forall (fun c => literal_char c = true) l1 -> Forall (fun c => literal_char c = true) l2 ->
  Forall (fun c => literal_char c = true) (l1 ++ l2).
Proof. intros H1 H2. apply Forall_app. split; assumption. Qed.

(** One specifier between two stretches of literal text: when the
    grow-and-retry loop appends [text] for it, the result of [fmt] is the
    text in the place of the specifier. *)
Lemma fmt_specifier_in_context (junk : ascii)
    (render : list ascii -> fmtarg -> option (list ascii)) (fuel F : nat)
    (lit1 flags lit2 : list ascii) (letter : ascii) (arg : fmtarg) (more : list fmtarg)
    (text : list ascii) :
  Forall (fun c => literal_char c = true) lit1 ->
  Forall (fun c => literal_char c = true) lit2 ->
  Forall (fun c => switch_arm c = Default /\ c <> NUL) flags ->
  len flags < argbuf_arraysize - 2 ->
  switch_arm letter = Terminator ->
  Ascii.eqb letter "n" = false -> Ascii.eqb letter "q" = false ->
  Ascii.eqb letter "Q" = false ->
  len lit1 < 2 ^ 59 -> len lit2 < 2 ^ 59 -> len text <= 2 ^ 21 ->
  (List.length lit1 + List.length flags + List.length lit2 + F + 4 <= fuel)%nat ->
  (forall (f : nat) (out : StackBuffer) (B : Z),
     (F <= f)%nat -> buffer_ok out -> Capacity out <= B -> 2 * (Pos out + 2 ^ 21) <= B ->
     B <= PTRDIFF_MAX ->
     exists out' ab',
       grow_output junk render default_context f false false letter arg
         (len (without_stars ("%"%char :: flags))) out
         (splice (repeat junk 16) 0 (without_stars ("%"%char :: flags))) 64 = Ok (out', ab')
       /\ buffer_ok out' /\ contents out' = contents out ++ text /\ Capacity out' <= B) ->
  fmt junk render fuel (lit1 ++ "%"%char :: flags ++ letter :: lit2) (arg :: more)
    = Ok (lit1 ++ text ++ lit2).
Proof.
  intros Hl1 Hl2 Hfl Hflen Harm Hn Hq HQ Hb1 Hb2 Hbt Hfuel Hwriter.
  pose proof (len_nonneg lit1) as H1. pose proof (len_nonneg lit2) as H2.
  pose proof (len_nonneg flags) as H3. pose proof (len_nonneg text) as H4.
  pose proof (len_nonneg more) as H5.
  pose proof (terminator_not_nul letter Harm) as Hnz.
  unfold argbuf_arraysize in Hflen.
  set (fs := lit1 ++ "%"%char :: flags ++ letter :: lit2).
  set (B := Z.max 256 (2 * (len lit1 + len lit2 + 2 ^ 21))).
  assert (Hn0 : len (arg :: more) <> 0) by (rewrite len_cons; lia).
  unfold fmt.
  set (pack := (arg :: more) ++ [TNull]).
  (* the text in front *)
  destruct (scan_literal_run junk render default_context fs (len (arg :: more)) pack 256
              fuel lit1 ("%"%char :: flags ++ letter :: lit2) 0 0
              (StackBuffer_new (repeat junk (Z.to_nat 256)) 256)
              (repeat junk (Z.to_nat argbuf_arraysize)) B)
    as (out1 & Hok1 & Hc1 & HB1 & Hpct & _).
  { lia. } { reflexivity. } { exact Hl1. }
  { right. exists "%"%char, (flags ++ letter :: lit2). split; reflexivity. }
  { unfold buffer_ok, StackBuffer_new, PTRDIFF_MAX. cbn [Buffer Pos Capacity].
    split; [lia|]. split; [lia|reflexivity]. }
  { cbn [Capacity StackBuffer_new]. lia. }
  { cbn [Pos StackBuffer_new]. lia. }
  { lia. }
  { cbn [Capacity Pos StackBuffer_new]. change (256 - 0 =? 0) with false. unfold len. lia. }
  assert (Hat : forall k, 0 <= k ->
            char_at fs (len lit1 + k) = nth (Z.to_nat k) ("%"%char :: flags ++ letter :: lit2) NUL).
  { intros k Hk. rewrite char_at_skipn by lia. unfold fs.
    replace (len lit1) with (len lit1 + 0) by lia.
    rewrite skipn_len_app by lia. reflexivity. }
  destruct Hpct as (fuel1 & Hf1 & Hs1).
  { rewrite Z.add_0_l. replace (len lit1) with (len lit1 + 0) by lia.
    rewrite Hat by lia. reflexivity. }
  cbn [Capacity Pos StackBuffer_new] in Hf1. change (256 - 0 =? 0) with false in Hf1.
  change (contents (StackBuffer_new (repeat junk (Z.to_nat 256)) 256)) with (@nil ascii) in Hc1.
  cbn [app] in Hc1.
  pose proof (contents_len _ Hok1) as HP1. rewrite Hc1 in HP1.
  (* the flags *)
  rewrite Z.add_0_l in Hs1.
  rewrite (scan_skip_flags junk render default_context fs (len (arg :: more)) pack 256 flags
             (letter :: lit2) fuel1 (len lit1 + 1) (len lit1) 0 out1
             (repeat junk (Z.to_nat argbuf_arraysize))) in Hs1.
  2:{ lia. } 2:{ lia. }
  2:{ unfold fs. rewrite skipn_len_app by lia. reflexivity. }
  2:{ exact Hfl. }
  2:{ unfold len in *. lia. }
  (* the letter *)
  assert (Hletter : char_at fs (len lit1 + 1 + len flags) = letter).
  { replace (len lit1 + 1 + len flags) with (len lit1 + (1 + len flags)) by lia.
    rewrite Hat by lia.
    replace (Z.to_nat (1 + len flags)) with (S (List.length flags)) by (unfold len; lia).
    cbn [nth]. rewrite app_nth2 by lia. rewrite Nat.sub_diag. reflexivity. }
  destruct (fuel1 - List.length flags)%nat as [|fuel2] eqn:Ef2; [unfold len in *; lia|].
  set (n := len (without_stars ("%"%char :: flags))) in *.
  set (ab0 := splice (repeat junk 16) 0 (without_stars ("%"%char :: flags))) in *.
  destruct (Hwriter (S fuel2) out1 B) as (out2 & ab2 & Hg & Hok2 & Hc2 & HB2);
    [unfold len in *; lia | exact Hok1 | exact HB1 | lia | unfold PTRDIFF_MAX; lia |].
  set (st1 := {| at_i := len lit1 + 1 + len flags; tokenstart := len lit1; iarg := 0;
                 output := out1; argbuf := repeat junk (Z.to_nat argbuf_arraysize) |}) in *.
  rewrite (scan_step junk render default_context fs (len (arg :: more)) pack 256 fuel2 st1
             {| at_i := len lit1 + 1 + len flags; tokenstart := -1; iarg := to_ssize_t (0 + 1);
                output := out2; argbuf := ab2 |}) in Hs1.
  2:{ cbn [at_i st1]. rewrite Hletter. exact Hnz. }
  2:{ rewrite scan_body_accepts; cbn [at_i tokenstart iarg st1];
        try rewrite Hletter; try assumption; try lia;
        [| rewrite len_cons; lia | unfold argbuf_arraysize; lia].
      replace (len lit1 + 1 + len flags - len lit1) with (1 + len flags) by lia.
      cbn [argbuf output st1].
      rewrite copy_token_eq by (change (len (repeat junk (Z.to_nat argbuf_arraysize))) with 16; lia).
      assert (Htok : chars_from fs (len lit1) (Z.to_nat (1 + len flags)) = "%"%char :: flags).
      { rewrite chars_from_slice.
        - unfold fs. replace (len lit1) with (len lit1 + 0) by lia.
          rewrite skipn_len_app by lia. cbn [Z.to_nat skipn].
          replace (Z.to_nat (1 + len flags)) with (S (List.length flags)) by (unfold len; lia).
          cbn [firstn]. f_equal. apply firstn_app_exact. reflexivity.
        - lia.
        - unfold fs. rewrite len_app, len_cons, len_app, len_cons. lia. }
      rewrite Htok. cbn [bind]. cbv beta iota. rewrite Z.add_0_l.
      change (to_ssize_t (initial_sprintf_guessed_size 256)) with 64.
      change (nth (Z.to_nat 0) pack TNull) with arg.
      fold n. change (splice (repeat junk (Z.to_nat argbuf_arraysize)) 0
                        (without_stars ("%"%char :: flags))) with ab0.
      rewrite Hg. reflexivity. }
  unfold advance in Hs1. cbn [at_i tokenstart iarg output argbuf] in Hs1.
  (* the text behind *)
  pose proof (contents_len _ Hok2) as HP2. rewrite Hc2, Hc1, len_app in HP2.
  destruct (scan_literal_run junk render default_context fs (len (arg :: more)) pack 256
              fuel2 lit2 [] (len lit1 + 1 + len flags + 1) (to_ssize_t (0 + 1)) out2 ab2 B)
    as (out3 & Hok3 & Hc3 & _ & _ & Hend).
  { lia. }
  { rewrite app_nil_r. unfold fs.
    replace (len lit1 + 1 + len flags + 1) with (len lit1 + (1 + (len flags + 1))) by lia.
    rewrite skipn_len_app by lia.
    replace (Z.to_nat (1 + (len flags + 1))) with (S (Z.to_nat (len flags + 1))) by lia.
    rewrite skipn_cons. rewrite skipn_len_app by lia. reflexivity. }
  { exact Hl2. } { left; reflexivity. } { exact Hok2. } { exact HB2. } { lia. } { lia. }
  { destruct (Capacity out2 - Pos out2 =? 0); unfold len in *; lia. }
  rewrite Hend in Hs1.
  2:{ replace (len lit1 + 1 + len flags + 1 + len lit2)
        with (len lit1 + (1 + len flags + 1 + len lit2)) by lia.
      rewrite Hat by lia.
      rewrite nth_overflow; [discriminate|].
      cbn [List.length]. rewrite length_app. cbn [List.length]. unfold len. lia. }
  rewrite (fmt_core_string_finish junk render fuel default_context fs (len (arg :: more))
             pack _ Hn0 Hs1).
  - cbn [output]. rewrite Hc3, Hc2, Hc1, <- app_assoc. reflexivity.
  - exact Hok3.
  - cbn [output]. pose proof (contents_len _ Hok3) as HP3.
    rewrite Hc3, Hc2, Hc1, !len_app in HP3. unfold PTRDIFF_MAX. lia.
Qed.

Section StringWriter.

Variable junk : ascii.
Variable render : list ascii -> fmtarg -> option (list ascii).

(** The writer for a narrow string, whatever the letter: the specifier
    becomes "%s" and the characters are copied, all of them when the
    destination is larger than the string. *)
Lemma string_writer (letter : ascii) (s : list ascii) (mem : list ascii) (p size : Z)
    (ab : list ascii) :
  ab = "%"%char :: repeat junk 15 \/ ab = "%"%char :: "s"%char :: NUL :: repeat junk 13 ->
  0 <= p -> 0 < size < 2 ^ 21 -> p + size <= len mem ->
  call_writer render default_context false false letter mem p ab 1 size (TCStr s)
    = Ok (splice mem p (if strlen s <? size then c_str s else firstn (Z.to_nat size) s),
          "%"%char :: "s"%char :: NUL :: repeat junk 13,
          if strlen s <? size then strlen s else -1).
Proof.
  intros Hab Hp Hsize Hroom. pose proof (strlen_nonneg s) as H0.
  unfold call_writer. cbv iota.
  change (to_size_t 1) with 1. rewrite to_size_t_small by lia.
  unfold fmt_output_with_snprintf. cbv zeta.
  assert (Hset : fmt_settype ab 1 (Some []) "s" = Ok ("%"%char :: "s"%char :: NUL :: repeat junk 13)).
  { destruct Hab as [-> | ->].
    - change (repeat junk 15) with (junk :: junk :: repeat junk 13).
      apply fmt_settype_after_percent.
    - apply fmt_settype_after_percent. }
  rewrite Hset. cbn [bind].
  rewrite format_string_percent_s by reflexivity.
  destruct (Z.ltb_spec (strlen s) size) as [Hfit|Hno].
  - rewrite format_string_copy_fits by lia.
    rewrite Z.add_0_r, Z.add_0_l.
    rewrite store_all_splice by (rewrite ?c_str_len; lia).
    cbn [bind]. rewrite to_int_small by lia. reflexivity.
  - rewrite format_string_copy_short by lia.
    rewrite Z.add_0_r, Z.sub_0_r.
    assert (Hl : len (firstn (Z.to_nat size) s) = size).
    { rewrite firstn_strlen by lia. apply len_firstn. rewrite c_str_len. lia. }
    rewrite store_all_splice by (rewrite ?Hl; lia).
    reflexivity.
Qed.

End StringWriter.

(** X7. A narrow string argument is inserted in the place of its
    specifier, whatever the specifier's letter (n, q and Q apart): the
    result of [fmt] on literal text, a two-character specifier and more
    literal text is the first text, the characters of the string and the
    second text. A string of 1 MiB or more is cut to its first 1048576
    characters. *)
Theorem string_argument_is_inserted :
  forall (junk : ascii) (render : list ascii -> fmtarg -> option (list ascii)) (fuel : nat)
         (lit1 lit2 : list ascii) (letter : ascii) (s : list ascii) (more : list fmtarg),
    Forall (fun c => literal_char c = true) lit1 ->
    Forall (fun c => literal_char c = true) lit2 ->
    switch_arm letter = Terminator ->
    letter <> "n"%char -> letter <> "q"%char -> letter <> "Q"%char ->
    len lit1 < 2 ^ 59 -> len lit2 < 2 ^ 59 ->
    (List.length lit1 + List.length lit2 + 19 <= fuel)%nat ->
    fmt junk render fuel (lit1 ++ "%"%char :: letter :: lit2) (TCStr s :: more)
      = Ok (lit1 ++ (if strlen s <? MaxOutputSize then c_str s
                     else firstn (Z.to_nat MaxOutputSize) s) ++ lit2).
Proof.
  intros junk render fuel lit1 lit2 letter s more Hl1 Hl2 Harm Hn Hq HQ Hb1 Hb2 Hfuel.
  pose proof (strlen_nonneg s) as H0.
  apply (fmt_specifier_in_context junk render fuel 15 lit1 [] lit2 letter (TCStr s) more);
    try assumption; try (apply Ascii.eqb_neq; assumption).
  - constructor.
  - cbn. lia.
  - destruct (Z.ltb_spec (strlen s) MaxOutputSize) as [Hs|Hs].
    + rewrite c_str_len. unfold MaxOutputSize in Hs. lia.
    + unfold len. rewrite length_firstn. unfold MaxOutputSize. lia.
  - cbn [List.length]. lia.
  - intros f out B Hf Hok HB HB2 HBmax.
    change (len (without_stars ["%"%char])) with 1.
    change (splice (repeat junk 16) 0 (without_stars ["%"%char]))
      with ("%"%char :: repeat junk 15).
    destruct (grow_output_retry junk render default_context false false letter (TCStr s) 1
                ("%"%char :: repeat junk 15) ("%"%char :: "s"%char :: NUL :: repeat junk 13)
                (fun sz => if strlen s <? sz then c_str s else firstn (Z.to_nat sz) s)
                (fun sz => if strlen s <? sz then strlen s else -1) 1)
      with (fuel := f) (size := 64) (out := out) (ab := "%"%char :: repeat junk 15) (B := B)
           (text := if strlen s <? MaxOutputSize then c_str s
                    else firstn (Z.to_nat MaxOutputSize) s)
      as (out' & E & Hok' & Hc' & HB').
    + intros mem p size ab Hab Hp Hsize _ Hroom. apply string_writer; assumption.
    + intros size Hsize _. cbv beta.
      destruct (Z.ltb_spec (strlen s) size); [rewrite c_str_len; lia|].
      unfold len. rewrite length_firstn. lia.
    + intros size Hsize _ Hret. cbv beta in *.
      destruct (Z.ltb_spec (strlen s) size); [rewrite c_str_len; lia|lia].
    + intros size Hsize _ Hret. cbv beta in *.
      destruct (Z.ltb_spec (strlen s) size); [lia|].
      rewrite firstn_strlen by lia. apply len_firstn. rewrite c_str_len. lia.
    + left; reflexivity.
    + lia.
    + lia.
    + exact Hok.
    + exact HB.
    + exact HB2.
    + exact HBmax.
    + replace f with (S 14 + (f - 15))%nat by lia.
      rewrite (retry_text_threshold (strlen s) (c_str s) (fun sz => firstn (Z.to_nat sz) s) 14)
        by (try reflexivity; lia).
      f_equal. destruct (strlen s <? MaxOutputSize); [|reflexivity].
      apply firstn_all2. rewrite <- c_str_len. unfold len. lia.
    + exists out', ("%"%char :: "s"%char :: NUL :: repeat junk 13).
      split; [exact E|]. split; [exact Hok'|]. split; [exact Hc'|exact HB'].
Qed.

Lemma string_argument_is_inserted_witness :
  fmt "?"%char render_nothing 30 (chars "<" ++ "%"%char :: "d"%char :: chars ">")
    (TCStr (repeat "b"%char 100) :: [])
  = Ok (chars "<" ++
        (if strlen (repeat "b"%char 100) <? MaxOutputSize then c_str (repeat "b"%char 100)
         else firstn (Z.to_nat MaxOutputSize) (repeat "b"%char 100)) ++ chars ">").
Proof.
  apply (string_argument_is_inserted "?"%char render_nothing 30 (chars "<") (chars ">")
           "d" (repeat "b"%char 100) []).
  - repeat constructor.
  - repeat constructor.
  - reflexivity.
  - discriminate.
  - discriminate.
  - discriminate.
  - vm_compute. reflexivity.
  - vm_compute. reflexivity.
  - vm_compute. lia.
Defined.

(** ** The steps of the output buffer return *)

Section BufferReturns.

Variable junk : ascii.
Variable render : list ascii -> fmtarg -> option (list ascii).
Variable cx : context.
Variable fmt : list ascii.
Variable nargs : Z.
Variable args : list fmtarg.
Variable staticbuf_size : Z.

Lemma returns_weaken {A : Type} (P Q : A -> Prop) (o : outcome A) :
  returns P o -> (forall a, P a -> Q a) -> returns Q o.
Proof. intros (a & E & H) HPQ. exists a. split; [exact E | apply HPQ; exact H]. Qed.

(** The bulk copy stops at [stopAt] at the latest, and so inside the
    block: every store is in bounds and the copy returns. *)
Lemma copy_literal_returns (rest : list ascii) :
  forall (i stopAt : Z) (out : StackBuffer),
    buffer_ok out -> stopAt - i <= Capacity out - Pos out ->
    returns (fun r => buffer_ok (snd r) /\ Capacity (snd r) = Capacity out /\
                      i <= fst r /\ Pos (snd r) = Pos out + (fst r - i) /\
                      contents (snd r) = contents out ++ firstn (Z.to_nat (fst r - i)) rest)
      (copy_literal rest i stopAt out).
Proof.
  induction rest as [|c rest IH]; intros i stopAt out Hok Hstop; cbn [copy_literal].
  - exists (i, out). split; [reflexivity|]. cbn [fst snd].
    rewrite Z.sub_diag. cbn [Z.to_nat firstn]. rewrite app_nil_r.
    split; [exact Hok|]. split; [reflexivity|]. split; [lia|]. split; [lia|reflexivity].
  - destruct ((i <? stopAt) && negb (Ascii.eqb c "%") && negb (is_nul c)) eqn:Hgo.
    + apply andb_true_iff in Hgo. destruct Hgo as [Hgo _].
      apply andb_true_iff in Hgo. destruct Hgo as [Hlt _].
      apply Z.ltb_lt in Hlt.
      pose proof Hok as (Hp & Hc & Hl). unfold PTRDIFF_MAX in Hc.
      rewrite store_in_bounds by lia. cbn [bind].
      rewrite to_size_t_small by lia.
      destruct (push_ok out c Hok) as (Hok1 & Hc1); [lia|].
      destruct (IH (i + 1) stopAt _ Hok1) as ([i' out'] & E & Hok' & HC & Hi & HP & Hcont).
      { cbn [Pos Capacity]. lia. }
      cbn [fst snd Pos Capacity] in *.
      exists (i', out'). split; [exact E|]. cbn [fst snd].
      split; [exact Hok'|]. split; [exact HC|]. split; [lia|]. split; [lia|].
      rewrite Hcont, Hc1, <- app_assoc. f_equal.
      replace (Z.to_nat (i' - i)) with (S (Z.to_nat (i' - (i + 1)))) by lia.
      reflexivity.
    + exists (i, out). split; [reflexivity|]. cbn [fst snd].
      rewrite Z.sub_diag. cbn [Z.to_nat firstn]. rewrite app_nil_r.
      split; [exact Hok|]. split; [reflexivity|]. split; [lia|]. split; [lia|reflexivity].
Qed.

(** The bulk copy as the scanner calls it. *)
Lemma copy_literal_in_scanner (i : Z) (out : StackBuffer) :
  buffer_ok out -> 0 <= i ->
  returns (fun r => buffer_ok (snd r) /\ Capacity (snd r) = Capacity out /\
                    i <= fst r /\ Pos (snd r) = Pos out + (fst r - i) /\
                    contents (snd r) =
                      contents out ++ firstn (Z.to_nat (fst r - i)) (skipn (Z.to_nat i) fmt))
    (copy_literal (skipn (Z.to_nat i) fmt) i (to_ssize_t (i + RemainingSpace out)) out).
Proof.
  intros Hok Hi. apply copy_literal_returns; [exact Hok|].
  unfold RemainingSpace. pose proof Hok as (Hp & Hc & Hl). unfold PTRDIFF_MAX in Hc.
  rewrite to_size_t_small by lia.
  pose proof (to_ssize_t_le (i + (Capacity out - Pos out))). lia.
Qed.

(** [Reserve] fails in one case only. *)
Lemma Reserve_returns_if_allocated (b : StackBuffer) (n : Z) :
  buffer_ok b -> 0 <= n < 2 ^ 63 ->
  returns_if_allocated
    (fun b' => buffer_ok b' /\ Pos b' = Pos b /\ Pos b + n <= Capacity b' /\
               contents b' = contents b)
    (Reserve junk b n).
Proof.
  intros Hok Hn. destruct (Reserve_total junk b n Hok Hn) as [E|[b' E]].
  - left. exact E.
  - right. exists b'. split; [exact E|].
    destruct (Reserve_ok junk b n b' Hok Hn E) as (H1 & H2 & H3 & H4 & _). auto.
Qed.

(** The iteration in the literal state returns. *)
Lemma scan_body_literal_returns (fuel : nat) (st : scanner) :
  scanner_ok st -> tokenstart st = -1 ->
  returns_if_allocated
    (fun r => scanner_ok (advance (snd r)) /\
              Pos (output (snd r)) <= Capacity (output (snd r)))
    (scan_body junk render cx fmt nargs args staticbuf_size fuel st).
Proof.
  intros (Hok & Hi) Hts. unfold scan_body. rewrite Hts.
  change (negb (-1 =? -1)) with false. cbv iota zeta.
  destruct (copy_literal_in_scanner (at_i st) (output st) Hok Hi)
    as ([i' out'] & E & Hok' & _ & Hi' & _).
  cbn [fst snd] in *. rewrite E. cbn [bind]. cbv beta iota.
  assert (Hpc : forall b, buffer_ok b -> Pos b <= Capacity b) by (intros b (Hp & _); lia).
  destruct (Ascii.eqb (char_at fmt i') "%").
  - right. eexists. split; [reflexivity|]. cbn [snd output]. unfold scanner_ok, advance.
    cbn [output at_i]. split; [split; [exact Hok'|lia] | apply Hpc; exact Hok'].
  - destruct (is_nul (char_at fmt i')).
    + right. eexists. split; [reflexivity|]. cbn [snd output]. unfold scanner_ok, advance.
      cbn [output at_i]. split; [split; [exact Hok'|lia] | apply Hpc; exact Hok'].
    + destruct (Reserve_returns_if_allocated out' 1 Hok') as [Er|(out2 & Er & Hok2 & _)];
        [lia| |]; rewrite Er; cbn [bind].
      * left. reflexivity.
      * right. eexists. split; [reflexivity|]. cbn [snd output]. unfold scanner_ok, advance.
        cbn [output at_i]. split; [split; [exact Hok2|lia] | apply Hpc; exact Hok2].
Qed.

End BufferReturns.

(** C9. The write cursor never exceeds the capacity. [Pos <= Capacity]
    holds for a freshly constructed [StackBuffer], and each operation of a
    formatting call returns a buffer in which it holds, with every write
    inside the block: [Reserve] (which leaves the buffer alone while the
    bytes fit and otherwise moves them to a block of
    [max (2 * Capacity) (Pos + n)] bytes), [AddUninitialized], [Add],
    [MoveCurrentPos] (whose [assert] is the invariant, and holds where the
    grow-and-retry loop calls it) and the bulk copy of literal text. The
    one way for [Reserve], and so for [AddUninitialized] and [Add], not to
    return is that the allocator cannot provide the block. So the
    invariant holds in every state of the scanner's loop. *)
Theorem output_cursor_within_capacity :
  forall (junk : ascii) (render : list ascii -> fmtarg -> option (list ascii))
         (cx : context) (fmt : list ascii) (nargs : Z) (args : list fmtarg)
         (staticbuf : list ascii),
    len staticbuf <= PTRDIFF_MAX ->
    output_invariant junk render cx fmt nargs args staticbuf.
Proof.
  intros junk render cx fmt nargs args staticbuf Hsize.
  assert (Hpos : forall b, buffer_ok b -> Pos b <= Capacity b)
    by (intros b (Hp & _); lia).
  unfold output_invariant.
  split; [apply StackBuffer_new_ok; assumption|].
  split.
  { (* Reserve *)
    intros b n Hok Hn. pose proof (Reserve_eq junk b n Hok Hn) as Heq.
    split; [|split].
    - intros Hfit. rewrite Heq.
      replace (Pos b + n >? Capacity b) with false
        by (symmetry; destruct (Z.gtb_spec (Pos b + n) (Capacity b)); [lia|reflexivity]).
      reflexivity.
    - intros Hgrow Halloc.
      replace (Pos b + n >? Capacity b) with true in Heq by (symmetry; apply Z.gtb_lt; lia).
      cbv zeta in Heq.
      replace (Z.max (2 * Capacity b) (Pos b + n) <=? PTRDIFF_MAX) with true in Heq
        by (symmetry; apply Z.leb_le; exact Halloc).
      eexists. split; [exact Heq|].
      destruct (Reserve_ok junk b n _ Hok Hn Heq) as (Hok' & HP & _ & Hcont & Hcap).
      replace (Pos b + n >? Capacity b) with true in Hcap by (symmetry; apply Z.gtb_lt; lia).
      split; [apply Hpos; exact Hok'|]. split; [exact Hok'|]. split; [exact Hcap|].
      split; [exact HP | exact Hcont].
    - intros Hgrow Halloc. rewrite Heq.
      replace (Pos b + n >? Capacity b) with true by (symmetry; apply Z.gtb_lt; lia).
      cbv zeta.
      replace (Z.max (2 * Capacity b) (Pos b + n) <=? PTRDIFF_MAX) with false
        by (symmetry; apply Z.leb_gt; exact Halloc).
      reflexivity. }
  split.
  { (* AddUninitialized *)
    intros b n Hok Hn. cbv zeta.
    match goal with |- returns_if_allocated ?P _ /\ _ => set (after := P) end.
    assert (Hafter : forall r, AddUninitialized junk b n = Ok r -> after r).
    { intros [p b'] E. unfold after. cbn [fst snd].
      destruct (AddUninitialized_ok junk b n p b' Hok Hn E) as (Hok' & Hp & HP & Hcont & _).
      subst p. split; [reflexivity|]. split; [apply Hpos; exact Hok'|].
      split; [exact Hok'|]. split; [exact HP | exact Hcont]. }
    destruct (AddUninitialized_total junk b n Hok Hn) as [E|(p & b' & E)].
    - split; [left; exact E|]. intros Halloc. exfalso.
      unfold AddUninitialized in E. rewrite Reserve_eq in E by (assumption || lia).
      destruct (Pos b + n >? Capacity b); cbv zeta in E; [|discriminate E].
      replace (Z.max (2 * Capacity b) (Pos b + n) <=? PTRDIFF_MAX) with true in E
        by (symmetry; apply Z.leb_le; exact Halloc).
      discriminate E.
    - assert (Hret : returns after (AddUninitialized junk b n)).
      { exists (p, b'). split; [exact E | apply Hafter; exact E]. }
      split; [right; exact Hret | intros _; exact Hret]. }
  split.
  { (* Add *)
    intros b c Hok. cbv zeta.
    match goal with |- returns_if_allocated ?P _ /\ _ => set (after := P) end.
    pose proof (Add_appends junk b c Hok) as Happ.
    assert (Hafter : forall b', Add junk b c = Ok b' -> after b').
    { intros b' E. unfold after.
      destruct (Add_ok junk b c b' Hok E) as (Hok' & HP & Hcont & _).
      split; [apply Hpos; exact Hok'|]. split; [exact Hok'|]. split; [exact HP | exact Hcont]. }
    destruct (Add junk b c) as [b'|f|] eqn:E.
    - assert (Hret : returns after (Ok b')).
      { exists b'. split; [reflexivity | apply Hafter; reflexivity]. }
      split; [right; exact Hret | intros _; exact Hret].
    - destruct Happ as (-> & Hfull & Hbig).
      split; [left; reflexivity|]. intros Halloc. exfalso. lia.
    - contradiction. }
  split.
  { (* MoveCurrentPos *)
    intros b bytes. unfold MoveCurrentPos. split.
    - intros Hle.
      replace (to_size_t (Pos b + bytes) <=? Capacity b) with true
        by (symmetry; apply Z.leb_le; exact Hle).
      eexists. split; [reflexivity|]. cbn [Pos Capacity Buffer].
      split; [exact Hle|]. repeat split.
    - intros Hgt.
      replace (to_size_t (Pos b + bytes) <=? Capacity b) with false
        by (symmetry; apply Z.leb_gt; exact Hgt).
      reflexivity. }
  split.
  { (* MoveCurrentPos in the grow-and-retry loop *)
    intros b n w p b1 mem Hok Hw Hn E Hlen Hpre.
    destruct (reserve_then_give_back junk b n w p b1 mem Hok Hw Hn E Hlen Hpre)
      as (b2 & E2 & HP & Hcont & Hok2).
    exists b2. split; [exact E2|].
    split; [apply Hpos; exact Hok2|]. split; [exact Hok2|]. split; [exact HP | exact Hcont]. }
  split.
  { intros fuel is_q is_Q fmt_type arg argbufsize output argbuf outputSize Hok Hn.
    eapply safely_weaken; [apply grow_output_safely; eassumption|].
    intros r (H1 & _). auto. }
  split.
  { (* the bulk copy *)
    intros i output Hok Hi.
    eapply returns_weaken; [apply copy_literal_in_scanner; assumption|].
    intros r (H1 & H2 & H3 & H4 & H5).
    split; [apply Hpos; exact H1|]. split; [exact H1|]. split; [exact H2|].
    split; [exact H3|]. split; [exact H4 | exact H5]. }
  split.
  { intros fuel st Hok Hts. apply scan_body_literal_returns; assumption. }
  split.
  { intros fuel st Hok. eapply safely_weaken.
    - apply scan_body_safely; [pose proof (len_nonneg staticbuf); lia | assumption].
    - intros r (H1 & _). exact H1. }
  split.
  { intros st Hreach. apply Hpos.
    apply (reachable_ok junk render cx fmt nargs args staticbuf st Hsize Hreach). }
  intros fuel. apply fmt_core_no_assert. assumption.
Qed.

Lemma output_cursor_within_capacity_witness :
  output_invariant "?"%char render_nothing default_context (chars "%d") 1 [TI32 5]
    (repeat "?"%char 256).
Proof.
  apply (output_cursor_within_capacity "?"%char render_nothing default_context (chars "%d") 1
           [TI32 5] (repeat "?"%char 256)).
  vm_compute. discriminate.
Defined.

(** ** The integer encoders: [format_integer], [format_int32], [format_int64] *)

Lemma cast_small (t : TInt) (x : Z) : in_range t x -> cast t x = x.
Proof. destruct t; unfold in_range, cast; intros H; rewrite Z.mod_small; lia. Qed.

(** The do-while loop in base ten, for each of the four types. *)
Lemma format_integer_digits_base10 (t : TInt) (k : nat) :
  forall (room : nat) (v : Z) (acc : Decimal.uint),
    (S k <= room)%nat -> Z.abs v < 10 ^ Z.of_nat (S k) -> in_range t v ->
    exists tmp,
      format_integer_digits room t false 10 v (uchars acc) =
        Ok (uchars (Decimal.revapp (Unsigned.to_lu (Z.to_N (Z.abs v))) acc), tmp)
      /\ (tmp < 0 <-> v < 0)
      /\ len (uchars (Decimal.revapp (Unsigned.to_lu (Z.to_N (Z.abs v))) acc))
         <= len (uchars acc) + Z.of_nat (S k).
Proof.
  induction k as [|k IH]; intros room v acc Hroom Hv Hrange;
    (destruct room as [|room]; [lia|]); cbn [format_integer_digits];
    pose proof (Z.quot_rem' v 10) as Hqr;
    remember (Z.quot v 10) as q eqn:Hq; remember (Z.rem v 10) as r eqn:Hr;
    assert (Hfacts : -10 < r < 10 /\ Z.abs v = Z.abs r + 10 * Z.abs q /\
                     (q <> 0 -> (q < 0 <-> v < 0)) /\ (0 <= v -> 0 <= r /\ 0 <= q) /\
                     Z.abs q <= Z.abs v /\ Z.abs (q * 10) <= Z.abs v)
      by (subst q r; Z.to_euclidean_division_equations; lia);
    destruct Hfacts as (Hrb & Habs & Hsign & Hnn & Hqle & Hq10); clear Hq Hr;
    assert (Hcq : in_range t q) by (destruct t; unfold in_range in *; lia);
    assert (Hcq10 : in_range t (q * 10)) by (destruct t; unfold in_range in *; lia);
    assert (Hcr : in_range t r) by (destruct t; unfold in_range in *; lia);
    rewrite (cast_small t q) by exact Hcq;
    rewrite (cast_small t (q * 10)) by exact Hcq10;
    replace (v - q * 10) with r by lia;
    rewrite (cast_small t r) by exact Hcr;
    rewrite lut_digit by lia.
  - (* at most one digit *)
    assert (q = 0) by (change (10 ^ Z.of_nat 1) with 10 in Hv; lia). subst q.
    cbn [Z.eqb]. exists v.
    replace (Z.abs v) with (Z.abs r) by lia.
    rewrite to_lu_digit by lia. cbn [Decimal.revapp].
    rewrite revapp_dcons. cbn [Decimal.revapp].
    split; [reflexivity|]. split; [reflexivity|].
    rewrite uchars_dcons_len. lia.
  - destruct (Z.eqb_spec q 0) as [E|E].
    + subst q. exists v.
      replace (Z.abs v) with (Z.abs r) by lia.
      rewrite to_lu_digit by lia. rewrite revapp_dcons. cbn [Decimal.revapp].
      split; [reflexivity|]. split; [reflexivity|].
      rewrite uchars_dcons_len. lia.
    + assert (Hq' : Z.abs q < 10 ^ Z.of_nat (S k)).
      { replace (Z.of_nat (S (S k))) with (Z.succ (Z.of_nat (S k))) in Hv by lia.
        rewrite Z.pow_succ_r in Hv by lia. lia. }
      destruct (IH room q (dcons (Z.abs r) acc)) as (tmp & Hrun & Htmp & Hlen);
        [lia | exact Hq' | exact Hcq |].
      exists tmp. rewrite Hrun.
      rewrite <- revapp_dcons.
      rewrite <- to_lu_step by lia.
      rewrite Habs.
      split; [reflexivity|]. split; [rewrite Htmp; apply Hsign; exact E|].
      rewrite uchars_dcons_len in Hlen.
      rewrite <- revapp_dcons in Hlen. rewrite <- to_lu_step in Hlen by lia.
      lia.
Qed.

Lemma decimal_nonempty (v : Z) :
  1 <= len (uchars (Decimal.revapp (Unsigned.to_lu (Z.to_N (Z.abs v))) Decimal.Nil)).
Proof.
  unfold uchars.
  destruct (Z.to_N (Z.abs v)) as [|p]; [cbn; lia|].
  pose proof (Unsigned.to_uint_nonnil p) as Hnn.
  unfold Pos.to_uint, Decimal.rev in Hnn. cbn [Unsigned.to_lu].
  destruct (Decimal.revapp (Pos.to_little_uint p) Decimal.Nil); [contradiction|..];
    cbn [NilEmpty.string_of_uint list_ascii_of_string]; rewrite len_cons;
    match goal with |- 1 <= len ?l + 1 => pose proof (len_nonneg l); lia end.
Qed.

(** [format_integer<TInt, 10, false>] stores the decimal representation of
    the value at the destination and returns its length, for each of the
    four types; the twenty bytes of [buf] are enough. *)
Lemma format_integer_base10 (t : TInt) (mem : list ascii) (destination v : Z) :
  in_range t v -> 0 <= destination -> destination + decimal_width t <= len mem ->
  format_integer t 10 false mem destination v =
    Ok (splice mem destination (decimal v), len (decimal v))
  /\ 1 <= len (decimal v) <= decimal_width t.
Proof.
  intros Hrange Hd Hroom. unfold format_integer.
  replace (cast t 10) with 10 by (destruct t; reflexivity).
  set (k := match t with int32_t | uint32_t => 9%nat | int64_t => 18%nat | uint64_t => 19%nat end).
  assert (Hv : Z.abs v < 10 ^ Z.of_nat (S k)).
  { destruct t; unfold in_range in Hrange; unfold k.
    - change (10 ^ Z.of_nat 10) with 10000000000. lia.
    - change (10 ^ Z.of_nat 10) with 10000000000. lia.
    - change (10 ^ Z.of_nat 19) with 10000000000000000000. lia.
    - change (10 ^ Z.of_nat 20) with 100000000000000000000. lia. }
  destruct (format_integer_digits_base10 t k 20 v Decimal.Nil) as (tmp & Hrun & Htmp & Hlen);
    [destruct t; unfold k; lia | exact Hv | exact Hrange |].
  change (uchars Decimal.Nil) with (@nil ascii) in *.
  change (len (@nil ascii)) with 0 in Hlen.
  rewrite Hrun. cbn [bind]. cbv iota beta.
  pose proof (decimal_nonempty v) as Hne.
  set (ds := uchars (Decimal.revapp (Unsigned.to_lu (Z.to_N (Z.abs v))) Decimal.Nil)) in *.
  rewrite decimal_unfold. fold ds.
  destruct (Z.ltb_spec tmp 0) as [Hneg|Hpos].
  - assert (Hvneg : v < 0) by (apply Htmp; exact Hneg).
    replace (v <? 0) with true by (symmetry; apply Z.ltb_lt; exact Hvneg).
    assert (Hw : len ds + 1 <= decimal_width t /\ len ds < 20).
    { destruct t; unfold in_range in Hrange; unfold k, decimal_width in *; lia. }
    replace (len ds <? 20) with true by (symmetry; apply Z.ltb_lt; lia).
    cbn [bind].
    rewrite store_all_splice by (rewrite ?len_cons; lia).
    cbn [bind]. rewrite to_int_small by (rewrite len_cons; lia).
    rewrite len_cons. split; [reflexivity|lia].
  - assert (Hvpos : ~ v < 0) by (intros Hlt; apply Htmp in Hlt; lia).
    replace (v <? 0) with false by (symmetry; apply Z.ltb_ge; lia).
    assert (Hw : len ds <= decimal_width t /\ len ds <= 20).
    { destruct t; unfold in_range in Hrange; unfold k, decimal_width in *; lia. }
    cbn [bind].
    rewrite store_all_splice by lia.
    cbn [bind]. rewrite to_int_small by lia.
    split; [reflexivity|lia].
Qed.

Ltac hex_digit_cases r :=
  let H := fresh "Hr" in
  assert (H : r = 0 \/ r = 1 \/ r = 2 \/ r = 3 \/ r = 4 \/ r = 5 \/ r = 6 \/ r = 7 \/
              r = 8 \/ r = 9 \/ r = 10 \/ r = 11 \/ r = 12 \/ r = 13 \/ r = 14 \/ r = 15)
    by lia;
  repeat (destruct H as [H|H]; [subst r|]); [..|subst r].

Lemma hex_to_lu_digit (r : Z) :
  0 <= r < 16 -> HexadecimalPos.Unsigned.to_lu (Z.to_N r) = hcons r Hexadecimal.Nil.
Proof. intros H. hex_digit_cases r; reflexivity. Qed.

(** The least significant digit of [r + 16 * q] is [r]. *)
Lemma hex_to_lu_step (q r : Z) :
  0 < q -> 0 <= r < 16 ->
  HexadecimalPos.Unsigned.to_lu (Z.to_N (r + 16 * q))
    = hcons r (HexadecimalPos.Unsigned.to_lu (Z.to_N q)).
Proof.
  intros Hq Hr.
  replace (Z.to_N (r + 16 * q)) with (Z.to_N r + 16 * Z.to_N q)%N by lia.
  destruct (Z.to_N q) as [|p] eqn:Ep; [lia|].
  rewrite HexadecimalPos.Unsigned.Nadd_alt.
  hex_digit_cases r;
    match goal with
    | |- context [N.to_nat (Z.to_N ?k)] =>
        let n := eval vm_compute in (N.to_nat (Z.to_N k)) in
        change (N.to_nat (Z.to_N k)) with n
    end;
    rewrite ?HexadecimalPos.Unsigned.nat_iter_S, ?HexadecimalPos.Unsigned.nat_iter_0,
      ?HexadecimalPos.Unsigned.to_lu_succ, HexadecimalPos.Unsigned.to_lhex_tenfold;
    reflexivity.
Qed.

Lemma hex_revapp_hcons (r : Z) (d acc : Hexadecimal.uint) :
  0 <= r < 16 -> Hexadecimal.revapp (hcons r d) acc = Hexadecimal.revapp d (hcons r acc).
Proof. intros H. hex_digit_cases r; reflexivity. Qed.

(** The entry of the lookup table for a remainder of a division by
    sixteen. *)
Lemma hex_lut_digit (upcase : bool) (r : Z) (acc : Hexadecimal.uint) :
  0 <= r < 16 ->
  char_at (lut upcase) (35 + r) :: hchars upcase acc = hchars upcase (hcons r acc).
Proof. intros H. destruct upcase; hex_digit_cases r; reflexivity. Qed.

Lemma hchars_hcons_len (upcase : bool) (r : Z) (acc : Hexadecimal.uint) :
  0 <= r < 16 -> len (hchars upcase (hcons r acc)) = len (hchars upcase acc) + 1.
Proof. intros H. rewrite <- hex_lut_digit by exact H. apply len_cons. Qed.

(** The do-while loop in base sixteen on a value that is not negative. *)
Lemma format_integer_digits_base16 (t : TInt) (upcase : bool) (k : nat) :
  forall (room : nat) (v : Z) (acc : Hexadecimal.uint),
    (S k <= room)%nat -> 0 <= v < 16 ^ Z.of_nat (S k) -> in_range t v ->
    exists tmp,
      format_integer_digits room t upcase 16 v (hchars upcase acc) =
        Ok (hchars upcase
              (Hexadecimal.revapp (HexadecimalPos.Unsigned.to_lu (Z.to_N v)) acc), tmp)
      /\ 0 <= tmp
      /\ len (hchars upcase
                (Hexadecimal.revapp (HexadecimalPos.Unsigned.to_lu (Z.to_N v)) acc))
         <= len (hchars upcase acc) + Z.of_nat (S k).
Proof.
  induction k as [|k IH]; intros room v acc Hroom Hv Hrange;
    (destruct room as [|room]; [lia|]); cbn [format_integer_digits];
    pose proof (Z.quot_rem' v 16) as Hqr;
    remember (Z.quot v 16) as q eqn:Hq; remember (Z.rem v 16) as r eqn:Hr;
    assert (Hfacts : 0 <= r < 16 /\ v = r + 16 * q /\ 0 <= q /\ q <= v /\ q * 16 <= v)
      by (subst q r; Z.to_euclidean_division_equations; lia);
    destruct Hfacts as (Hrb & Hv' & Hq0 & Hqle & Hq16); clear Hq Hr;
    assert (Hcq : in_range t q) by (destruct t; unfold in_range in *; lia);
    assert (Hcq16 : in_range t (q * 16)) by (destruct t; unfold in_range in *; lia);
    assert (Hcr : in_range t r) by (destruct t; unfold in_range in *; lia);
    rewrite (cast_small t q) by exact Hcq;
    rewrite (cast_small t (q * 16)) by exact Hcq16;
    replace (v - q * 16) with r by lia;
    rewrite (cast_small t r) by exact Hcr;
    rewrite hex_lut_digit by lia.
  - assert (q = 0) by (change (16 ^ Z.of_nat 1) with 16 in Hv; lia). subst q.
    cbn [Z.eqb]. assert (Ev : v = r) by lia. rewrite Ev. exists r.
    rewrite hex_to_lu_digit by lia.
    rewrite hex_revapp_hcons by lia. cbn [Hexadecimal.revapp].
    split; [reflexivity|]. split; [lia|].
    rewrite hchars_hcons_len by lia. lia.
  - destruct (Z.eqb_spec q 0) as [E|E].
    + subst q. assert (Ev : v = r) by lia. rewrite Ev. exists r.
      rewrite hex_to_lu_digit by lia. rewrite hex_revapp_hcons by lia.
      cbn [Hexadecimal.revapp].
      split; [reflexivity|]. split; [lia|].
      rewrite hchars_hcons_len by lia. lia.
    + assert (Hq' : 0 <= q < 16 ^ Z.of_nat (S k)).
      { replace (Z.of_nat (S (S k))) with (Z.succ (Z.of_nat (S k))) in Hv by lia.
        rewrite Z.pow_succ_r in Hv by lia. lia. }
      destruct (IH room q (hcons r acc)) as (tmp & Hrun & Htmp & Hlen);
        [lia | exact Hq' | exact Hcq |].
      exists tmp. rewrite Hrun.
      rewrite <- hex_revapp_hcons by lia.
      rewrite <- hex_to_lu_step by lia.
      rewrite <- Hv'.
      split; [reflexivity|]. split; [exact Htmp|].
      rewrite hchars_hcons_len in Hlen by lia.
      rewrite <- hex_revapp_hcons in Hlen by lia.
      rewrite <- hex_to_lu_step in Hlen by lia.
      rewrite <- Hv' in Hlen. lia.
Qed.

Lemma hexadecimal_unfold (upcase : bool) (v : Z) :
  hexadecimal upcase v =
    hchars upcase (Hexadecimal.revapp (HexadecimalPos.Unsigned.to_lu (Z.to_N v))
                     Hexadecimal.Nil).
Proof.
  unfold hexadecimal, hchars. destruct (Z.to_N v) as [|p]; [reflexivity|].
  cbn [N.to_hex_uint HexadecimalPos.Unsigned.to_lu].
  pose proof (HexadecimalPos.Unsigned.to_uint_nonnil p) as Hnn.
  unfold Pos.to_hex_uint, Hexadecimal.rev in *.
  unfold HexadecimalString.NilZero.string_of_uint.
  destruct (Hexadecimal.revapp (Pos.to_little_hex_uint p) Hexadecimal.Nil);
    [contradiction|..]; reflexivity.
Qed.

Lemma hexadecimal_nonempty (upcase : bool) (v : Z) : 1 <= len (hexadecimal upcase v).
Proof.
  assert (H : forall s : list ascii, len (if upcase then map upper s else s) = len s).
  { intros s. destruct upcase; [|reflexivity]. unfold len. rewrite length_map. reflexivity. }
  unfold hexadecimal. cbv zeta. rewrite H.
  unfold HexadecimalString.NilZero.string_of_uint.
  destruct (N.to_hex_uint (Z.to_N v)); cbn [HexadecimalString.NilEmpty.string_of_uint
    list_ascii_of_string]; rewrite ?len_cons;
    match goal with |- 1 <= len ?l + 1 => pose proof (len_nonneg l); lia end.
Qed.

(** [format_integer<TInt, 16, upcase>] stores the hexadecimal
    representation of a value that is not negative. *)
Lemma format_integer_base16 (t : TInt) (upcase : bool) (mem : list ascii)
    (destination v : Z) :
  in_range t v -> 0 <= v -> 0 <= destination -> destination + hex_width t <= len mem ->
  format_integer t 16 upcase mem destination v =
    Ok (splice mem destination (hexadecimal upcase v), len (hexadecimal upcase v))
  /\ 1 <= len (hexadecimal upcase v) <= hex_width t.
Proof.
  intros Hrange Hv0 Hd Hroom. unfold format_integer.
  replace (cast t 16) with 16 by (destruct t; reflexivity).
  set (k := match t with int32_t | uint32_t => 7%nat | int64_t | uint64_t => 15%nat end).
  assert (Hv : 0 <= v < 16 ^ Z.of_nat (S k)).
  { destruct t; unfold in_range in Hrange; unfold k.
    - change (16 ^ Z.of_nat 8) with (2 ^ 32). lia.
    - change (16 ^ Z.of_nat 8) with (2 ^ 32). lia.
    - change (16 ^ Z.of_nat 16) with (2 ^ 64). lia.
    - change (16 ^ Z.of_nat 16) with (2 ^ 64). lia. }
  destruct (format_integer_digits_base16 t upcase k 20 v Hexadecimal.Nil)
    as (tmp & Hrun & Htmp & Hlen);
    [destruct t; unfold k; lia | exact Hv | exact Hrange |].
  replace (hchars upcase Hexadecimal.Nil) with (@nil ascii) in * by (destruct upcase; reflexivity).
  change (len (@nil ascii)) with 0 in Hlen.
  rewrite Hrun. cbn [bind]. cbv iota beta.
  pose proof (hexadecimal_nonempty upcase v) as Hne.
  rewrite hexadecimal_unfold in *.
  set (ds := hchars upcase (Hexadecimal.revapp (HexadecimalPos.Unsigned.to_lu (Z.to_N v))
                              Hexadecimal.Nil)) in *.
  replace (tmp <? 0) with false by (symmetry; apply Z.ltb_ge; lia).
  assert (Hw : len ds <= hex_width t /\ len ds <= 20).
  { destruct t; unfold k, hex_width in *; lia. }
  cbn [bind].
  rewrite store_all_splice by lia.
  cbn [bind]. rewrite to_int_small by lia.
  split; [reflexivity|lia].
Qed.

Section FastPaths.

Variable render : list ascii -> fmtarg -> option (list ascii).

Lemma mod_in_range32 (v : Z) : in_range uint32_t (v mod 2 ^ 32).
Proof. unfold in_range. apply Z.mod_pos_bound. lia. Qed.

Lemma mod_in_range64 (v : Z) : in_range uint64_t (v mod 2 ^ 64).
Proof. unfold in_range. apply Z.mod_pos_bound. lia. Qed.

(** [format_int32] in closed form. *)
Lemma format_int32_eq (mem : list ascii) (destination count : Z) (format_str : list ascii)
    (v : Z) :
  in_range int32_t v -> 0 <= destination -> destination + count <= len mem ->
  format_int32 render mem destination count format_str v =
    match fast_text false (char_at format_str 1) v with
    | Some text =>
        if fast_budget false (char_at format_str 1) <=? count
        then Ok (splice mem destination text, len text)
        else fmt_snprintf render mem destination count format_str (TI32 v)
    | None => fmt_snprintf render mem destination count format_str (TI32 v)
    end.
Proof.
  intros Hv Hd Hroom. unfold format_int32, fast_text, fast_budget. cbv zeta.
  pose proof (mod_in_range32 v) as Hm.
  assert (Hu : cast uint32_t v = v mod 2 ^ 32) by reflexivity. rewrite Hu.
  assert (H0 : 0 <= v mod 2 ^ 32) by (unfold in_range in Hm; lia).
  destruct (char_at format_str 1) as [b0 b1 b2 b3 b4 b5 b6 b7].
  destruct b0, b1, b2, b3, b4, b5, b6, b7; cbv beta iota;
    lazymatch goal with
    | |- ?x = ?x => reflexivity
    | _ => idtac
    end;
    match goal with
    | |- context [?c >=? ?k] =>
        destruct (Z.geb_spec c k) as [Hge|Hlt];
        [replace (k <=? c) with true by (symmetry; apply Z.leb_le; lia)
        |replace (k <=? c) with false by (symmetry; apply Z.leb_gt; lia); reflexivity]
    end.
  all: cbv beta iota;
    lazymatch goal with
    | |- format_integer ?t 16 ?up _ _ ?x = _ =>
        apply (proj1 (format_integer_base16 t up mem destination x ltac:(assumption)
                        ltac:(assumption) Hd ltac:(unfold hex_width; lia)))
    | |- format_integer ?t 10 _ _ _ ?x = _ =>
        apply (proj1 (format_integer_base10 t mem destination x ltac:(assumption) Hd
                        ltac:(unfold decimal_width; lia)))
    end.
Qed.

End FastPaths.

Section FastPaths64.

Variable render : list ascii -> fmtarg -> option (list ascii).

(** [format_int64] in closed form. *)
Lemma format_int64_eq (mem : list ascii) (destination count : Z) (format_str : list ascii)
    (v : Z) :
  in_range int64_t v -> 0 <= destination -> destination + count <= len mem ->
  format_int64 render mem destination count format_str v =
    if Ascii.eqb (char_at format_str 1) "l" && Ascii.eqb (char_at format_str 2) "l" then
      match fast_text true (char_at format_str 4) v with
      | Some text =>
          if fast_budget true (char_at format_str 4) <=? count
          then Ok (splice mem destination text, len text)
          else fmt_snprintf render mem destination count format_str (TI64 v)
      | None => fmt_snprintf render mem destination count format_str (TI64 v)
      end
    else fmt_snprintf render mem destination count format_str (TI64 v).
Proof.
  intros Hv Hd Hroom. unfold format_int64, fast_text, fast_budget. cbv zeta.
  change (char_at i64Prefix 0) with "l"%char. change (char_at i64Prefix 1) with "l"%char.
  destruct (Ascii.eqb (char_at format_str 1) "l" && Ascii.eqb (char_at format_str 2) "l");
    [|reflexivity].
  pose proof (mod_in_range64 v) as Hm.
  assert (Hu : cast uint64_t v = v mod 2 ^ 64) by reflexivity. rewrite Hu.
  assert (H0 : 0 <= v mod 2 ^ 64) by (unfold in_range in Hm; lia).
  destruct (char_at format_str 4) as [b0 b1 b2 b3 b4 b5 b6 b7].
  destruct b0, b1, b2, b3, b4, b5, b6, b7; cbv beta iota;
    lazymatch goal with
    | |- ?x = ?x => reflexivity
    | _ => idtac
    end;
    match goal with
    | |- context [?c >=? ?k] =>
        destruct (Z.geb_spec c k) as [Hge|Hlt];
        [replace (k <=? c) with true by (symmetry; apply Z.leb_le; lia)
        |replace (k <=? c) with false by (symmetry; apply Z.leb_gt; lia); reflexivity]
    end.
  all: cbv beta iota;
    lazymatch goal with
    | |- format_integer ?t 16 ?up _ _ ?x = _ =>
        apply (proj1 (format_integer_base16 t up mem destination x ltac:(assumption)
                        ltac:(assumption) Hd ltac:(unfold hex_width; lia)))
    | |- format_integer ?t 10 _ _ _ ?x = _ =>
        apply (proj1 (format_integer_base10 t mem destination x ltac:(assumption) Hd
                        ltac:(unfold decimal_width; lia)))
    end.
Qed.

End FastPaths64.

(** The text of a fast path is never empty and fits the budget that the
    path asks for. *)
Lemma fast_text_bounds (wide : bool) (letter : ascii) (v : Z) :
  in_range (if wide then int64_t else int32_t) v ->
  match fast_text wide letter v with
  | Some text => 1 <= len text <= fast_budget wide letter
  | None => True
  end.
Proof.
  intros Hv. unfold fast_text, fast_budget. cbv zeta.
  assert (Hm : in_range (if wide then uint64_t else uint32_t)
                 (v mod (if wide then 2 ^ 64 else 2 ^ 32)) /\
               0 <= v mod (if wide then 2 ^ 64 else 2 ^ 32)).
  { destruct wide; unfold in_range;
      match goal with |- context [v mod ?m] => pose proof (Z.mod_pos_bound v m ltac:(lia)) end;
      lia. }
  destruct Hm as [Hm H0].
  set (mem := repeat NUL 20).
  assert (Hd10 : forall t x, in_range t x -> 1 <= len (decimal x) <= decimal_width t).
  { intros t x Hx. apply (format_integer_base10 t mem 0 x Hx); [lia|].
    destruct t; cbn; lia. }
  assert (Hd16 : forall t up x, in_range t x -> 0 <= x ->
                   1 <= len (hexadecimal up x) <= hex_width t).
  { intros t up x Hx Hx0. apply (format_integer_base16 t up mem 0 x Hx Hx0); [lia|].
    destruct t; cbn; lia. }
  pose proof (Hd16 _ false _ Hm H0) as H1. pose proof (Hd16 _ true _ Hm H0) as H2.
  pose proof (Hd10 _ _ Hm) as H3. pose proof (Hd10 _ _ Hv) as H4.
  clear Hd10 Hd16 Hm H0 Hv. clearbody mem.
  destruct wide; unfold hex_width, decimal_width in *;
    destruct letter as [b0 b1 b2 b3 b4 b5 b6 b7];
    destruct b0, b1, b2, b3, b4, b5, b6, b7; cbv beta iota; try exact I; lia.
Qed.

(** ** Integer arguments in the grow-and-retry loop *)

Section ConstantWriter.

Variable junk : ascii.
Variable render : list ascii -> fmtarg -> option (list ascii).

(** A writer that stores the same text of fewer than 64 characters for
    every size from 64 on is accepted on the first pass of the loop. *)
Lemma grow_output_first_pass (letter : ascii) (arg : fmtarg) (n : Z) (ab0 ab1 text : list ascii)
    (f : nat) (out : StackBuffer) (B : Z) :
  (forall (mem : list ascii) (p size : Z) (ab : list ascii),
     ab = ab0 \/ ab = ab1 -> 0 <= p -> 0 < size < 2 ^ 21 -> 64 <= size ->
     p + size <= len mem ->
     call_writer render default_context false false letter mem p ab n size arg
       = Ok (splice mem p text, ab1, len text)) ->
  len text < 64 ->
  (1 <= f)%nat -> buffer_ok out -> Capacity out <= B -> 2 * (Pos out + 2 ^ 21) <= B ->
  B <= PTRDIFF_MAX ->
  exists out' ab',
    grow_output junk render default_context f false false letter arg n out ab0 64 = Ok (out', ab')
    /\ buffer_ok out' /\ contents out' = contents out ++ text /\ Capacity out' <= B.
Proof.
  intros Hw Ht Hf Hok HB HB2 HBmax. pose proof (len_nonneg text) as H0.
  destruct (grow_output_retry junk render default_context false false letter arg n ab0 ab1
              (fun _ => text) (fun _ => len text) 64)
    with (fuel := f) (size := 64) (out := out) (ab := ab0) (B := B) (text := text)
    as (out' & E & Hok' & Hc' & HB').
  - exact Hw.
  - intros size Hs Hlo. cbv beta. lia.
  - intros size Hs Hlo Hr. cbv beta. lia.
  - intros size Hs Hlo Hr. cbv beta in *. exfalso. lia.
  - left; reflexivity.
  - lia.
  - lia.
  - exact Hok.
  - exact HB.
  - exact HB2.
  - exact HBmax.
  - destruct f as [|f]; [lia|]. cbn [retry_text].
    replace (len text >=? 0) with true by (symmetry; apply Z.geb_le; lia).
    replace (len text <? 64) with true by (symmetry; apply Z.ltb_lt; lia).
    cbn [andb]. f_equal. apply firstn_all2. unfold len. lia.
  - exists out', ab1. split; [exact E|]. split; [exact Hok'|]. split; [exact Hc'|exact HB'].
Qed.

(** The writer for a 32-bit integer under a two-character specifier: the
    letters d, i, u, x and X take the fast path of [format_int32], every
    other letter but c and o is replaced by d. *)
Lemma int32_writer (letter : ascii) (v : Z) (mem : list ascii) (p size : Z) (ab : list ascii) :
  let L := if tokenint_of letter then letter else "d"%char in
  let text := match fast_text false letter v with Some t => t | None => decimal v end in
  in_range int32_t v ->
  Ascii.eqb letter "c" = false -> Ascii.eqb letter "o" = false ->
  ab = "%"%char :: repeat junk 15 \/ ab = "%"%char :: L :: NUL :: repeat junk 13 ->
  0 <= p -> 0 < size < 2 ^ 21 -> 64 <= size -> p + size <= len mem ->
  call_writer render default_context false false letter mem p ab 1 size (TI32 v)
    = Ok (splice mem p text, "%"%char :: L :: NUL :: repeat junk 13, len text).
Proof.
  intros L text Hv Hc Ho Hab Hp Hsize Hlo Hroom.
  unfold call_writer. cbv iota.
  change (to_size_t 1) with 1. rewrite to_size_t_small by lia.
  unfold fmt_output_with_snprintf. cbv zeta. rewrite Hc.
  assert (Hset : (if tokenint_of letter then fmt_settype ab 1 (Some []) letter
                  else fmt_settype ab 1 (Some []) "d")
                 = Ok ("%"%char :: L :: NUL :: repeat junk 13)).
  { unfold L. destruct Hab as [-> | ->].
    - change (repeat junk 15) with (junk :: junk :: repeat junk 13).
      destruct (tokenint_of letter); apply fmt_settype_after_percent.
    - destruct (tokenint_of letter); apply fmt_settype_after_percent. }
  rewrite Hset. cbn [bind].
  rewrite (cast_small int32_t v Hv).
  rewrite format_int32_eq by (assumption || lia).
  change (char_at ("%"%char :: L :: NUL :: repeat junk 13) 1) with L.
  assert (Htext : fast_text false L v = Some text /\ fast_budget false L <= 11).
  { unfold L, text. clear - Hc Ho.
    destruct letter as [b0 b1 b2 b3 b4 b5 b6 b7].
    destruct b0, b1, b2, b3, b4, b5, b6, b7; try discriminate Hc; try discriminate Ho;
      cbv beta iota delta [tokenint_of fast_text fast_budget]; split; (reflexivity || lia). }
  destruct Htext as [-> Hbud].
  replace (fast_budget false L <=? size) with true by (symmetry; apply Z.leb_le; lia).
  cbn [bind]. reflexivity.
Qed.

End ConstantWriter.

Lemma decimal_len (t : TInt) (v : Z) :
  in_range t v -> 1 <= len (decimal v) <= decimal_width t.
Proof.
  intros Hv.
  apply (format_integer_base10 t (repeat NUL 20) 0 v Hv); [lia|].
  destruct t; cbn; lia.
Qed.

Section Int64Writer.

Variable junk : ascii.
Variable render : list ascii -> fmtarg -> option (list ascii).

(** The writer for a 64-bit integer under a specifier with the flags
    "ll": the rewritten specifier has three times the letter l, and the
    letter stands where [format_int64] looks for it. *)
Lemma int64_writer (letter : ascii) (v : Z) (mem : list ascii) (p size : Z) (ab : list ascii) :
  let L := if tokenint_of letter then letter else "d"%char in
  let text := match fast_text true letter v with Some t => t | None => decimal v end in
  in_range int64_t v ->
  Ascii.eqb letter "o" = false ->
  ab = chars "%ll" ++ repeat junk 13 \/ ab = chars "%lll" ++ L :: NUL :: repeat junk 10 ->
  0 <= p -> 0 < size < 2 ^ 21 -> 64 <= size -> p + size <= len mem ->
  call_writer render default_context false false letter mem p ab 3 size (TI64 v)
    = Ok (splice mem p text, chars "%lll" ++ L :: NUL :: repeat junk 10, len text).
Proof.
  intros L text Hv Ho Hab Hp Hsize Hlo Hroom.
  unfold call_writer. cbv iota.
  change (to_size_t 3) with 3. rewrite to_size_t_small by lia.
  unfold fmt_output_with_snprintf. cbv zeta.
  assert (Hset : (if tokenint_of letter then fmt_settype ab 3 (Some i64Prefix) letter
                  else fmt_settype ab 3 (Some i64Prefix) "d")
                 = Ok (chars "%lll" ++ L :: NUL :: repeat junk 10)).
  { unfold L. destruct Hab as [-> | ->]; destruct (tokenint_of letter); reflexivity. }
  rewrite Hset. cbn [bind].
  rewrite (cast_small int64_t v Hv).
  rewrite format_int64_eq by (assumption || lia).
  change (char_at (chars "%lll" ++ L :: NUL :: repeat junk 10) 1) with "l"%char.
  change (char_at (chars "%lll" ++ L :: NUL :: repeat junk 10) 2) with "l"%char.
  change (char_at (chars "%lll" ++ L :: NUL :: repeat junk 10) 4) with L.
  change (Ascii.eqb "l" "l" && Ascii.eqb "l" "l") with true. cbv iota.
  assert (Htext : fast_text true L v = Some text /\ fast_budget true L <= 20).
  { unfold L, text. clear - Ho.
    destruct letter as [b0 b1 b2 b3 b4 b5 b6 b7].
    destruct b0, b1, b2, b3, b4, b5, b6, b7; try discriminate Ho;
      cbv beta iota delta [tokenint_of fast_text fast_budget]; split; (reflexivity || lia). }
  destruct Htext as [-> Hbud].
  replace (fast_budget true L <=? size) with true by (symmetry; apply Z.leb_le; lia).
  cbn [bind]. reflexivity.
Qed.

End Int64Writer.


(** X8. [format_integer] in base ten stores the decimal representation of
    the value, with its sign, from the destination on and returns its
    length, which is at most 11 characters for [int32_t], 10 for
    [uint32_t] and 20 for the 64-bit types; no other byte changes. *)
Theorem format_integer_base_ten :
  forall (t : TInt) (mem : list ascii) (destination v : Z),
    in_range t v -> 0 <= destination -> destination + decimal_width t <= len mem ->
    format_integer t 10 false mem destination v
      = Ok (splice mem destination (decimal v), len (decimal v))
    /\ 1 <= len (decimal v) <= decimal_width t.
Proof. exact format_integer_base10. Qed.

Lemma format_integer_base_ten_witness :
  format_integer int32_t 10 false (repeat "?"%char 12) 0 (-2147483648)
    = Ok (splice (repeat "?"%char 12) 0 (decimal (-2147483648)), len (decimal (-2147483648)))
  /\ 1 <= len (decimal (-2147483648)) <= decimal_width int32_t.
Proof.
  apply (format_integer_base_ten int32_t (repeat "?"%char 12) 0 (-2147483648)).
  - cbn. lia.
  - lia.
  - vm_compute. discriminate.
Defined.

(** X9. [format_integer] in base sixteen stores the hexadecimal
    representation of a value that is not negative, in small or in capital
    letters, and returns its length, which is at most 8 characters for the
    32-bit types and 16 for the 64-bit types; no other byte changes. *)
Theorem format_integer_base_sixteen :
  forall (t : TInt) (upcase : bool) (mem : list ascii) (destination v : Z),
    in_range t v -> 0 <= v -> 0 <= destination -> destination + hex_width t <= len mem ->
    format_integer t 16 upcase mem destination v
      = Ok (splice mem destination (hexadecimal upcase v), len (hexadecimal upcase v))
    /\ 1 <= len (hexadecimal upcase v) <= hex_width t.
Proof. exact format_integer_base16. Qed.

Lemma format_integer_base_sixteen_witness :
  format_integer uint32_t 16 true (repeat "?"%char 8) 0 4294967295
    = Ok (splice (repeat "?"%char 8) 0 (hexadecimal true 4294967295),
          len (hexadecimal true 4294967295))
  /\ 1 <= len (hexadecimal true 4294967295) <= hex_width uint32_t.
Proof.
  apply (format_integer_base_sixteen uint32_t true (repeat "?"%char 8) 0 4294967295).
  - cbn. lia.
  - lia.
  - lia.
  - vm_compute. discriminate.
Defined.

(** X10. [format_int32] looks at the second character of the specifier
    only: for d, i, u, x and X, and a destination of at least 11 bytes (8
    for x and X), it stores the decimal representation, the decimal
    representation of the value read as unsigned, or its hexadecimal
    representation, without a null terminator and without calling
    [snprintf]; in every other case the call is [fmt_snprintf]'s. *)
Theorem format_int32_fast_path :
  forall (render : list ascii -> fmtarg -> option (list ascii)) (mem : list ascii)
         (destination count : Z) (format_str : list ascii) (v : Z),
    in_range int32_t v -> 0 <= destination -> destination + count <= len mem ->
    format_int32 render mem destination count format_str v =
      match fast_text false (char_at format_str 1) v with
      | Some text =>
          if fast_budget false (char_at format_str 1) <=? count
          then Ok (splice mem destination text, len text)
          else fmt_snprintf render mem destination count format_str (TI32 v)
      | None => fmt_snprintf render mem destination count format_str (TI32 v)
      end.
Proof. exact format_int32_eq. Qed.

Lemma format_int32_fast_path_witness :
  format_int32 render_nothing (repeat "?"%char 11) 0 11 (chars "%u") (-1) =
    match fast_text false (char_at (chars "%u") 1) (-1) with
    | Some text =>
        if fast_budget false (char_at (chars "%u") 1) <=? 11
        then Ok (splice (repeat "?"%char 11) 0 text, len text)
        else fmt_snprintf render_nothing (repeat "?"%char 11) 0 11 (chars "%u") (TI32 (-1))
    | None => fmt_snprintf render_nothing (repeat "?"%char 11) 0 11 (chars "%u") (TI32 (-1))
    end.
Proof.
  apply (format_int32_fast_path render_nothing (repeat "?"%char 11) 0 11 (chars "%u") (-1)).
  - cbn. lia.
  - lia.
  - vm_compute. discriminate.
Defined.

(** X11. [format_int64] takes a fast path only when the second and the
    third character of the specifier are l, and then by the character at
    index 4: for d, i, u, x and X there, and a destination of at least 20
    bytes (16 for x and X), it stores the representation without calling
    [snprintf]; in every other case the call is [fmt_snprintf]'s. *)
Theorem format_int64_fast_path :
  forall (render : list ascii -> fmtarg -> option (list ascii)) (mem : list ascii)
         (destination count : Z) (format_str : list ascii) (v : Z),
    in_range int64_t v -> 0 <= destination -> destination + count <= len mem ->
    format_int64 render mem destination count format_str v =
      if Ascii.eqb (char_at format_str 1) "l" && Ascii.eqb (char_at format_str 2) "l" then
        match fast_text true (char_at format_str 4) v with
        | Some text =>
            if fast_budget true (char_at format_str 4) <=? count
            then Ok (splice mem destination text, len text)
            else fmt_snprintf render mem destination count format_str (TI64 v)
        | None => fmt_snprintf render mem destination count format_str (TI64 v)
        end
      else fmt_snprintf render mem destination count format_str (TI64 v).
Proof. exact format_int64_eq. Qed.

Lemma format_int64_fast_path_witness :
  format_int64 render_nothing (repeat "?"%char 20) 0 20 (chars "%llld") (-9223372036854775808) =
    if Ascii.eqb (char_at (chars "%llld") 1) "l" && Ascii.eqb (char_at (chars "%llld") 2) "l" then
      match fast_text true (char_at (chars "%llld") 4) (-9223372036854775808) with
      | Some text =>
          if fast_budget true (char_at (chars "%llld") 4) <=? 20
          then Ok (splice (repeat "?"%char 20) 0 text, len text)
          else fmt_snprintf render_nothing (repeat "?"%char 20) 0 20 (chars "%llld")
                 (TI64 (-9223372036854775808))
      | None => fmt_snprintf render_nothing (repeat "?"%char 20) 0 20 (chars "%llld")
                  (TI64 (-9223372036854775808))
      end
    else fmt_snprintf render_nothing (repeat "?"%char 20) 0 20 (chars "%llld")
           (TI64 (-9223372036854775808)).
Proof.
  apply (format_int64_fast_path render_nothing (repeat "?"%char 20) 0 20 (chars "%llld")
           (-9223372036854775808)).
  - cbn. lia.
  - lia.
  - vm_compute. discriminate.
Defined.

(** X12. A 32-bit integer argument under a two-character specifier is
    inserted without any call of [snprintf]: the letters d and i give its
    decimal representation, u the decimal and x and X the hexadecimal
    representation of the value read as unsigned, and every other letter
    (c, o, n, q and Q apart) gives the decimal representation as d does. *)
Theorem int32_argument_is_inserted :
  forall (junk : ascii) (render : list ascii -> fmtarg -> option (list ascii)) (fuel : nat)
         (lit1 lit2 : list ascii) (letter : ascii) (v : Z) (more : list fmtarg),
    Forall (fun c => literal_char c = true) lit1 ->
    Forall (fun c => literal_char c = true) lit2 ->
    switch_arm letter = Terminator ->
    letter <> "n"%char -> letter <> "q"%char -> letter <> "Q"%char ->
    letter <> "c"%char -> letter <> "o"%char ->
    in_range int32_t v ->
    len lit1 < 2 ^ 59 -> len lit2 < 2 ^ 59 ->
    (List.length lit1 + List.length lit2 + 5 <= fuel)%nat ->
    fmt junk render fuel (lit1 ++ "%"%char :: letter :: lit2) (TI32 v :: more)
      = Ok (lit1 ++ (match fast_text false letter v with
                     | Some text => text
                     | None => decimal v
                     end) ++ lit2).
Proof.
  intros junk render fuel lit1 lit2 letter v more Hl1 Hl2 Harm Hn Hq HQ Hc Ho Hv Hb1 Hb2 Hfuel.
  set (text := match fast_text false letter v with Some t => t | None => decimal v end).
  assert (Ht : len text < 64).
  { unfold text. pose proof (fast_text_bounds false letter v Hv) as Hb.
    destruct (fast_text false letter v) as [t|].
    - assert (Hbud : fast_budget false letter <= 11)
        by (unfold fast_budget; destruct letter as [[] [] [] [] [] [] [] []]; lia).
      lia.
    - pose proof (decimal_len int32_t v Hv) as Hd. unfold decimal_width in Hd. lia. }
  apply (fmt_specifier_in_context junk render fuel 1 lit1 [] lit2 letter (TI32 v) more);
    try assumption; try (apply Ascii.eqb_neq; assumption).
  - constructor.
  - cbn. lia.
  - lia.
  - cbn [List.length]. lia.
  - intros f out B Hf Hok HB HB2 HBmax.
    change (len (without_stars ["%"%char])) with 1.
    change (splice (repeat junk 16) 0 (without_stars ["%"%char]))
      with ("%"%char :: repeat junk 15).
    apply (grow_output_first_pass junk render letter (TI32 v) 1 ("%"%char :: repeat junk 15)
             ("%"%char :: (if tokenint_of letter then letter else "d"%char) :: NUL
                :: repeat junk 13) text f out B); try assumption.
    intros mem p size ab Hab Hp Hsize Hlo Hroom.
    apply int32_writer; try assumption; apply Ascii.eqb_neq; assumption.
Qed.

Lemma int32_argument_is_inserted_witness :
  fmt "?"%char render_nothing 30 (chars "<" ++ "%"%char :: "s"%char :: chars ">")
    (TI32 (-42) :: [])
  = Ok (chars "<" ++ (match fast_text false "s" (-42) with
                      | Some text => text
                      | None => decimal (-42)
                      end) ++ chars ">").
Proof.
  apply (int32_argument_is_inserted "?"%char render_nothing 30 (chars "<") (chars ">")
           "s" (-42) []).
  - repeat constructor.
  - repeat constructor.
  - reflexivity.
  - discriminate.
  - discriminate.
  - discriminate.
  - discriminate.
  - discriminate.
  - cbn. lia.
  - vm_compute. reflexivity.
  - vm_compute. reflexivity.
  - vm_compute. lia.
Defined.

(** X13. A 64-bit integer argument under a specifier with the flags "ll"
    is inserted without any call of [snprintf]: d and i give its decimal
    representation, u the decimal and x and X the hexadecimal
    representation of the value read as unsigned, and every other letter
    (o, n, q and Q apart) gives the decimal representation as d does. *)
Theorem int64_argument_is_inserted :
  forall (junk : ascii) (render : list ascii -> fmtarg -> option (list ascii)) (fuel : nat)
         (lit1 lit2 : list ascii) (letter : ascii) (v : Z) (more : list fmtarg),
    Forall (fun c => literal_char c = true) lit1 ->
    Forall (fun c => literal_char c = true) lit2 ->
    switch_arm letter = Terminator ->
    letter <> "n"%char -> letter <> "q"%char -> letter <> "Q"%char ->
    letter <> "o"%char ->
    in_range int64_t v ->
    len lit1 < 2 ^ 59 -> len lit2 < 2 ^ 59 ->
    (List.length lit1 + List.length lit2 + 7 <= fuel)%nat ->
    fmt junk render fuel (lit1 ++ chars "%ll" ++ letter :: lit2) (TI64 v :: more)
      = Ok (lit1 ++ (match fast_text true letter v with
                     | Some text => text
                     | None => decimal v
                     end) ++ lit2).
Proof.
  intros junk render fuel lit1 lit2 letter v more Hl1 Hl2 Harm Hn Hq HQ Ho Hv Hb1 Hb2 Hfuel.
  set (text := match fast_text true letter v with Some t => t | None => decimal v end).
  assert (Ht : len text < 64).
  { unfold text. pose proof (fast_text_bounds true letter v Hv) as Hb.
    destruct (fast_text true letter v) as [t|].
    - assert (Hbud : fast_budget true letter <= 20)
        by (unfold fast_budget; destruct letter as [[] [] [] [] [] [] [] []]; lia).
      lia.
    - pose proof (decimal_len int64_t v Hv) as Hd. unfold decimal_width in Hd. lia. }
  change (lit1 ++ chars "%ll" ++ letter :: lit2)
    with (lit1 ++ "%"%char :: chars "ll" ++ letter :: lit2).
  apply (fmt_specifier_in_context junk render fuel 1 lit1 (chars "ll") lit2 letter (TI64 v) more);
    try assumption; try (apply Ascii.eqb_neq; assumption).
  - repeat constructor; discriminate.
  - cbn. lia.
  - lia.
  - cbn [List.length chars list_ascii_of_string]. cbn. lia.
  - intros f out B Hf Hok HB HB2 HBmax.
    change (len (without_stars ("%"%char :: chars "ll"))) with 3.
    change (splice (repeat junk 16) 0 (without_stars ("%"%char :: chars "ll")))
      with (chars "%ll" ++ repeat junk 13).
    apply (grow_output_first_pass junk render letter (TI64 v) 3 (chars "%ll" ++ repeat junk 13)
             (chars "%lll" ++ (if tokenint_of letter then letter else "d"%char) :: NUL
                :: repeat junk 10) text f out B); try assumption.
    intros mem p size ab Hab Hp Hsize Hlo Hroom.
    apply int64_writer; try assumption; apply Ascii.eqb_neq; assumption.
Qed.

Lemma int64_argument_is_inserted_witness :
  fmt "?"%char render_nothing 30 (chars "<" ++ chars "%ll" ++ "x"%char :: chars ">")
    (TI64 (-1) :: [])
  = Ok (chars "<" ++ (match fast_text true "x" (-1) with
                      | Some text => text
                      | None => decimal (-1)
                      end) ++ chars ">").
Proof.
  apply (int64_argument_is_inserted "?"%char render_nothing 30 (chars "<") (chars ">")
           "x" (-1) []).
  - repeat constructor.
  - repeat constructor.
  - reflexivity.
  - discriminate.
  - discriminate.
  - discriminate.
  - discriminate.
  - cbn. lia.
  - vm_compute. reflexivity.
  - vm_compute. reflexivity.
  - vm_compute. lia.
Defined.

